(** * Google Drive replication plugin: a shallow embedding

    The development follows the TypeScript sources of the plugin
    [src/plugins/replication-google-drive]:
    - [downstream.ts]        ([fetchChanges], [fetchChangesFiles]),
    - [document-handling.ts] ([fetchDocumentContents] and its [fetchOne]),
    - [signaling.ts]         ([SignalingState], [readMessages],
                              [cleanupOldSignalingMessages]),
    - [index.ts]             ([replicateGoogleDrive]),
    and the push path ([upstream.ts]) as far as the unit tests pin it down.

    Network responses, random numbers and the order in which pending
    promises settle are inputs of the model; everything the code computes
    from them is a function that evaluates. *)

From Stdlib Require Import ZArith Lia Ascii String.
From stdpp Require Import gmap strings list sorting.

Local Open Scope string_scope.
Local Open Scope Z_scope.
Local Open Scope list_scope.

(** ** JavaScript values and helpers used by the plugin *)

Module JS.

(** What a call can throw. *)
Inductive error : Type :=
| RxFetchError (status : Z)   (* newRxFetchError(res) *)
| NotFalsyError               (* ensureNotFalsy(undefined | '' | 0 | null | false) *)
| JsonSyntaxError              (* JSON.parse of malformed text *)
| TypeError                   (* property read on null *)
| RxError (code : string).    (* newRxError(code) *)

(** A promise that has settled: fulfilled with a value or rejected. *)
Inductive result (A : Type) : Type :=
| Ok (a : A)
| Throw (e : error).
Arguments Ok {A} a.
Arguments Throw {A} e.

Definition bind {A B} (r : result A) (k : A -> result B) : result B :=
  match r with
  | Ok a => k a
  | Throw e => Throw e
  end.

Definition isOk {A} (r : result A) : bool :=
  match r with Ok _ => true | Throw _ => false end.

(** Parsed JSON. *)
#[warnings="-register-all"]
Inductive json : Type :=
| JNull
| JBool (b : bool)
| JNum (n : Z)
| JStr (s : string)
| JArr (l : list json)
| JObj (fields : list (string * json)).

(** ToBoolean on parsed JSON: [null], [false], [0] and [''] are falsy,
    arrays and objects are truthy. *)
Definition truthy (v : json) : bool :=
  match v with
  | JNull => false
  | JBool b => b
  | JNum n => negb (n =? 0)
  | JStr s => negb (String.eqb s "")
  | JArr _ | JObj _ => true
  end.

(** Modelled from the spec: [utils/index.ts] is not among the sources.
    As its name and its uses say, [ensureNotFalsy(v)] returns [v] when it
    is truthy and throws otherwise; here at the two types the plugin
    uses it. *)
Definition ensureNotFalsy (v : option json) : result json :=
  match v with
  | Some j => if truthy j then Ok j else Throw NotFalsyError
  | None => Throw NotFalsyError
  end.

Definition ensureNotFalsyStr (s : option string) : result string :=
  match s with
  | Some t => if String.eqb t "" then Throw NotFalsyError else Ok t
  | None => Throw NotFalsyError
  end.

(** Modelled from the spec: [lastOfArray] of [utils/index.ts], the last
    element of the array and [undefined] on [[]]. *)
Definition lastOfArray {A} (ar : list A) : option A := last ar.

(** [ar.slice(0, end)] for an integer [end]: a negative [end] counts
    from the back of the array. *)
Definition slice0 {A} (ar : list A) (end_ : Z) : list A :=
  let len := Z.of_nat (length ar) in
  let final := if end_ <? 0 then Z.max (len + end_) 0 else Z.min end_ len in
  take (Z.to_nat final) ar.

(** [ar.includes(x)] on an array of strings. *)
Definition includes (ar : list string) (x : string) : bool :=
  existsb (String.eqb x) ar.

(** [a === b] where [a : string | undefined] and [b : string]. *)
Definition strictEqStr (a : option string) (b : string) : bool :=
  match a with
  | Some t => String.eqb t b
  | None => false
  end.

(** [v.k] on parsed JSON: reading a property of [null] throws, a
    primitive or an array has no such property. *)
Fixpoint assoc (k : string) (fields : list (string * json)) : option json :=
  match fields with
  | [] => None
  | (k', v) :: rest => if String.eqb k k' then Some v else assoc k rest
  end.

Definition getField (k : string) (v : json) : result (option json) :=
  match v with
  | JNull => Throw TypeError
  | JObj fields => Ok (assoc k fields)
  | _ => Ok None
  end.

(** [s.split(sep)] for a one-character separator: never empty. *)
Fixpoint split (sep : Ascii.ascii) (s : string) : list string :=
  match s with
  | EmptyString => [EmptyString]
  | String c rest =>
      if Ascii.eqb c sep then EmptyString :: split sep rest
      else match split sep rest with
           | h :: t => String c h :: t
           | [] => [String c EmptyString]
           end
  end.

(** [Promise.all(ar.map(f))] when every [f] settles: the values in the
    order of [ar], or the rejection (of the first element that has one). *)
Fixpoint promiseAll {A B} (f : A -> result B) (ar : list A) : result (list B) :=
  match ar with
  | [] => Ok []
  | a :: rest =>
      bind (f a) (fun b => bind (promiseAll f rest) (fun bs => Ok (b :: bs)))
  end.

(** [Array.from({ length: n })]: ToLength clamps a negative length to 0. *)
Definition arrayLength (n : Z) : nat := Z.to_nat n.

End JS.
Import JS.

(** ** HTTP responses *)

Record Response (A : Type) : Type := mkResponse {
  status : Z;
  payload : A
}.
Arguments mkResponse {A} status payload.
Arguments status {A} r.
Arguments payload {A} r.

(** [res.ok]: the status is in the range 200..299. *)
Definition ok {A} (res : Response A) : bool :=
  (200 <=? status res) && (status res <=? 299).

(** ** Data model (google-drive-types.ts, init.ts) *)

(** Modelled from the spec: [google-drive-types.ts] is not among the
    sources.  The fields are the ones the code reads from a listing
    ([id], [name], [modifiedTime], [createdTime]); [modifiedTime] is
    optional, which is why [fetchChangesFiles] guards it with
    [ensureNotFalsy]. *)
Record DriveFileMetadata : Type := mkFile {
  id : string;
  name : string;
  modifiedTime : option string;
  createdTime : option string
}.

(** Checkpoint: [{ modifiedTime, docIdsWithSameModifiedTime }]. *)
Module Checkpoint.
Record t : Type := mk {
  modifiedTime : string;
  docIdsWithSameModifiedTime : list string
}.
End Checkpoint.
Abbreviation GoogleDriveCheckpointType := Checkpoint.t.

(** The cached ids of [init.ts]. *)
Record DriveStructure : Type := mkDriveStructure {
  rootFolderId : string;
  docsFolderId : string;
  signalingFolderId : string;
  transactionFileId : string;
  blockerFileId : string;
  walFileId : string
}.

(** Timestamps are RFC 3339 strings in one fixed format, on which the
    chronological order is the lexicographic one. *)
Definition timeLe (a b : string) : Prop := String.leb a b = true.

(** ** document-handling.ts *)

Module DocumentHandling.

(** The body of a media download, as [res.text()] and [JSON.parse] see
    it: the empty text, a text that parses, or a text that does not. *)
Inductive Body : Type :=
| EmptyText
| JsonText (v : json)
| MalformedText.

(** [text ? JSON.parse(text) : undefined] *)
Definition parseBody (b : Body) : result (option json) :=
  match b with
  | EmptyText => Ok None
  | JsonText v => Ok (Some v)
  | MalformedText => Throw JsonSyntaxError
  end.

(** [[429, 500, 502, 503, 504].includes(res.status)] *)
Definition retryStatus (st : Z) : bool :=
  existsb (Z.eqb st) [429; 500; 502; 503; 504].

(** What one call of [fetchOne] did: how it settled, the backoff delays
    it slept (in ms, oldest first) and the number of requests it sent. *)
Record Download : Type := mkDownload {
  outcome : result (option json);
  slept : list Z;
  requests : nat
}.

Section FetchOne.

(** [fetch fileId attempt] is the response to the request that
    [fetchOne(fileId, attempt)] sends; [jitter fileId attempt] is the value
    of [Math.floor(Math.random() * 200)] drawn in that call. *)
Variable fetch : string -> nat -> Response Body.
Variable jitter : string -> nat -> Z.

(** How [fetchOne] settles on a response it does not retry:
    [if (!res.ok) throw ...; return text ? JSON.parse(text) : undefined]. *)
Definition settleOn (res : Response Body) : result (option json) :=
  if negb (ok res) then Throw (RxFetchError (status res))
  else parseBody (payload res).

Fixpoint fetchOne_rec (fuel : nat) (fileId : string) (attempt : nat) : Download :=
  let res := fetch fileId attempt in
  if retryStatus (status res) && (attempt <? 4)%nat then
    match fuel with
    | S fuel' =>
        let backoffMs := 250 * 2 ^ Z.of_nat attempt + jitter fileId attempt in
        (* await sleep(backoffMs); return fetchOne(fileId, attempt + 1); *)
        let next := fetchOne_rec fuel' fileId (attempt + 1) in
        mkDownload (outcome next) (backoffMs :: slept next) (S (requests next))
    | O => mkDownload (settleOn res) [] 1
    end
  else mkDownload (settleOn res) [] 1.

(** The recursion of the source is on [attempt + 1] and stops at 4, so
    [4 - attempt] unfoldings are all it needs. *)
Definition fetchOne (fileId : string) (attempt : nat) : Download :=
  fetchOne_rec (4 - attempt) fileId attempt.

(** What a download that starts at [attempt] does: the requests it
    sends, the delays it sleeps, how it settles and why it stops. *)
Record Policy (fileId : string) (attempt : nat) (d : Download) : Prop := mkPolicy {
  policy_requests :
      (1 <= requests d)%nat
      /\ (attempt + requests d <= Nat.max 5 (attempt + 1))%nat;
  policy_sleeps : (length (slept d) + 1 = requests d)%nat;
  policy_delay : forall k delay, slept d !! k = Some delay ->
      retryStatus (status (fetch fileId (attempt + k))) = true
      /\ delay = 250 * 2 ^ Z.of_nat (attempt + k) + jitter fileId (attempt + k)%nat;
  policy_outcome :
      outcome d = settleOn (fetch fileId (attempt + requests d - 1));
  policy_stop : (attempt + requests d < 5)%nat ->
      retryStatus (status (fetch fileId (attempt + requests d - 1))) = false
}.

(** *** The worker pool of [fetchDocumentContents] *)

(** A worker is suspended at [await fetchOne(fileIds[i])], has returned,
    or has thrown. *)
Inductive Worker : Type :=
| Awaiting (i : nat)
| Returned
| Rejected (e : error).

Record Pool : Type := mkPool {
  nextIndex : nat;
  ordered : list (option json);      (* [new Array(n)]: a hole is [None] *)
  byId : gmap string json;
  workers : list Worker
}.

Variable fileIds : list string.

(** [const i = nextIndex++; if (i >= fileIds.length) return;] and on to
    the next [await]. *)
Definition claim (p : Pool) : Pool * Worker :=
  let i := nextIndex p in
  let p' := mkPool (S i) (ordered p) (byId p) (workers p) in
  if (length fileIds <=? i)%nat then (p', Returned) else (p', Awaiting i).

Definition setWorker (w : nat) (wk : Worker) (p : Pool) : Pool :=
  mkPool (nextIndex p) (ordered p) (byId p) (<[w := wk]> (workers p)).

(** [Array.from({ length: concurrency }, () => worker())]: each worker
    runs up to its first [await] before the next one is created. *)
Fixpoint spawn (n : nat) (p : Pool) : Pool :=
  match n with
  | O => p
  | S n' =>
      let '(p1, wk) := claim p in
      spawn n' (mkPool (nextIndex p1) (ordered p1) (byId p1) (workers p1 ++ [wk]))
  end.

(** Worker [w] is resumed with the settled [fetchOne]:
    [ordered[i] = ensureNotFalsy(doc); byId[fileId] = doc;] and the loop
    goes round. *)
Definition resume (w : nat) (p : Pool) : Pool :=
  match workers p !! w with
  | Some (Awaiting i) =>
      match fileIds !! i with
      | Some fileId =>
          match bind (outcome (fetchOne fileId 0)) ensureNotFalsy with
          | Throw e => setWorker w (Rejected e) p
          | Ok doc =>
              let p1 := mkPool (nextIndex p) (<[i := Some doc]> (ordered p))
                               (<[fileId := doc]> (byId p)) (workers p) in
              let '(p2, wk) := claim p1 in
              setWorker w wk p2
          end
      | None => p
      end
  | _ => p
  end.

Definition isAwaiting (wk : Worker) : bool :=
  match wk with Awaiting _ => true | _ => false end.

Fixpoint firstRejection (ws : list Worker) : option error :=
  match ws with
  | [] => None
  | Rejected e :: _ => Some e
  | _ :: ws' => firstRejection ws'
  end.

(** The positions of the workers that wait for a download. *)
Fixpoint awaitingFrom (w : nat) (ws : list Worker) : list nat :=
  match ws with
  | [] => []
  | wk :: ws' =>
      if isAwaiting wk then w :: awaitingFrom (S w) ws' else awaitingFrom (S w) ws'
  end.

Definition awaiting (p : Pool) : list nat := awaitingFrom 0 (workers p).

(** [Promise.all] over the workers: rejected as soon as one worker has
    thrown, fulfilled once every worker has returned, pending otherwise. *)
Definition settled (p : Pool) : option (result Pool) :=
  match firstRejection (workers p) with
  | Some e => Some (Throw e)
  | None => if forallb (fun wk => negb (isAwaiting wk)) (workers p)
            then Some (Ok p) else None
  end.

(** The event loop: while the pool is pending, the download of one of
    the waiting workers settles and that worker runs to its next
    [await].  Which one is the schedule's choice: [sched k] picks among
    the waiting workers at step [k]. *)
Fixpoint runPool (fuel : nat) (sched : nat -> nat) (k : nat) (p : Pool)
  : option (result Pool) :=
  match settled p with
  | Some r => Some r
  | None =>
      match fuel with
      | O => None
      | S fuel' =>
          let aw := awaiting p in
          match aw !! (sched k mod length aw)%nat with
          | Some w => runPool fuel' sched (S k) (resume w p)
          | None => None
          end
      end
  end.

(** [fetchDocumentContents(options, fileIds, concurrency)]: every
    download is one step of the loop, so [fileIds.length] steps are all
    it can take.  [None] would be a promise that never settles. *)
Definition fetchDocumentContents (concurrency : Z) (sched : nat -> nat)
  : option (result Pool) :=
  let p0 := mkPool 0 (replicate (length fileIds) None) ∅ [] in
  runPool (length fileIds) sched 0 (spawn (arrayLength concurrency) p0).

(** *** The invariant of the pool *)

(** What the download of a file id delivers to [ordered]. *)
Definition delivers (fileId : string) : result json :=
  bind (outcome (fetchOne fileId 0)) ensureNotFalsy.

Definition filled (p : Pool) (i : nat) : Prop :=
  exists fileId doc,
    fileIds !! i = Some fileId /\ delivers fileId = Ok doc
    /\ ordered p !! i = Some (Some doc).

Record PoolInv (p : Pool) : Prop := mkPoolInv {
  inv_length : length (ordered p) = length fileIds;
  inv_awaiting : forall w i, workers p !! w = Some (Awaiting i) ->
                   (i < length fileIds)%nat /\ (i < nextIndex p)%nat;
  inv_claimed : forall i, (i < nextIndex p)%nat -> (i < length fileIds)%nat ->
                  (exists w, workers p !! w = Some (Awaiting i)) \/ filled p i;
  inv_returned : forall w, workers p !! w = Some Returned ->
                   (length fileIds < nextIndex p)%nat;
  inv_no_reject : forall w e, workers p !! w <> Some (Rejected e)
}.

(** The downloads that are still to settle. *)
Definition remaining (p : Pool) : nat :=
  (length fileIds - Nat.min (nextIndex p) (length fileIds) + length (awaiting p))%nat.

End FetchOne.

End DocumentHandling.

(** ** downstream.ts *)

Module Downstream.

Definition OVERFETCH_AMOUNT : Z := 6.

(** The parameters of the [files.list] request the function sends. *)
Record ListQuery : Type := mkListQuery {
  inParents : string;
  trashed : bool;
  modifiedTimeGe : option string;
  pageSize : Z;
  orderBy : string
}.

Definition changesQuery (init : DriveStructure)
    (checkpoint : option GoogleDriveCheckpointType) (batchSize : Z) : ListQuery :=
  {| inParents := docsFolderId init;
     trashed := false;
     modifiedTimeGe :=
       match checkpoint with
       | Some c => Some (Checkpoint.modifiedTime c)
       | None => None
       end;
     pageSize := batchSize + OVERFETCH_AMOUNT;
     orderBy := "modifiedTime asc,name asc" |}.

(** The closure of the first [filter]: keep a file unless it sits at
    the checkpoint's time and its name is in the checkpoint's list. *)
Definition notYetDelivered (checkpoint : GoogleDriveCheckpointType)
    (file : DriveFileMetadata) : bool :=
  negb (strictEqStr (modifiedTime file) (Checkpoint.modifiedTime checkpoint)
        && includes (Checkpoint.docIdsWithSameModifiedTime checkpoint) (name file)).

Definition firstModifiedTime (files : list DriveFileMetadata) : option string :=
  match files with
  | first :: _ => modifiedTime first
  | [] => None
  end.

(** [fetch q k] is the response to a request with the parameters [q]
    that comes after [k] earlier requests of the same call;
    [fetchChangesFiles] sends one request. *)
Definition fetchChangesFiles
    (fetch : ListQuery -> nat -> Response (list DriveFileMetadata))
    (init : DriveStructure)
    (checkpoint : option GoogleDriveCheckpointType)
    (batchSize : Z)
  : result (option GoogleDriveCheckpointType * list DriveFileMetadata) :=
  let res := fetch (changesQuery init checkpoint batchSize) 0%nat in
  if negb (ok res) then Throw (RxFetchError (status res)) else
  let files := payload res in
  let files :=
    match checkpoint with
    | Some c => List.filter (notYetDelivered c) files
    | None => files
    end in
  let files := slice0 files batchSize in
  match lastOfArray files with
  | None => Ok (checkpoint, files)
  | Some last =>
      bind (ensureNotFalsyStr (modifiedTime last)) (fun lastModified =>
        let docIds :=
          map name
            (List.filter (fun file => strictEqStr (modifiedTime file) lastModified) files) in
        let docIds :=
          match checkpoint with
          | Some c =>
              if strictEqStr (firstModifiedTime files) (Checkpoint.modifiedTime c)
              then docIds ++ Checkpoint.docIdsWithSameModifiedTime c
              else docIds
          | None => docIds
          end in
        Ok (Some (Checkpoint.mk lastModified docIds), files))
  end.

(** [fetchChanges]: list, then download the contents of the kept files
    with the default concurrency of [fetchDocumentContents]. *)
Definition fetchChanges
    (fetch : ListQuery -> nat -> Response (list DriveFileMetadata))
    (download : string -> nat -> Response DocumentHandling.Body)
    (jitter : string -> nat -> Z)
    (sched : nat -> nat)
    (init : DriveStructure)
    (checkpoint : option GoogleDriveCheckpointType)
    (batchSize : Z)
  : option (result (option GoogleDriveCheckpointType * list (option json))) :=
  match fetchChangesFiles fetch init checkpoint batchSize with
  | Throw e => Some (Throw e)
  | Ok (newCheckpoint, files) =>
      match DocumentHandling.fetchDocumentContents download jitter
              (map id files) 5 sched with
      | None => None
      | Some (Throw e) => Some (Throw e)
      | Some (Ok contents) =>
          Some (Ok (newCheckpoint, DocumentHandling.ordered contents))
      end
  end.

(** *** The rule of the checkpoint in the words of the specification *)

(** A file is already delivered when it sits at the checkpoint's
    [modifiedTime] and its name is in the checkpoint's list. *)
Definition delivered (checkpoint : option GoogleDriveCheckpointType)
    (file : DriveFileMetadata) : Prop :=
  match checkpoint with
  | Some c =>
      modifiedTime file = Some (Checkpoint.modifiedTime c)
      /\ name file ∈ Checkpoint.docIdsWithSameModifiedTime c
  | None => False
  end.

#[global] Instance delivered_dec checkpoint file : Decision (delivered checkpoint file).
Proof. destruct checkpoint; simpl; apply _. Defined.

(** The names carried over from the old checkpoint: its whole list when
    the first kept file sits at the old checkpoint's [modifiedTime]. *)
Definition carriedOver (checkpoint : option GoogleDriveCheckpointType)
    (first : DriveFileMetadata) : list string :=
  match checkpoint with
  | Some c =>
      if decide (modifiedTime first = Some (Checkpoint.modifiedTime c))
      then Checkpoint.docIdsWithSameModifiedTime c
      else []
  | None => []
  end.

(** The files a call keeps: the listing without the delivered files,
    cut to [batchSize]. *)
Definition keptFiles (checkpoint : option GoogleDriveCheckpointType)
    (listing : list DriveFileMetadata) (batchSize : Z) : list DriveFileMetadata :=
  take (Z.to_nat batchSize) (filter (fun file => ~ delivered checkpoint file) listing).

(** The checkpoint built from a non-empty list of kept files whose last
    file has the time [lastModified]. *)
Definition nextCheckpoint (checkpoint : option GoogleDriveCheckpointType)
    (kept : list DriveFileMetadata) (first : DriveFileMetadata)
    (lastModified : string) : GoogleDriveCheckpointType :=
  Checkpoint.mk lastModified
    (map name (filter (fun file => modifiedTime file = Some lastModified) kept)
     ++ carriedOver checkpoint first).

End Downstream.


(** ** signaling.ts *)

Module Signaling.

Definition BACKOFF_STEPS : list Z :=
  [50; 50; 100; 100; 200; 400; 600; 1000; 2000; 4000; 8000;
   15000; 30000; 60000; 120000].
Definition MAX_BACKOFF_STEP_ID : nat := (length BACKOFF_STEPS - 1)%nat.

Inductive SIGNAL : Type := RESYNC | NEW_PEER.

(** A [simple-peer] instance, as far as the plugin drives it. *)
Record Peer : Type := mkPeer {
  initiator : bool;
  signalled : list json;     (* arguments of [peer.signal], oldest first *)
  sent : list SIGNAL;        (* arguments of [peer.send], oldest first *)
  destroyed : bool
}.

Record Message : Type := mkMessage {
  senderId : string;
  data : json
}.

(** *** Event targets of the browser *)

(** A registered listener: the event type and the function, which is the
    [resetReaderFn] of the state with that session id. *)
Definition Listener : Type := (string * string)%type.

Record Browser : Type := mkBrowser {
  windowListeners : list Listener;
  documentListeners : list Listener
}.

Definition sameListener (a b : Listener) : bool :=
  String.eqb (fst a) (fst b) && String.eqb (snd a) (snd b).

Definition addEventListener (l : Listener) (ls : list Listener) : list Listener :=
  if existsb (sameListener l) ls then ls else ls ++ [l].

Definition removeEventListener (l : Listener) (ls : list Listener) : list Listener :=
  List.filter (fun l' => negb (sameListener l l')) ls.

(** *** readMessages *)

(** [messageIdByFilename] *)
Definition messageIdByFilename (name : string) : result string :=
  let fileName := default EmptyString (head (split "."%char name)) in
  ensureNotFalsyStr (lastOfArray (split "_"%char fileName)).

(** What a poll finds on the network: the response to the listing of
    [signaling/] and, for each file id, how [readJsonFileContent] settles
    (the [content] of the file, or the error it throws). *)
Record Network : Type := mkNetwork {
  listResponse : Response (option (list DriveFileMetadata));
  readJsonFileContent : string -> result json
}.

(** The closure of [folderData.filter]; it throws when the file name has
    no message id. *)
Fixpoint unseen (processedMessageIds : gset string)
    (folderData : list DriveFileMetadata) : result (list DriveFileMetadata) :=
  match folderData with
  | [] => Ok []
  | file :: rest =>
      bind (messageIdByFilename (name file)) (fun messageId =>
        bind (unseen processedMessageIds rest) (fun useFiles =>
          if bool_decide (messageId ∈ processedMessageIds)
          then Ok useFiles else Ok (file :: useFiles)))
  end.

(** The closure of [useFiles.forEach]. *)
Fixpoint markProcessed (useFiles : list DriveFileMetadata)
    (processedMessageIds : gset string) : gset string * option error :=
  match useFiles with
  | [] => (processedMessageIds, None)
  | file :: rest =>
      match messageIdByFilename (name file) with
      | Throw e => (processedMessageIds, Some e)
      | Ok messageId => markProcessed rest ({[messageId]} ∪ processedMessageIds)
      end
  end.

(** The message ids of a list of files. *)
Definition messageIdsOf (files : list DriveFileMetadata) : gset string :=
  list_to_set
    (omap (fun file => match messageIdByFilename (name file) with
                       | Ok messageId => Some messageId
                       | Throw _ => None
                       end) files).

(** [readMessages]: the settled promise and the set [processedMessageIds]
    as the call leaves it (the set is mutated in place). *)
Definition readMessages (net : Network) (processedMessageIds : gset string)
  : result (list Message) * gset string :=
  let res := listResponse net in
  if negb (ok res) then (Throw (RxFetchError (status res)), processedMessageIds) else
  let folderData := rev (default [] (payload res)) in
  match unseen processedMessageIds folderData with
  | Throw e => (Throw e, processedMessageIds)
  | Ok useFiles =>
      match promiseAll
              (fun file =>
                 bind (readJsonFileContent net (id file)) (fun content =>
                   Ok (mkMessage
                         (default EmptyString (head (split "_"%char (name file))))
                         content)))
              useFiles with
      | Throw e => (Throw e, processedMessageIds)
      | Ok filesContent =>
          match markProcessed useFiles processedMessageIds with
          | (processed', Some e) => (Throw e, processed')
          | (processed', None) => (Ok filesContent, processed')
          end
      end
  end.

(** *** cleanupOldSignalingMessages *)

Definition DEFAULT_MAX_AGE_MS : Z := 24 * 60 * 60 * 1000.

(** The function starts with [return 2;]: the listing of the files
    older than the cutoff and the deletes that follow it in the source
    are never reached.  [folder] is the content of [signaling/]; the pair
    is the settled promise and the folder as the call leaves it. *)
Definition cleanupOldSignalingMessages (folder : list DriveFileMetadata)
    (signalingFolderId : string) (maxAgeMs : Z)
  : result Z * list DriveFileMetadata :=
  (Ok 2, folder).

(** *** class SignalingState *)

Record SignalingState : Type := mkState {
  sessionId : string;
  processedMessageIds : gset string;
  resyncEmitted : nat;                 (* calls of [_resync$.next()] *)
  resyncCompleted : bool;              (* [_resync$.complete()] *)
  peerBySenderId : gmap string Peer;
  backoffStepId : nat;
  closed : bool;
  uploaded : list (string * json)      (* files [sendMessage] inserted *)
}.

Definition resyncNext (s : SignalingState) : SignalingState :=
  mkState (sessionId s) (processedMessageIds s)
    (if resyncCompleted s then resyncEmitted s else S (resyncEmitted s))
    (resyncCompleted s) (peerBySenderId s) (backoffStepId s) (closed s) (uploaded s).

Definition setPeers (ps : gmap string Peer) (s : SignalingState) : SignalingState :=
  mkState (sessionId s) (processedMessageIds s) (resyncEmitted s)
    (resyncCompleted s) ps (backoffStepId s) (closed s) (uploaded s).

Definition setProcessed (ids : gset string) (s : SignalingState) : SignalingState :=
  mkState (sessionId s) ids (resyncEmitted s)
    (resyncCompleted s) (peerBySenderId s) (backoffStepId s) (closed s) (uploaded s).

Definition setBackoffStepId (n : nat) (s : SignalingState) : SignalingState :=
  mkState (sessionId s) (processedMessageIds s) (resyncEmitted s)
    (resyncCompleted s) (peerBySenderId s) n (closed s) (uploaded s).

(** [sendMessage(data)]; [messageId] is the [randomToken(12)] it draws
    and [now] the clock it reads. *)
Definition sendMessage (messageId now : string) (data : json)
    (s : SignalingState) : SignalingState :=
  let fileName :=
    (sessionId s ++ "_" ++ now ++ "_" ++ messageId ++ ".json")%string in
  mkState (sessionId s) ({[messageId]} ∪ processedMessageIds s) (resyncEmitted s)
    (resyncCompleted s) (peerBySenderId s) (backoffStepId s) (closed s)
    (uploaded s ++ [(fileName, data)]).

Definition peerSend (message : SIGNAL) (peer : Peer) : Peer :=
  mkPeer (initiator peer) (signalled peer) (sent peer ++ [message]) (destroyed peer).

Definition peerSignal (payload : json) (peer : Peer) : Peer :=
  mkPeer (initiator peer) (signalled peer ++ [payload]) (sent peer) (destroyed peer).

Definition peerDestroy (peer : Peer) : Peer :=
  mkPeer (initiator peer) (signalled peer) (sent peer) true.

Definition pingPeers (message : SIGNAL) (s : SignalingState) : SignalingState :=
  setPeers (peerSend message <$> peerBySenderId s) s.

(** The body of [messages.forEach]: the state after the message and the
    error when the body threw. *)
Definition onMessage (message : Message) (s : SignalingState)
  : SignalingState * option error :=
  if String.eqb (senderId message) (sessionId s) then (s, None) else
  let s1 :=
    match peerBySenderId s !! senderId message with
    | Some _ => s
    | None =>
        (* getFromMapOrCreate: the creator runs, then the map is set *)
        let peer := mkPeer (String.ltb (sessionId s) (senderId message)) [] [] false in
        let s' := pingPeers NEW_PEER s in
        (* promiseWait().then(() => this._resync$.next()) *)
        let s' := resyncNext s' in
        setPeers (<[senderId message := peer]> (peerBySenderId s')) s'
    end in
  match getField "i" (data message) with
  | Throw e => (s1, Some e)
  | Ok i =>
      if negb (match i with Some v => truthy v | None => false end)
      then (setPeers (alter (peerSignal (data message)) (senderId message)
                        (peerBySenderId s1)) s1, None)
      else (s1, None)
  end.

Fixpoint forEachMessage (messages : list Message) (s : SignalingState)
  : SignalingState * option error :=
  match messages with
  | [] => (s, None)
  | message :: rest =>
      match onMessage message s with
      | (s', Some e) => (s', Some e)
      | (s', None) => forEachMessage rest s'
      end
  end.

(** [_processNewMessages], with the network state it polls. *)
Definition _processNewMessages (net : Network) (s : SignalingState)
  : SignalingState * option error :=
  match readMessages net (processedMessageIds s) with
  | (Throw e, processed') => (setProcessed processed' s, Some e)
  | (Ok messages, processed') =>
      let s := setProcessed processed' s in
      let s := if (0 <? length messages)%nat then resyncNext s else s in
      forEachMessage messages s
  end.

(** [processNewMessages]: the queued call, its rejection swallowed. *)
Definition processNewMessages (net : Network) (s : SignalingState) : SignalingState :=
  fst (_processNewMessages net s).

(** [resetReadLoop]: called by the [online] and [visibilitychange]
    listeners and when a peer sends [NEW_PEER]. *)
Definition resetReadLoop (net : Network) (s : SignalingState) : SignalingState :=
  setBackoffStepId 0 (processNewMessages net s).

(** One round of the [while (!this.closed)] loop of the constructor:
    the delay it waits and the state at the end of the round. *)
Definition loopRound (net : Network) (s : SignalingState)
  : option Z * SignalingState :=
  let time := BACKOFF_STEPS !! backoffStepId s in
  let s := processNewMessages net s in
  (* await skippable.promise *)
  let next := (backoffStepId s + 1)%nat in
  let next := if (MAX_BACKOFF_STEP_ID <? next)%nat then MAX_BACKOFF_STEP_ID else next in
  (time, setBackoffStepId next s).

(** The constructor, up to the start of the loop.  [env] is the browser
    when [typeof window !== 'undefined']. *)
Definition construct (env : option Browser) (sessionId messageId now : string)
  : SignalingState * option Browser :=
  let s := mkState sessionId ∅ 0 false ∅ 0 false [] in
  (* cleanupOldSignalingMessages(...).catch(() => { }) *)
  let s := sendMessage messageId now (JObj [("i", JStr "exist")]) s in
  let env :=
    match env with
    | Some b =>
        Some (mkBrowser
                (addEventListener ("online", sessionId) (windowListeners b))
                (addEventListener ("visibilitychange", sessionId) (documentListeners b)))
    | None => None
    end in
  (s, env).

(** [close()] *)
Definition close (env : option Browser) (s : SignalingState)
  : SignalingState * option Browser :=
  let env :=
    match env with
    | Some b =>
        Some (mkBrowser
                (removeEventListener ("visibilitychange", sessionId s)
                   (removeEventListener ("online", sessionId s) (windowListeners b)))
                (documentListeners b))
    | None => None
    end in
  (mkState (sessionId s) (processedMessageIds s) (resyncEmitted s) true
     (peerDestroy <$> peerBySenderId s) (backoffStepId s) true (uploaded s),
   env).

(** What happens to a state after its construction: a round of the
    loop, or a call of [resetReadLoop]. *)
Inductive Event : Type :=
| Round (net : Network)
| Reset (net : Network).

(** The delays the loop waited (oldest first) and the final state. *)
Fixpoint run (events : list Event) (s : SignalingState)
  : list (option Z) * SignalingState :=
  match events with
  | [] => ([], s)
  | Round net :: rest =>
      if closed s then run rest s else     (* the loop has ended *)
      let '(time, s') := loopRound net s in
      let '(times, s'') := run rest s' in
      (time :: times, s'')
  | Reset net :: rest => run rest (resetReadLoop net s)
  end.

End Signaling.

(** ** index.ts *)

Module Index.

(** The part of [SyncOptionsGoogleDrive] that [replicateGoogleDrive]
    branches on: an absent field is [None]. *)
Record SyncOptionsGoogleDrive : Type := mkOptions {
  live : option bool;
  pull : option Z;               (* the pull options, here their batch size *)
  push : option Z;
  waitForLeadership : option bool
}.

(** The functions that can sit in the [start] and [cancel] fields of the
    replication state: the inherited one ([startBefore], [cancelBefore])
    or the closure [replicateGoogleDrive] assigns. *)
Inductive StartFn : Type := StartBefore | StartWithSignaling.
Inductive CancelFn : Type := CancelBefore | CancelWithSignaling (sub : nat).

(** Calls into the host replication engine and object lifecycle steps,
    in the order they happen. *)
Inductive Effect : Type :=
| NewSignalingState
| Subscribe (sub : nat)
| CallStartBefore
| Unsubscribe (sub : nat)
| CloseSignalingState
| CallCancelBefore
| ReSync.

Record RxGoogleDriveReplicationState : Type := mkReplication {
  signalingState : option Signaling.SignalingState;
  start : StartFn;
  cancel : CancelFn;
  subscriptions : list nat;      (* live subscriptions to [resync$] *)
  created : nat;                 (* subscriptions made so far *)
  log : list Effect
}.

(** [options.live = typeof options.live === 'undefined' ? true : options.live] *)
Definition liveOrDefault (options : SyncOptionsGoogleDrive) : bool :=
  match live options with
  | Some b => b
  | None => true
  end.

Definition replicateGoogleDrive (options : SyncOptionsGoogleDrive)
  : RxGoogleDriveReplicationState :=
  let replicationState := mkReplication None StartBefore CancelBefore [] 0 [] in
  if liveOrDefault options && bool_decide (is_Some (pull options))
  then mkReplication None StartWithSignaling CancelBefore [] 0 []
  else replicationState.

(** [replicationState.start()]; the three strings are the random tokens
    and the clock the new [SignalingState] draws. *)
Definition callStart (env : option Signaling.Browser)
    (sessionId messageId now : string) (r : RxGoogleDriveReplicationState)
  : RxGoogleDriveReplicationState * option Signaling.Browser :=
  match start r with
  | StartBefore =>
      (mkReplication (signalingState r) (start r) (cancel r) (subscriptions r)
         (created r) (log r ++ [CallStartBefore]), env)
  | StartWithSignaling =>
      let '(s, env') := Signaling.construct env sessionId messageId now in
      let sub := created r in
      (mkReplication (Some s) (start r) (CancelWithSignaling sub)
         (subscriptions r ++ [sub]) (S sub)
         (log r ++ [NewSignalingState; Subscribe sub; CallStartBefore]), env')
  end.

(** [replicationState.cancel()] *)
Definition callCancel (env : option Signaling.Browser)
    (r : RxGoogleDriveReplicationState)
  : RxGoogleDriveReplicationState * option Signaling.Browser :=
  match cancel r with
  | CancelBefore =>
      (mkReplication (signalingState r) (start r) (cancel r) (subscriptions r)
         (created r) (log r ++ [CallCancelBefore]), env)
  | CancelWithSignaling sub =>
      let subs := List.filter (fun x => negb (x =? sub)%nat) (subscriptions r) in
      match signalingState r with
      | Some s =>
          let '(s', env') := Signaling.close env s in
          (mkReplication (Some s') (start r) (cancel r) subs (created r)
             (log r ++ [Unsubscribe sub; CloseSignalingState; CallCancelBefore]), env')
      | None =>
          (mkReplication None (start r) (cancel r) subs (created r)
             (log r ++ [Unsubscribe sub; CallCancelBefore]), env)
      end
  end.

(** An emission of [signalingState.resync$]: every live subscriber calls
    [replicationState.reSync()]. *)
Definition onResync (r : RxGoogleDriveReplicationState) : RxGoogleDriveReplicationState :=
  mkReplication (signalingState r) (start r) (cancel r) (subscriptions r)
    (created r) (log r ++ map (fun _ => ReSync) (subscriptions r)).

End Index.

(** ** upstream.ts *)

Module Upstream.

Section Batch.

(** The host's document type, its primary key and the comparison of the
    stored state with a row's [assumedMasterState] belong to the host
    database; [differs stored assumed] is that comparison, [stored]
    being [None] when no file exists. *)
Variable DocType : Type.
Variable primary : DocType -> string.
Variable differs : option DocType -> DocType -> bool.

Record RxReplicationWriteToMasterRow : Type := mkRow {
  newDocumentState : DocType;
  assumedMasterState : option DocType
}.

(** Modelled from the spec: [upstream.ts] ([handleUpstreamBatch],
    [writeToWal], [processWalFile]) is not among the sources.  [docs]
    is the folder [docs/], one file per primary key; [wal] is the WAL
    file, [None] when it has no [rows].  A row with an
    [assumedMasterState] conflicts when the stored state differs from
    it.  For a row without one the spec's scenario 5 and the test
    'should process a full batch with conflict handling' give the
    answer: rows for doc-0..doc-2 without [assumedMasterState] come back
    as 3 conflicts once those files exist, and the 4 rows for new
    documents do not. *)
Definition isConflict (docs : gmap string DocType)
    (row : RxReplicationWriteToMasterRow) : bool :=
  let stored := docs !! primary (newDocumentState row) in
  match assumedMasterState row with
  | Some assumed => differs stored assumed
  | None => bool_decide (is_Some stored)
  end.

(** Modelled from the spec: [writeToWal] fails on a WAL that still has
    rows (error GDR19 in the test 'should throw on conflict'). *)
Definition writeToWal (wal : option (list RxReplicationWriteToMasterRow))
    (rows : list RxReplicationWriteToMasterRow)
  : result (option (list RxReplicationWriteToMasterRow)) :=
  match wal with
  | Some _ => Throw (RxError "GDR19")
  | None => Ok (Some rows)
  end.

(** Modelled from the spec: [handleUpstreamBatch] collects the
    conflicting rows, stages the others in the WAL and returns the
    conflicts. *)
Definition handleUpstreamBatch (docs : gmap string DocType)
    (wal : option (list RxReplicationWriteToMasterRow))
    (rows : list RxReplicationWriteToMasterRow)
  : result (list RxReplicationWriteToMasterRow
            * option (list RxReplicationWriteToMasterRow)) :=
  let conflicts := List.filter (isConflict docs) rows in
  let nonConflicts := List.filter (fun row => negb (isConflict docs row)) rows in
  bind (writeToWal wal nonConflicts) (fun wal' => Ok (conflicts, wal')).

(** Modelled from the spec: [processWalFile] applies the staged rows to
    [docs/] (update of an existing file, insert of a missing one, both
    leaving the row's new state under its primary key) and blanks the
    WAL. *)
Definition processWalFile (docs : gmap string DocType)
    (wal : option (list RxReplicationWriteToMasterRow))
  : gmap string DocType * option (list RxReplicationWriteToMasterRow) :=
  match wal with
  | None => (docs, None)
  | Some rows =>
      (fold_left
         (fun d row => <[primary (newDocumentState row) := newDocumentState row]> d)
         rows docs,
       None)
  end.

End Batch.

End Upstream.

(** ** Listings in the order of the query *)

Module ListingOrder.

(** [f] is not after [g] in [modifiedTime]. *)
Definition fileTimeLe (f g : DriveFileMetadata) : Prop :=
  exists a b, modifiedTime f = Some a /\ modifiedTime g = Some b /\ timeLe a b.

(** A listing in the order [orderBy: "modifiedTime asc,name asc"] asks
    for, as far as the times go. *)
Definition sortedByTime (files : list DriveFileMetadata) : Prop :=
  StronglySorted fileTimeLe files.

(** A listing that answers the query [q]: every file carries a
    [modifiedTime], and none before the term
    [modifiedTime >= '...'] of [q] when [q] has one. *)
Definition answers (q : Downstream.ListQuery) (files : list DriveFileMetadata) : Prop :=
  forall file, file ∈ files ->
    exists t, modifiedTime file = Some t /\ t <> EmptyString
      /\ forall since, Downstream.modifiedTimeGe q = Some since -> timeLe since t.

(** A listing that honours [modifiedTime >= checkpoint.modifiedTime]. *)
Definition honours (checkpoint : GoogleDriveCheckpointType)
    (files : list DriveFileMetadata) : Prop :=
  forall file, file ∈ files ->
    exists t, modifiedTime file = Some t /\ timeLe (Checkpoint.modifiedTime checkpoint) t.

End ListingOrder.

(** ** The map [byId] of the worker pool *)

Module PoolById.
Import DocumentHandling.

(** What the pool keeps about [byId]: an entry is the content its file
    id delivers, and a filled slot of [ordered] has its entry. *)
Definition byIdInv (fetch : string -> nat -> Response Body)
    (jitter : string -> nat -> Z) (fileIds : list string) (p : Pool) : Prop :=
  (forall fileId doc, byId p !! fileId = Some doc ->
     fileId ∈ fileIds /\ delivers fetch jitter fileId = Ok doc)
  /\ (forall i fileId doc, fileIds !! i = Some fileId ->
        ordered p !! i = Some (Some doc) -> is_Some (byId p !! fileId)).

End PoolById.

(** ** Plain objects used as maps *)

Module PlainObject.

(** The properties of [Object.prototype], which an object literal
    inherits; the callers build [fileIdByDocId] as [{}] and
    [updateDocumentFiles] builds [results] as [{}]. *)
Definition objectPrototype : list string :=
  ["constructor"; "__defineGetter__"; "__defineSetter__"; "hasOwnProperty";
   "__lookupGetter__"; "__lookupSetter__"; "isPrototypeOf";
   "propertyIsEnumerable"; "toString"; "valueOf"; "__proto__"; "toLocaleString"].

(** The accessor among them: an assignment to it sets no own property. *)
Definition protoKey : string := "__proto__".

(** What [o[key]] gives for an object [o] with string values: an own
    value, or the inherited member of that name (a function, or
    [Object.prototype] itself for [__proto__]). *)
Inductive Value : Type :=
| Own (v : string)
| Inherited (key : string).

(** [o[key]]; [None] is [undefined]. *)
Definition get (o : gmap string string) (key : string) : option Value :=
  match o !! key with
  | Some v => Some (Own v)
  | None => if bool_decide (key ∈ objectPrototype) then Some (Inherited key) else None
  end.

Definition truthy (v : Value) : bool :=
  match v with
  | Own v => negb (String.eqb v EmptyString)
  | Inherited _ => true
  end.

Definition ensureNotFalsy (v : option Value) : result Value :=
  match v with
  | Some v => if truthy v then Ok v else Throw NotFalsyError
  | None => Throw NotFalsyError
  end.

(** [o[key] = v] on an object literal, as far as its own properties go. *)
Definition set {A} (key : string) (v : A) (o : gmap string A) : gmap string A :=
  if String.eqb key protoKey then o else <[key := v]> o.

End PlainObject.

(** ** document-handling.ts: updateDocumentFiles *)

Module DocumentUpdate.

Section UpdateDocumentFiles.

(** The document type of the host and [doc[primaryPath]]. *)
Variable DocType : Type.
Variable primary : DocType -> string.

(** [patch fileId doc] is the response to the PATCH that uploads [doc]
    to the URL made from [fileId], the value [fileIdByDocId[docId]]
    gave; its payload is how [res.json()] settles. *)
Variable patch : PlainObject.Value -> DocType -> Response (result json).

(** The own properties of the object [fileIdByDocId]. *)
Variable fileIdByDocId : gmap string string.

(** A worker is suspended at [await fetch(url, ...)] for a document, has
    returned, or has thrown. *)
Inductive Worker : Type :=
| Awaiting (doc : DocType) (fileId : PlainObject.Value)
| Returned
| Rejected (e : error).

Record State : Type := mkState {
  queue : list DocType;                 (* [docs.slice(0)], shifted by the workers *)
  results : gmap string json;           (* the own properties of [results] *)
  sent : list (PlainObject.Value * DocType); (* the PATCH requests, oldest first *)
  workers : list Worker
}.

(** [while (queue.length) { const doc = queue.shift()!; ... fetch(...)]
    up to the [await]; [ensureNotFalsy(fileIdByDocId[docId])] throws
    before any request is made. *)
Definition next (s : State) : State * Worker :=
  match queue s with
  | [] => (s, Returned)
  | doc :: rest =>
      match PlainObject.ensureNotFalsy
              (PlainObject.get fileIdByDocId (primary doc)) with
      | Throw e => (mkState rest (results s) (sent s) (workers s), Rejected e)
      | Ok fileId =>
          (mkState rest (results s) (sent s ++ [(fileId, doc)]) (workers s),
           Awaiting doc fileId)
      end
  end.

Definition setWorker (w : nat) (wk : Worker) (s : State) : State :=
  mkState (queue s) (results s) (sent s) (<[w := wk]> (workers s)).

(** [Array.from({ length: concurrency }, () => worker())] *)
Fixpoint spawn (n : nat) (s : State) : State :=
  match n with
  | O => s
  | S n' =>
      let '(s1, wk) := next s in
      spawn n' (mkState (queue s1) (results s1) (sent s1) (workers s1 ++ [wk]))
  end.

(** Worker [w] is resumed with the response:
    [if (!res.ok) throw ...; results[docId] = await res.json();] and the
    loop goes round. *)
Definition resume (w : nat) (s : State) : State :=
  match workers s !! w with
  | Some (Awaiting doc fileId) =>
      let res := patch fileId doc in
      if negb (ok res) then setWorker w (Rejected (RxFetchError (status res))) s
      else match payload res with
           | Throw e => setWorker w (Rejected e) s
           | Ok v =>
               let s1 := mkState (queue s)
                                 (PlainObject.set (primary doc) v (results s))
                                 (sent s) (workers s) in
               let '(s2, wk) := next s1 in
               setWorker w wk s2
           end
  | _ => s
  end.

Definition isAwaiting (wk : Worker) : bool :=
  match wk with Awaiting _ _ => true | _ => false end.

Fixpoint firstRejection (ws : list Worker) : option error :=
  match ws with
  | [] => None
  | Rejected e :: _ => Some e
  | _ :: ws' => firstRejection ws'
  end.

Fixpoint awaitingFrom (w : nat) (ws : list Worker) : list nat :=
  match ws with
  | [] => []
  | wk :: ws' =>
      if isAwaiting wk then w :: awaitingFrom (S w) ws' else awaitingFrom (S w) ws'
  end.

(** [Promise.all] over the workers: [Some (Some e)] is the rejection,
    [Some None] the fulfilment, [None] a pending promise. *)
Definition settled (s : State) : option (option error) :=
  match firstRejection (workers s) with
  | Some e => Some (Some e)
  | None => if forallb (fun wk => negb (isAwaiting wk)) (workers s)
            then Some None else None
  end.

(** The event loop, as for [fetchDocumentContents]: the schedule picks
    the waiting worker whose response arrives next.  The result is how
    the promise settled and the state it left. *)
Fixpoint run (fuel : nat) (sched : nat -> nat) (k : nat) (s : State)
  : option (option error * State) :=
  match settled s with
  | Some out => Some (out, s)
  | None =>
      match fuel with
      | O => None
      | S fuel' =>
          let aw := awaitingFrom 0 (workers s) in
          match aw !! (sched k mod length aw)%nat with
          | Some w => run fuel' sched (S k) (resume w s)
          | None => None
          end
      end
  end.

Definition updateDocumentFiles (docs : list DocType) (concurrency : Z)
    (sched : nat -> nat) : option (option error * State) :=
  run (length docs) sched 0
    (spawn (arrayLength concurrency) (mkState docs ∅ [] [])).

(** *** What the workers keep *)

(** A document the update can succeed on: [fileIdByDocId[docId]] is
    truthy and the PATCH is answered with a 2xx status and a body that
    parses. *)
Definition updatable (doc : DocType) : Prop :=
  exists fileId v,
    PlainObject.get fileIdByDocId (primary doc) = Some fileId
    /\ PlainObject.truthy fileId = true
    /\ ok (patch fileId doc) = true /\ payload (patch fileId doc) = Ok v.

(** The answer for [doc] is an own property of [results]. *)
Definition stored (s : State) (doc : DocType) : Prop :=
  primary doc <> PlainObject.protoKey -> is_Some (results s !! primary doc).

Record Inv (docs : list DocType) (s : State) : Prop := mkInv {
  inv_taken : map snd (sent s) ++ queue s = docs;
  inv_sent : forall fileId doc, (fileId, doc) ∈ sent s ->
      PlainObject.get fileIdByDocId (primary doc) = Some fileId
      /\ PlainObject.truthy fileId = true
      /\ ((exists w, workers s !! w = Some (Awaiting doc fileId))
          \/ (updatable doc /\ stored s doc));
  inv_waiting : forall w doc fileId, workers s !! w = Some (Awaiting doc fileId) ->
      (fileId, doc) ∈ sent s;
  inv_returned : forall w, workers s !! w = Some Returned -> queue s = [];
  inv_no_reject : forall w e, workers s !! w <> Some (Rejected e)
}.

(** The requests that are still to be answered or made. *)
Definition remaining (s : State) : nat :=
  (length (queue s) + length (awaitingFrom 0 (workers s)))%nat.

(** A document of [docs] the update cannot succeed on. *)
Definition culprit (docs : list DocType) : Prop :=
  exists doc, doc ∈ docs /\ ~ updatable doc.

(** What holds of the requests whatever happens: they are for documents
    taken from the front of [docs], in that order, each to the truthy
    value [fileIdByDocId] gives for the document. *)
Definition SentInOrder (docs : list DocType) (s : State) : Prop :=
  (exists taken, taken ++ queue s = docs /\ map snd (sent s) `sublist_of` taken)
  /\ (forall fileId doc, (fileId, doc) ∈ sent s ->
        PlainObject.get fileIdByDocId (primary doc) = Some fileId
        /\ PlainObject.truthy fileId = true).

End UpdateDocumentFiles.

End DocumentUpdate.

(** ** Characters of file names *)

Module FileNames.

(** Whether the character [c] occurs in [s]. *)
Fixpoint hasChar (c : Ascii.ascii) (s : string) : bool :=
  match s with
  | EmptyString => false
  | String c' rest => Ascii.eqb c' c || hasChar c rest
  end.

(** A token of a signal file name
    [<sessionId>_<timestamp>_<messageId>.json] that has no ['_'] and no
    ['.'], as the tokens of [randomToken] and a run of digits. *)
Definition plainToken (s : string) : Prop :=
  hasChar "_" s = false /\ hasChar "." s = false.

End FileNames.

(** ** The files a poll reads *)

Module Polls.
Import Signaling.

(** A file whose message id is not among the processed ones. *)
Definition isUnseen (processedMessageIds : gset string)
    (file : DriveFileMetadata) : bool :=
  match messageIdByFilename (name file) with
  | Ok messageId => bool_decide (messageId ∉ processedMessageIds)
  | Throw _ => false
  end.

(** The unseen files of a listing that came newest first, oldest
    first. *)
Definition unseenFiles (processedMessageIds : gset string)
    (listing : list DriveFileMetadata) : list DriveFileMetadata :=
  List.filter (isUnseen processedMessageIds) (rev listing).

End Polls.

(** ** The poll loop between its awaits *)

Module PollLoop.
Import Signaling.

(** Where the loop of the constructor stands. *)
Inductive Phase : Type :=
| AtTop                                 (* before [while (!this.closed)] *)
| Polling (time : option Z)             (* in [await this.processNewMessages()] *)
| Waiting (time : option Z) (cut : bool) (* in [await skippable.promise] *)
| Ended.

(** The state of the class, the loop, and the waits the loop has ended:
    the delay each one asked for and whether [skipBackoffTime] cut it
    short. *)
Record Loop : Type := mkLoop {
  state : SignalingState;
  phase : Phase;
  waits : list (option Z * bool)
}.

(** What runs between two awaits. *)
Inductive Step : Type :=
| LoopTop                    (* [!this.closed] is tested and [time] is read *)
| LoopPolled (net : Network) (* the poll of the loop is done, the wait starts *)
| LoopWakes                  (* the wait is over, the counter moves on *)
| Poll (net : Network)       (* a poll of the constructor or of [resetReadLoop] *)
| ResetLands.                (* [resetReadLoop] after its poll *)

(** [this.backoffStepId = this.backoffStepId + 1] and the cap. *)
Definition bump (s : SignalingState) : SignalingState :=
  let next := (backoffStepId s + 1)%nat in
  let next := if (MAX_BACKOFF_STEP_ID <? next)%nat then MAX_BACKOFF_STEP_ID else next in
  setBackoffStepId next s.

(** A step that the loop is not ready for leaves everything as it is. *)
Definition step (e : Step) (l : Loop) : Loop :=
  match e with
  | LoopTop =>
      match phase l with
      | AtTop =>
          if closed (state l) then mkLoop (state l) Ended (waits l)
          else mkLoop (state l)
                 (Polling (BACKOFF_STEPS !! backoffStepId (state l))) (waits l)
      | _ => l
      end
  | LoopPolled net =>
      match phase l with
      | Polling time =>
          (* skippable = promiseWaitSkippable(time); skipBackoffTime = skippable.skip *)
          mkLoop (processNewMessages net (state l)) (Waiting time false) (waits l)
      | _ => l
      end
  | LoopWakes =>
      match phase l with
      | Waiting time cut => mkLoop (bump (state l)) AtTop (waits l ++ [(time, cut)])
      | _ => l
      end
  | Poll net => mkLoop (processNewMessages net (state l)) (phase l) (waits l)
  | ResetLands =>
      (* this.backoffStepId = 0; this.skipBackoffTime() ends a wait that
         is still pending *)
      mkLoop (setBackoffStepId 0 (state l))
        match phase l with
        | Waiting time _ => Waiting time true
        | ph => ph
        end
        (waits l)
  end.

Fixpoint exec (steps : list Step) (l : Loop) : Loop :=
  match steps with
  | [] => l
  | e :: rest => exec rest (step e l)
  end.

(** The loop when the constructor starts it. *)
Definition start (s : SignalingState) : Loop := mkLoop s AtTop [].

Definition isLoopTop (e : Step) : bool :=
  match e with LoopTop => true | _ => false end.

(** A delay of the table. *)
Definition inTable (time : option Z) : Prop :=
  exists d, time = Some d /\ d ∈ BACKOFF_STEPS /\ 50 <= d <= 120000.

(** What every step keeps. *)
Record Bounded (l : Loop) : Prop := mkBounded {
  bounded_counter : (backoffStepId (state l) <= MAX_BACKOFF_STEP_ID)%nat;
  bounded_phase : match phase l with
                  | Polling time | Waiting time _ => inTable time
                  | _ => True
                  end;
  bounded_waits : Forall (fun w => inTable w.1) (waits l)
}.

(** What holds from a reset to the next test of the loop. *)
Definition JustReset (l : Loop) : Prop :=
  backoffStepId (state l) = 0%nat
  \/ (backoffStepId (state l) = 1%nat /\ phase l = AtTop).

End PollLoop.

(** ** What the signaling state keeps *)

Module SignalingInvariants.
Import Signaling.

(** What no method of the class gives up, from a state [s0] to a later
    state [s]: the session id, the absence of a peer under the own
    session id, the processed message ids, and a completed [resync$]
    with the number of its emissions. *)
Record Keeps (s0 s : SignalingState) : Prop := mkKeeps {
  keeps_session : sessionId s = sessionId s0;
  keeps_no_self : peerBySenderId s0 !! sessionId s0 = None ->
                  peerBySenderId s !! sessionId s0 = None;
  keeps_processed : processedMessageIds s0 ⊆ processedMessageIds s;
  keeps_completed : resyncCompleted s0 = true ->
                    resyncCompleted s = true /\ resyncEmitted s = resyncEmitted s0;
  keeps_closed : closed s0 = true -> closed s = true
}.

End SignalingInvariants.

(** ** Concrete runs

    The data of the unit tests and of the runs the properties below are
    evaluated on. *)

Module Scenario.

(** A document of the tests: [passportId] and [age]. *)
Definition Human : Type := (string * Z)%type.
Definition passportId (doc : Human) : string := fst doc.

(** The host's comparison in the tests: equal states do not differ, a
    missing file differs from every assumed state. *)
Definition humanDiffers (stored : option Human) (assumed : Human) : bool :=
  match stored with
  | Some doc => negb (String.eqb (fst doc) (fst assumed) && (snd doc =? snd assumed))
  | None => true
  end.

Definition toWriteRow (doc : Human) (assumedMasterState : option Human)
  : Upstream.RxReplicationWriteToMasterRow Human :=
  Upstream.mkRow Human doc assumedMasterState.

(** 'should process a full batch with conflict handling': doc-0..doc-2
    at age 1, then the same ids at age 2 with four new documents. *)
Definition rows1 : list (Upstream.RxReplicationWriteToMasterRow Human) :=
  [toWriteRow ("doc-0", 1) None; toWriteRow ("doc-1", 1) None;
   toWriteRow ("doc-2", 1) None].

Definition rows2 : list (Upstream.RxReplicationWriteToMasterRow Human) :=
  [toWriteRow ("doc-0", 2) None; toWriteRow ("doc-1", 2) None;
   toWriteRow ("doc-2", 2) None].

Definition nonConflict : list (Upstream.RxReplicationWriteToMasterRow Human) :=
  [toWriteRow ("no-conflict-0", 30) None; toWriteRow ("no-conflict-1", 30) None;
   toWriteRow ("no-conflict-2", 30) None; toWriteRow ("no-conflict-3", 30) None].

(** [docs/] after the first batch was staged and applied. *)
Definition docsAfterFirstBatch : gmap string Human :=
  match Upstream.handleUpstreamBatch Human passportId humanDiffers ∅ None rows1 with
  | Ok (_, wal) => (Upstream.processWalFile Human passportId ∅ wal).1
  | Throw _ => ∅
  end.

(** Files of a listing. *)
Definition file (id name modifiedTime : string) : DriveFileMetadata :=
  mkFile id name (Some modifiedTime) None.

Definition t1 : string := "2024-05-01T10:00:00.000Z".
Definition t2 : string := "2024-05-01T10:00:01.000Z".
Definition t3 : string := "2024-05-01T10:00:02.000Z".

Definition listing : list DriveFileMetadata :=
  [file "id-a" "doc-a.json" t1; file "id-b" "doc-b.json" t1;
   file "id-c" "doc-c.json" t2; file "id-d" "doc-d.json" t2;
   file "id-e" "doc-e.json" t3].

Definition checkpoint1 : GoogleDriveCheckpointType :=
  Checkpoint.mk t1 ["doc-a.json"].

Definition init : DriveStructure :=
  mkDriveStructure "root" "docs" "signaling" "transaction" "blocker" "wal".

(** A listing that is answered at once. *)
Definition listOk (q : Downstream.ListQuery) (k : nat)
  : Response (list DriveFileMetadata) :=
  mkResponse 200 listing.

(** A listing that is refused once with 429 and answered afterwards. *)
Definition listBusyOnce (q : Downstream.ListQuery) (k : nat)
  : Response (list DriveFileMetadata) :=
  match k with
  | O => mkResponse 429 []
  | S _ => mkResponse 200 listing
  end.

(** Downloads: every file holds an object with its own id. *)
Definition downloadOk (fileId : string) (attempt : nat)
  : Response DocumentHandling.Body :=
  mkResponse 200 (DocumentHandling.JsonText (JObj [("passportId", JStr fileId)])).

(** Downloads that are refused twice with 429 and answered afterwards. *)
Definition downloadBusyTwice (fileId : string) (attempt : nat)
  : Response DocumentHandling.Body :=
  match attempt with
  | O | S O => mkResponse 429 DocumentHandling.EmptyText
  | _ => mkResponse 200 (DocumentHandling.JsonText (JObj [("passportId", JStr fileId)]))
  end.

(** Downloads that are refused with 501. *)
Definition downloadNotImplemented (fileId : string) (attempt : nat)
  : Response DocumentHandling.Body :=
  match attempt with
  | O => mkResponse 501 DocumentHandling.EmptyText
  | S _ => mkResponse 200 (DocumentHandling.JsonText (JObj [("passportId", JStr fileId)]))
  end.

Definition jitter0 (fileId : string) (attempt : nat) : Z := 17.

(** The downloads complete in the order the schedule [roundRobin] gives. *)
Definition roundRobin (k : nat) : nat := k.

(** A signaling folder with the beacon of another peer, as the listing
    returns it (newest first). *)
Definition signalFile : DriveFileMetadata :=
  mkFile "sig-1" "peerB_1714557600000_msgB1.json" None (Some "2020-01-01T00:00:00.000Z").

Definition beaconNetwork : Signaling.Network :=
  Signaling.mkNetwork (mkResponse 200 (Some [signalFile]))
    (fun _ => Ok (JObj [("i", JStr "exist")])).

(** The same folder while the download of the message fails. *)
Definition failingNetwork : Signaling.Network :=
  Signaling.mkNetwork (mkResponse 200 (Some [signalFile]))
    (fun _ => Throw (RxFetchError 500)).

Definition emptyNetwork : Signaling.Network :=
  Signaling.mkNetwork (mkResponse 200 (Some [])) (fun _ => Ok JNull).

(** A browser without listeners, and a state constructed in it. *)
Definition browser : Signaling.Browser := Signaling.mkBrowser [] [].

Definition peerA : Signaling.SignalingState :=
  (Signaling.construct (Some browser) "peerA" "msgA1" "1714557600000").1.

(** The state [peerA] with the step counter at 3. *)
Definition peerA3 : Signaling.SignalingState :=
  Signaling.setBackoffStepId 3 peerA.

Definition liveOptions : Index.SyncOptionsGoogleDrive :=
  Index.mkOptions None (Some 60) (Some 60) None.

Definition onceOptions : Index.SyncOptionsGoogleDrive :=
  Index.mkOptions (Some false) (Some 60) (Some 60) None.

End Scenario.

(** More runs, for the further properties. *)

Module MoreScenario.
Import Scenario.

(** The listing of a second call: the files from [t2] on. *)
Definition listSecond (q : Downstream.ListQuery) (k : nat)
  : Response (list DriveFileMetadata) :=
  mkResponse 200 [file "id-c" "doc-c.json" t2; file "id-d" "doc-d.json" t2;
                  file "id-e" "doc-e.json" t3].

(** The checkpoint the first call returns for a batch of 3. *)
Definition checkpoint2 : GoogleDriveCheckpointType :=
  Checkpoint.mk t2 ["doc-c.json"; "doc-d.json"; "doc-a.json"].

(** A listing whose last file comes without a [modifiedTime]. *)
Definition listUntimed (q : Downstream.ListQuery) (k : nat)
  : Response (list DriveFileMetadata) :=
  mkResponse 200 [file "id-f" "doc-f.json" t1; mkFile "id-g" "doc-g.json" None None].

(** An empty folder. *)
Definition listEmpty (q : Downstream.ListQuery) (k : nat)
  : Response (list DriveFileMetadata) :=
  mkResponse 200 [].

(** Downloads that are answered with an empty body. *)
Definition downloadEmpty (fileId : string) (attempt : nat)
  : Response DocumentHandling.Body :=
  mkResponse 200 DocumentHandling.EmptyText.

(** The update of the test 'fetchDocumentContents() after
    updateDocumentFiles()': every PATCH is answered with the file id. *)
Definition patchOk (fileId : PlainObject.Value) (doc : Human)
  : Response (result json) :=
  mkResponse 200
    (Ok (JObj [("id", JStr match fileId with
                           | PlainObject.Own v => v
                           | PlainObject.Inherited key => key
                           end)])).

Definition fileIdByDocId : gmap string string :=
  list_to_map [("doc-0", "file-0"); ("doc-1", "file-1")].

Definition updatedDocs : list Human := [("doc-0", 42); ("doc-1", 42)].

(** A document whose id names a member of [Object.prototype] and has no
    file. *)
Definition inheritedDocs : list Human := [("doc-0", 42); ("constructor", 42)].

(** The second message of [peerA] and the file it uploads, with a
    timestamp of two decimals. *)
Definition ownFile : DriveFileMetadata :=
  mkFile "sig-2" "peerA_1714557600001.01_msgA2.json" None None.

Definition ownNetwork : Signaling.Network :=
  Signaling.mkNetwork (mkResponse 200 (Some [ownFile])) (fun _ => Ok JNull).

(** Seven rounds of the poll loop; while the third one waits, a
    [resetReadLoop] polls and lands. *)
Definition resetInsideRound : list PollLoop.Step :=
  [PollLoop.LoopTop; PollLoop.LoopPolled emptyNetwork; PollLoop.LoopWakes;
   PollLoop.LoopTop; PollLoop.LoopPolled beaconNetwork; PollLoop.LoopWakes;
   PollLoop.LoopTop; PollLoop.LoopPolled emptyNetwork;
   PollLoop.Poll emptyNetwork; PollLoop.ResetLands; PollLoop.LoopWakes;
   PollLoop.LoopTop; PollLoop.LoopPolled emptyNetwork; PollLoop.LoopWakes;
   PollLoop.LoopTop; PollLoop.LoopPolled emptyNetwork; PollLoop.LoopWakes;
   PollLoop.LoopTop; PollLoop.LoopPolled emptyNetwork; PollLoop.LoopWakes;
   PollLoop.LoopTop; PollLoop.LoopPolled emptyNetwork; PollLoop.LoopWakes].

(** A second peer, outside a browser. *)
Definition peerB : Signaling.SignalingState :=
  (Signaling.construct None "peerB" "msgB1" "1714557600000").1.

End MoreScenario.

(** * Properties *)

(** ** Helpers on lists and strings *)

Lemma filter_bool_prop {A} (f : A -> bool) (P : A -> Prop)
    `{!forall x, Decision (P x)} (l : list A) :
  (forall x, f x = true <-> P x) ->
  List.filter f l = filter P l.
Proof.
  intros Hf. induction l as [|x l IH]; [done|].
  simpl. rewrite filter_cons. destruct (f x) eqn:E.
  - rewrite decide_True by (by apply Hf). by rewrite IH.
  - rewrite decide_False; [done|]. intros HP. apply Hf in HP. congruence.
Qed.

Lemma includes_elem_of (ar : list string) (x : string) :
  includes ar x = true <-> x ∈ ar.
Proof.
  unfold includes. rewrite existsb_exists. split.
  - intros (y & Hin & Heq). apply String.eqb_eq in Heq. subst.
    by apply list_elem_of_In.
  - intros Hin. exists x. split; [by apply list_elem_of_In|apply String.eqb_refl].
Qed.

Lemma strictEqStr_eq (a : option string) (b : string) :
  strictEqStr a b = true <-> a = Some b.
Proof.
  destruct a as [t|]; simpl.
  - rewrite String.eqb_eq. split; congruence.
  - split; discriminate.
Qed.

Lemma ensureNotFalsyStr_ok (t : string) :
  t <> EmptyString -> ensureNotFalsyStr (Some t) = Ok t.
Proof. intros Hne. simpl. by apply String.eqb_neq in Hne as ->. Qed.

Lemma slice0_take {A} (ar : list A) (n : Z) :
  0 <= n -> slice0 ar n = take (Z.to_nat n) ar.
Proof.
  intros Hn. unfold slice0.
  destruct (n <? 0) eqn:E; [apply Z.ltb_lt in E; lia|].
  destruct (Z.le_gt_cases n (Z.of_nat (length ar))).
  - by rewrite Z.min_l.
  - rewrite Z.min_r by lia. rewrite Nat2Z.id.
    rewrite !take_ge; [done|lia|lia].
Qed.

Lemma slice0_elem_of {A} (ar : list A) (n : Z) (x : A) :
  x ∈ slice0 ar n -> x ∈ ar.
Proof.
  unfold slice0. intros (i & Hi & _)%elem_of_take.
  by eapply list_elem_of_lookup_2.
Qed.

Lemma timeLe_refl (t : string) : timeLe t t.
Proof. unfold timeLe. by destruct (String.leb_total t t). Qed.

(** ** document-handling.ts: the worker pool *)

Section PoolFacts.
Import DocumentHandling.

Variable fetch : string -> nat -> Response Body.
Variable jitter : string -> nat -> Z.
Variable fileIds : list string.

Local Abbreviation delivers := (DocumentHandling.delivers fetch jitter).
Local Abbreviation filled := (DocumentHandling.filled fetch jitter fileIds).
Local Abbreviation PoolInv := (DocumentHandling.PoolInv fetch jitter fileIds).
Local Abbreviation remaining := (DocumentHandling.remaining fileIds).

Lemma awaitingFrom_lookup (ws : list Worker) : forall k j w,
  awaitingFrom k ws !! j = Some w ->
  exists i, (k <= w)%nat /\ ws !! (w - k)%nat = Some (Awaiting i).
Proof.
  induction ws as [|wk ws IH]; intros k j w; simpl; [done|].
  destruct wk as [i| |e]; simpl.
  - destruct j as [|j]; simpl.
    + intros [= <-]. exists i. split; [lia|]. by rewrite Nat.sub_diag.
    + intros (i' & Hle & Hl)%IH. exists i'. split; [lia|].
      replace (w - k)%nat with (S (w - S k)) by lia. done.
  - intros (i' & Hle & Hl)%IH. exists i'. split; [lia|].
    replace (w - k)%nat with (S (w - S k)) by lia. done.
  - intros (i' & Hle & Hl)%IH. exists i'. split; [lia|].
    replace (w - k)%nat with (S (w - S k)) by lia. done.
Qed.

Lemma awaitingFrom_insert (ws : list Worker) : forall k w wk i,
  ws !! w = Some (Awaiting i) ->
  (length (awaitingFrom k (<[w := wk]> ws)) + 1
   = length (awaitingFrom k ws) + (if isAwaiting wk then 1 else 0))%nat.
Proof.
  induction ws as [|wk0 ws IH]; intros k w wk i; [done|].
  destruct w as [|w]; simpl.
  - intros [= ->]. simpl. destruct (isAwaiting wk); simpl; lia.
  - intros Hl. specialize (IH (S k) w wk i Hl).
    destruct (isAwaiting wk0); simpl; lia.
Qed.

Lemma firstRejection_insert (ws : list Worker) : forall w e,
  (w < length ws)%nat -> is_Some (firstRejection (<[w := Rejected e]> ws)).
Proof.
  induction ws as [|wk ws IH]; intros w e; simpl; [lia|].
  destruct w as [|w]; simpl; [by eexists|].
  intros Hlt. destruct wk; simpl; try (by eexists); apply IH; lia.
Qed.

Lemma firstRejection_None (ws : list Worker) :
  firstRejection ws = None -> forall w e, ws !! w <> Some (Rejected e).
Proof.
  induction ws as [|wk ws IH]; intros Hn w e; [done|].
  destruct w as [|w]; simpl.
  - destruct wk; [done..|]. simpl in Hn. discriminate.
  - apply IH. by destruct wk.
Qed.

Lemma awaitingFrom_nonempty (ws : list Worker) : forall k,
  forallb (fun wk => negb (isAwaiting wk)) ws = false ->
  (0 < length (awaitingFrom k ws))%nat.
Proof.
  induction ws as [|wk ws IH]; intros k; simpl; [done|].
  destruct wk; simpl; [intros _; lia|apply IH|apply IH].
Qed.

Lemma settled_pending (p : Pool) :
  settled p = None -> (0 < length (awaiting p))%nat.
Proof.
  unfold settled, awaiting. destruct (firstRejection _); [done|].
  destruct (forallb _ _) eqn:E; [done|]. intros _. by apply awaitingFrom_nonempty.
Qed.

Lemma settled_fulfilled (p q : Pool) :
  settled p = Some (Ok q) ->
  q = p /\ forall w wk, workers p !! w = Some wk -> wk = Returned.
Proof.
  unfold settled. destruct (firstRejection (workers p)) eqn:Er; [done|].
  destruct (forallb _ _) eqn:Ea; [|done]. intros [= <-]. split; [done|].
  intros w wk Hl. pose proof (firstRejection_None _ Er w) as Hr.
  rewrite forallb_forall in Ea.
  specialize (Ea wk (proj1 (list_elem_of_In _ _) (list_elem_of_lookup_2 _ _ _ Hl))).
  destruct wk; [done|done|]. by specialize (Hr e).
Qed.

Lemma resume_fulfilled (p : Pool) (w i : nat) (fileId : string) (doc : json) :
  workers p !! w = Some (Awaiting i) ->
  fileIds !! i = Some fileId ->
  delivers fileId = Ok doc ->
  resume fetch jitter fileIds w p
  = mkPool (S (nextIndex p)) (<[i := Some doc]> (ordered p))
      (<[fileId := doc]> (byId p))
      (<[w := if (length fileIds <=? nextIndex p)%nat
              then Returned else Awaiting (nextIndex p)]> (workers p)).
Proof.
  intros Hw Hi Hd. unfold resume, delivers in *. rewrite Hw, Hi, Hd.
  unfold claim, setWorker. simpl.
  by destruct (length fileIds <=? nextIndex p)%nat.
Qed.

Lemma resume_rejected (p : Pool) (w i : nat) (fileId : string) (e : error) :
  workers p !! w = Some (Awaiting i) ->
  fileIds !! i = Some fileId ->
  delivers fileId = Throw e ->
  exists e', settled (resume fetch jitter fileIds w p) = Some (Throw e').
Proof.
  intros Hw Hi Hd. unfold resume, delivers in *. rewrite Hw, Hi, Hd.
  unfold settled, setWorker. simpl.
  destruct (firstRejection_insert (workers p) w e) as [e' ->]; [|by exists e'].
  by eapply lookup_lt_Some.
Qed.

Lemma resume_inv (p : Pool) (w i : nat) (fileId : string) (doc : json) :
  PoolInv p ->
  workers p !! w = Some (Awaiting i) ->
  fileIds !! i = Some fileId ->
  delivers fileId = Ok doc ->
  PoolInv (resume fetch jitter fileIds w p)
  /\ (remaining (resume fetch jitter fileIds w p) + 1 = remaining p)%nat
  /\ length (workers (resume fetch jitter fileIds w p)) = length (workers p).
Proof.
  intros [Hlen Haw Hcl Hret Hrej] Hw Hi Hd.
  rewrite (resume_fulfilled p w i fileId doc) by done.
  pose proof (lookup_lt_Some _ _ _ Hw) as Hwlt.
  destruct (Haw w i Hw) as [Hin Hinext].
  split; [split; simpl|split].
  - by rewrite length_insert.
  - intros w' i'. destruct (decide (w' = w)) as [->|Hne].
    + rewrite list_lookup_insert_eq by done.
      destruct (Nat.leb_spec (length fileIds) (nextIndex p)); [done|].
      intros [= <-]. lia.
    + rewrite list_lookup_insert_ne by done. intros H'.
      destruct (Haw w' i' H'). lia.
  - intros i' Hlt Hn.
    destruct (decide (i' = nextIndex p)) as [->|Hne].
    { left. exists w. rewrite list_lookup_insert_eq by done.
      destruct (Nat.leb_spec (length fileIds) (nextIndex p)); [lia|done]. }
    assert (Hold : (i' < nextIndex p)%nat) by lia.
    destruct (decide (i' = i)) as [->|Hi'].
    { right. exists fileId, doc. split; [done|]. split; [done|].
      apply list_lookup_insert_eq. lia. }
    destruct (Hcl i' Hold Hn) as [[w' Hw']|(f & d & Hf & Hdv & Hord)].
    + left. exists w'. rewrite list_lookup_insert_ne; [done|].
      intros <-. congruence.
    + right. exists f, d. split; [done|]. split; [done|].
      simpl. by rewrite list_lookup_insert_ne.
  - intros w'. destruct (decide (w' = w)) as [->|Hne].
    + rewrite list_lookup_insert_eq by done.
      destruct (Nat.leb_spec (length fileIds) (nextIndex p)); [lia|done].
    + rewrite list_lookup_insert_ne by done. intros H'%Hret. lia.
  - intros w' e. destruct (decide (w' = w)) as [->|Hne].
    + rewrite list_lookup_insert_eq by done.
      by destruct (length fileIds <=? nextIndex p)%nat.
    + rewrite list_lookup_insert_ne by done. apply Hrej.
  - unfold remaining, awaiting. cbn [nextIndex workers].
    pose proof (awaitingFrom_insert (workers p) 0 w
      (if (length fileIds <=? nextIndex p)%nat
       then Returned else Awaiting (nextIndex p)) i Hw) as Hcount.
    destruct (Nat.leb_spec (length fileIds) (nextIndex p)); simpl in Hcount; lia.
  - cbn [workers]. by rewrite length_insert.
Qed.

(** The pool after the synchronous start of [concurrency] workers. *)
Lemma spawn_app (m : nat) : forall p,
  spawn fileIds m p
  = mkPool (nextIndex p + m) (ordered p) (byId p)
      (workers p ++ map (fun j => if (length fileIds <=? j)%nat
                                  then Returned else Awaiting j)
                        (seq (nextIndex p) m)).
Proof.
  induction m as [|m IH]; intros [k o b ws]; simpl.
  - by rewrite Nat.add_0_r, app_nil_r.
  - unfold claim. simpl.
    destruct (length fileIds <=? k)%nat; simpl; rewrite IH; simpl;
      rewrite <- app_assoc; simpl; f_equal; lia.
Qed.

Lemma awaitingFrom_seq (m : nat) : forall k j,
  length (awaitingFrom k
            (map (fun j => if (length fileIds <=? j)%nat
                           then Returned else Awaiting j) (seq j m)))
  = (Nat.min (j + m) (length fileIds) - Nat.min j (length fileIds))%nat.
Proof.
  induction m as [|m IH]; intros k j; cbn [seq map awaitingFrom].
  - rewrite Nat.add_0_r. simpl. lia.
  - destruct (Nat.leb_spec (length fileIds) j); cbn [isAwaiting length];
      rewrite IH; lia.
Qed.

Lemma spawn_inv (c : nat) :
  let p := spawn fileIds c (mkPool 0 (replicate (length fileIds) None) ∅ []) in
  PoolInv p /\ remaining p = length fileIds /\ length (workers p) = c.
Proof.
  intros p. subst p. rewrite spawn_app. cbn [nextIndex ordered byId workers].
  rewrite app_nil_l, Nat.add_0_l.
  set (f := fun j => if (length fileIds <=? j)%nat then Returned else Awaiting j).
  assert (Hlook : forall w wk, map f (seq 0 c) !! w = Some wk ->
                    (w < c)%nat /\ wk = f w).
  { intros w wk. rewrite list_lookup_fmap.
    destruct (seq 0 c !! w) as [x|] eqn:E; [|done].
    apply lookup_seq in E as [-> ?]. simpl. intros [= <-]. done. }
  split; [split; cbn [nextIndex ordered byId workers]|split].
  - apply length_replicate.
  - intros w i [Hw Hf]%Hlook. unfold f in Hf.
    destruct (Nat.leb_spec (length fileIds) w); [done|].
    injection Hf as ->. lia.
  - intros i Hc Hn. left. exists i.
    rewrite list_lookup_fmap, lookup_seq_lt by done. simpl. unfold f.
    destruct (Nat.leb_spec (length fileIds) i); [lia|done].
  - intros w [Hw Hf]%Hlook. unfold f in Hf.
    destruct (Nat.leb_spec (length fileIds) w); [lia|done].
  - intros w e [Hw Hf]%Hlook. unfold f in Hf.
    by destruct (length fileIds <=? w)%nat.
  - unfold remaining, awaiting. cbn [nextIndex workers]. unfold f.
    rewrite awaitingFrom_seq. lia.
  - cbn [workers]. by rewrite length_map, length_seq.
Qed.

Lemma runPool_settled (fuel : nat) (sched : nat -> nat) (k : nat) (p : Pool)
    (r : result Pool) :
  settled p = Some r -> runPool fetch jitter fileIds fuel sched k p = Some r.
Proof. intros H. destruct fuel; simpl; by rewrite H. Qed.

Lemma settled_inv (p : Pool) (r : result Pool) :
  PoolInv p -> settled p = Some r -> r = Ok p.
Proof.
  intros Hinv. unfold settled.
  destruct (firstRejection (workers p)) as [e|] eqn:E.
  - exfalso. clear -E Hinv. destruct Hinv as [_ _ _ _ Hrej].
    induction (workers p) as [|wk ws IH]; [done|].
    destruct wk as [i| |e']; simpl in E.
    + apply IH; [|done]. intros w e0. apply (Hrej (S w) e0).
    + apply IH; [|done]. intros w e0. apply (Hrej (S w) e0).
    + by apply (Hrej 0%nat e').
  - destruct (forallb _ _); [|done]. by intros [= <-].
Qed.

(** Every schedule settles the pool within the downloads that remain;
    when it is fulfilled, every worker has returned. *)
Lemma runPool_settles (fuel : nat) : forall (sched : nat -> nat) (k : nat) (p : Pool),
  PoolInv p -> (remaining p <= fuel)%nat ->
  exists r, runPool fetch jitter fileIds fuel sched k p = Some r
    /\ (forall q, r = Ok q ->
          PoolInv q
          /\ (forall w wk, workers q !! w = Some wk -> wk = Returned)
          /\ length (workers q) = length (workers p))
    /\ ((forall fileId, fileId ∈ fileIds -> isOk (delivers fileId) = true) ->
        isOk r = true).
Proof.
  induction fuel as [|fuel IH]; intros sched k p Hinv Hfuel.
  - destruct (settled p) as [r|] eqn:Es.
    + exists r. split; [by apply runPool_settled|].
      pose proof (settled_inv p r Hinv Es) as ->. split; [|done].
      intros q [= <-]. split; [done|]. split; [|done].
      exact (proj2 (settled_fulfilled p p Es)).
    + apply settled_pending in Es. unfold remaining in Hfuel. lia.
  - destruct (settled p) as [r|] eqn:Es.
    + exists r. split; [by apply runPool_settled|].
      pose proof (settled_inv p r Hinv Es) as ->. split; [|done].
      intros q [= <-]. split; [done|]. split; [|done].
      exact (proj2 (settled_fulfilled p p Es)).
    + pose proof (settled_pending p Es) as Hpos.
      cbn [runPool]. rewrite Es.
      destruct (lookup_lt_is_Some_2 (awaiting p) (sched k mod length (awaiting p))%nat)
        as [w Hw]; [apply Nat.mod_upper_bound; lia|].
      rewrite Hw.
      destruct (awaitingFrom_lookup _ _ _ _ Hw) as (i & _ & Hwi).
      rewrite Nat.sub_0_r in Hwi.
      destruct (inv_awaiting _ _ _ p Hinv w i Hwi) as [Hi _].
      destruct (lookup_lt_is_Some_2 fileIds i Hi) as [fileId Hf].
      destruct (delivers fileId) as [doc|e] eqn:Ed.
      * destruct (resume_inv p w i fileId doc Hinv Hwi Hf Ed) as (Hinv' & Hrem & Hlen).
        destruct (IH sched (S k) _ Hinv' ltac:(lia)) as (r & Hr & Hok & Hall).
        exists r. split; [done|]. split; [|done].
        intros q Hq. destruct (Hok q Hq) as (? & ? & ?).
        split; [done|]. split; [done|]. congruence.
      * destruct (resume_rejected p w i fileId e Hwi Hf Ed) as [e' He'].
        exists (Throw e'). split; [by apply runPool_settled|].
        split; [done|]. intros Hall.
        specialize (Hall fileId (list_elem_of_lookup_2 _ _ _ Hf)).
        by rewrite Ed in Hall.
Qed.

Lemma delivers_Ok (fileId : string) (doc : json) :
  delivers fileId = Ok doc <->
  outcome (fetchOne fetch jitter fileId 0) = Ok (Some doc) /\ truthy doc = true.
Proof.
  unfold DocumentHandling.delivers.
  destruct (outcome (fetchOne fetch jitter fileId 0)) as [[d|]|e]; simpl.
  - destruct (truthy d) eqn:E; split.
    + by intros [= ->].
    + by intros [[= ->] _].
    + done.
    + intros [[= ->] ?]. congruence.
  - split; [done|]. by intros [? _].
  - split; [done|]. by intros [? _].
Qed.

(** With at least one worker, [fetchDocumentContents] settles under
    every schedule; when it is fulfilled, [ordered] has the length of
    [fileIds] and its i-th entry is what the download of [fileIds[i]]
    parsed; it is fulfilled when every download parses to a truthy
    value. *)
Lemma fetchDocumentContents_in_order (concurrency : Z) (sched : nat -> nat) :
  1 <= concurrency ->
  exists r,
    fetchDocumentContents fetch jitter fileIds concurrency sched = Some r
    /\ (forall contents, r = Ok contents ->
          length (ordered contents) = length fileIds
          /\ forall i fileId, fileIds !! i = Some fileId ->
               exists doc,
                 outcome (fetchOne fetch jitter fileId 0) = Ok (Some doc)
                 /\ truthy doc = true
                 /\ ordered contents !! i = Some (Some doc))
    /\ ((forall fileId, fileId ∈ fileIds ->
           exists doc, outcome (fetchOne fetch jitter fileId 0) = Ok (Some doc)
                       /\ truthy doc = true) ->
        isOk r = true).
Proof.
  intros Hc. unfold fetchDocumentContents.
  destruct (spawn_inv (arrayLength concurrency)) as (Hinv & Hrem & Hlen).
  destruct (runPool_settles (length fileIds) sched 0 _ Hinv ltac:(lia))
    as (r & Hr & Hok & Hall).
  exists r. split; [done|]. split.
  - intros q Hq. destruct (Hok q Hq) as ([Hl Haw Hcl Hret Hrej] & Hdone & Hws).
    split; [done|]. intros i fileId Hi.
    assert (H0 : is_Some (workers q !! 0%nat)).
    { apply lookup_lt_is_Some_2. rewrite Hws, Hlen. unfold arrayLength. lia. }
    destruct H0 as [wk Hwk]. pose proof (Hdone _ _ Hwk) as ->.
    apply Hret in Hwk. pose proof (lookup_lt_Some _ _ _ Hi) as Hilt.
    destruct (Hcl i ltac:(lia) Hilt) as [[w Hw]|(f & doc & Hf & Hd & Ho)].
    + by apply Hdone in Hw.
    + exists doc. apply delivers_Ok in Hd as [Hd Ht].
      split; [congruence|]. split; [done|congruence].
  - intros Hgood. apply Hall. intros fileId Hin.
    destruct (Hgood fileId Hin) as (doc & Hd & Ht).
    by rewrite (proj2 (delivers_Ok fileId doc) (conj Hd Ht)).
Qed.

End PoolFacts.

(** ** downstream.ts: the checkpoint *)

Section DownstreamFacts.
Import Downstream.

Lemma notYetDelivered_spec (c : GoogleDriveCheckpointType) (file : DriveFileMetadata) :
  notYetDelivered c file = true <-> ~ delivered (Some c) file.
Proof.
  unfold notYetDelivered. simpl.
  rewrite negb_true_iff, andb_false_iff.
  rewrite <- !not_true_iff_false, strictEqStr_eq, includes_elem_of.
  split; [tauto|].
  intros H. destruct (decide (modifiedTime file = Some (Checkpoint.modifiedTime c)));
    [right|left]; tauto.
Qed.

(** The files the code keeps are the files of the rule. *)
Lemma kept_by_code (checkpoint : option GoogleDriveCheckpointType)
    (listing : list DriveFileMetadata) (batchSize : Z) :
  0 <= batchSize ->
  slice0 match checkpoint with
         | Some c => List.filter (notYetDelivered c) listing
         | None => listing
         end batchSize
  = keptFiles checkpoint listing batchSize.
Proof.
  intros Hb. rewrite slice0_take by done. unfold keptFiles. f_equal.
  destruct checkpoint as [c|].
  - apply filter_bool_prop, notYetDelivered_spec.
  - symmetry. induction listing as [|x l IH]; [done|].
    rewrite filter_cons, decide_True by (simpl; tauto). by rewrite IH.
Qed.

Lemma kept_in_listing (checkpoint : option GoogleDriveCheckpointType)
    (listing : list DriveFileMetadata) (batchSize : Z) (file : DriveFileMetadata) :
  file ∈ slice0 match checkpoint with
                | Some c => List.filter (notYetDelivered c) listing
                | None => listing
                end batchSize ->
  file ∈ listing.
Proof.
  intros Hin%slice0_elem_of. destruct checkpoint; [|done].
  apply list_elem_of_In, filter_In in Hin as [Hin _]. by apply list_elem_of_In.
Qed.

(** C3. With a listing that was answered with a 2xx status and a
    non-negative batch size, [fetchChangesFiles] keeps the listed files
    that are not delivered (at the checkpoint's time with a name of the
    checkpoint's list), cut to [batchSize]; when a file is kept, the new
    checkpoint has the last kept file's [modifiedTime] and the names of
    the kept files at that time, followed by the old checkpoint's names
    when the first kept file sits at the old checkpoint's time. *)
Theorem fetchChangesFiles_checkpoint_rule
    (fetch : ListQuery -> nat -> Response (list DriveFileMetadata))
    (init : DriveStructure) (checkpoint : option GoogleDriveCheckpointType)
    (batchSize : Z) (first last : DriveFileMetadata) (lastModified : string) :
  let listing := payload (fetch (changesQuery init checkpoint batchSize) 0%nat) in
  let kept := keptFiles checkpoint listing batchSize in
  ok (fetch (changesQuery init checkpoint batchSize) 0%nat) = true ->
  0 <= batchSize ->
  head kept = Some first ->
  list.last kept = Some last ->
  modifiedTime last = Some lastModified ->
  lastModified <> EmptyString ->
  fetchChangesFiles fetch init checkpoint batchSize
  = Ok (Some (nextCheckpoint checkpoint kept first lastModified), kept).
Proof.
  intros listing kept Hok Hb Hfirst Hlast Htime Hne.
  unfold fetchChangesFiles. rewrite Hok. simpl negb. cbv iota.
  fold listing. rewrite kept_by_code by done. fold kept.
  unfold lastOfArray. rewrite Hlast, Htime, ensureNotFalsyStr_ok by done.
  simpl bind. unfold nextCheckpoint.
  rewrite (filter_bool_prop _ (fun file => modifiedTime file = Some lastModified))
    by (intros; apply strictEqStr_eq).
  do 3 f_equal.
  destruct kept as [|f kept']; [done|]. simpl in Hfirst. injection Hfirst as ->.
  destruct checkpoint as [c|]; simpl; [|by rewrite app_nil_r].
  destruct (strictEqStr (modifiedTime first) (Checkpoint.modifiedTime c)) eqn:E.
  - apply strictEqStr_eq in E. by rewrite decide_True.
  - rewrite decide_False, app_nil_r; [done|].
    intros HE. apply strictEqStr_eq in HE. congruence.
Qed.

(** When no file is kept the checkpoint comes back as it went in. *)
Lemma fetchChangesFiles_nothing_kept
    (fetch : ListQuery -> nat -> Response (list DriveFileMetadata))
    (init : DriveStructure) (checkpoint : option GoogleDriveCheckpointType)
    (batchSize : Z) (newCheckpoint : option GoogleDriveCheckpointType) :
  fetchChangesFiles fetch init checkpoint batchSize = Ok (newCheckpoint, []) ->
  newCheckpoint = checkpoint.
Proof.
  unfold fetchChangesFiles.
  destruct (negb (ok _)); [discriminate|].
  set (files := slice0 _ _). unfold lastOfArray.
  destruct (list.last files) as [l|] eqn:El.
  - destruct (ensureNotFalsyStr (modifiedTime l)); simpl; [|discriminate].
    intros [= _ Hfiles]. rewrite Hfiles in El. discriminate.
  - by intros [= -> _].
Qed.

(** C2. When the server answers the query the code sends (every listed
    file has a [modifiedTime], not before the [modifiedTime >= '...']
    term of that query), [fetchChangesFiles] returns a checkpoint whose
    [modifiedTime] is not before the one it was given, and the very same
    checkpoint when it keeps no file; the checkpoint of [fetchChanges]
    is that checkpoint. *)
Theorem fetchChanges_checkpoint_monotonic
    (fetch : ListQuery -> nat -> Response (list DriveFileMetadata))
    (init : DriveStructure) (c1 : GoogleDriveCheckpointType) (batchSize : Z) :
  let q := changesQuery init (Some c1) batchSize in
  let res := fetch q 0%nat in
  ok res = true ->
  ListingOrder.answers q (payload res) ->
  (exists c2 files,
     fetchChangesFiles fetch init (Some c1) batchSize = Ok (Some c2, files)
     /\ timeLe (Checkpoint.modifiedTime c1) (Checkpoint.modifiedTime c2)
     /\ (files = [] -> c2 = c1))
  /\ (forall download jitter sched newCheckpoint documents,
        fetchChanges fetch download jitter sched init (Some c1) batchSize
        = Some (Ok (newCheckpoint, documents)) ->
        exists c2, newCheckpoint = Some c2
          /\ timeLe (Checkpoint.modifiedTime c1) (Checkpoint.modifiedTime c2)).
Proof.
  intros q res Hok Hanswers.
  assert (Hhonours : forall file, file ∈ payload res ->
     exists t, modifiedTime file = Some t /\ t <> EmptyString
               /\ timeLe (Checkpoint.modifiedTime c1) t).
  { intros file Hin. destruct (Hanswers file Hin) as (t & Ht & Hne & Hsince).
    exists t. split; [done|]. split; [done|]. by apply Hsince. }
  assert (Hfiles : exists c2 files,
     fetchChangesFiles fetch init (Some c1) batchSize = Ok (Some c2, files)
     /\ timeLe (Checkpoint.modifiedTime c1) (Checkpoint.modifiedTime c2)
     /\ (files = [] -> c2 = c1)).
  { unfold fetchChangesFiles. fold q res. rewrite Hok. simpl negb. cbv iota.
    set (files := slice0 _ _). unfold lastOfArray.
    destruct (list.last files) as [l|] eqn:El.
    - assert (Hin : l ∈ payload res).
      { apply (kept_in_listing (Some c1) _ batchSize), last_Some_elem_of, El. }
      destruct (Hhonours l Hin) as (t & Ht & Hne & Hle).
      rewrite Ht, ensureNotFalsyStr_ok by done. simpl.
      eexists _, _. split; [reflexivity|]. split; [exact Hle|].
      intros Hnil. rewrite Hnil in El. discriminate.
    - exists c1, files. split; [done|]. split; [apply timeLe_refl|done]. }
  split; [exact Hfiles|].
  intros download jitter sched newCheckpoint documents.
  destruct Hfiles as (c2 & files & Heq & Hle & _).
  unfold fetchChanges. rewrite Heq.
  destruct (DocumentHandling.fetchDocumentContents _ _ _ _ _) as [[contents|e]|];
    [|discriminate..].
  intros [= <- _]. by exists c2.
Qed.

End DownstreamFacts.

(** ** fetchChanges: the documents follow the listing *)

Section OrderFacts.
Import DocumentHandling Downstream.

Lemma List_filter_sublist {A} (f : A -> bool) (l : list A) :
  List.filter f l `sublist_of` l.
Proof.
  induction l as [|x l IH]; simpl; [constructor|].
  destruct (f x); by constructor.
Qed.

Lemma fetchChangesFiles_sublist
    (fetch : ListQuery -> nat -> Response (list DriveFileMetadata))
    (init : DriveStructure) (checkpoint : option GoogleDriveCheckpointType)
    (batchSize : Z) (newCheckpoint : option GoogleDriveCheckpointType)
    (files : list DriveFileMetadata) :
  fetchChangesFiles fetch init checkpoint batchSize = Ok (newCheckpoint, files) ->
  files `sublist_of` payload (fetch (changesQuery init checkpoint batchSize) 0%nat).
Proof.
  unfold fetchChangesFiles. destruct (negb (ok _)); [discriminate|].
  set (kept := slice0 _ _).
  assert (Hsub : kept `sublist_of`
                 payload (fetch (changesQuery init checkpoint batchSize) 0%nat)).
  { unfold kept, slice0. etrans; [apply sublist_take|].
    destruct checkpoint; [apply List_filter_sublist|done]. }
  destruct (lastOfArray kept) as [l|].
  - destruct (ensureNotFalsyStr (modifiedTime l)); simpl; [|discriminate].
    by intros [= _ <-].
  - by intros [= _ <-].
Qed.


End OrderFacts.

(** ** document-handling.ts: the retries of fetchOne *)

Section FetchOneFacts.
Import DocumentHandling.

Variable fetch : string -> nat -> Response Body.
Variable jitter : string -> nat -> Z.

(** The equation of the source: retry on [attempt + 1], or settle. *)
Lemma fetchOne_unfold (fileId : string) (attempt : nat) :
  fetchOne fetch jitter fileId attempt
  = let res := fetch fileId attempt in
    if retryStatus (status res) && (attempt <? 4)%nat then
      let backoffMs := 250 * 2 ^ Z.of_nat attempt + jitter fileId attempt in
      let next := fetchOne fetch jitter fileId (attempt + 1) in
      mkDownload (outcome next) (backoffMs :: slept next) (S (requests next))
    else mkDownload (settleOn res) [] 1.
Proof.
  unfold fetchOne. cbv zeta.
  destruct (attempt <? 4)%nat eqn:E.
  - apply Nat.ltb_lt in E as Hlt.
    replace (4 - attempt)%nat with (S (4 - (attempt + 1))) by lia.
    cbn [fetchOne_rec]. by rewrite E.
  - destruct (4 - attempt)%nat; cbn [fetchOne_rec]; rewrite E;
      by rewrite Bool.andb_false_r.
Qed.

Local Abbreviation Policy := (DocumentHandling.Policy fetch jitter).

Lemma fetchOne_policy (fileId : string) (n : nat) : forall attempt,
  (4 - attempt = n)%nat ->
  Policy fileId attempt (fetchOne fetch jitter fileId attempt).
Proof.
  induction n as [|n IH]; intros attempt Hn; rewrite fetchOne_unfold; cbv zeta.
  - destruct (Nat.ltb_spec attempt 4); [lia|]. rewrite Bool.andb_false_r.
    split; cbn [requests slept outcome length].
    + lia.
    + done.
    + intros k delay. by rewrite lookup_nil.
    + by replace (attempt + 1 - 1)%nat with attempt by lia.
    + lia.
  - destruct (Nat.ltb_spec attempt 4); [|lia].
    destruct (retryStatus (status (fetch fileId attempt))) eqn:Er; cbn [andb].
    + destruct (IH (attempt + 1)%nat ltac:(lia)) as [[H1 H5] Hs Hd Ho Hstop].
      set (next := fetchOne fetch jitter fileId (attempt + 1)) in *.
      split; cbn [requests slept outcome length].
      * lia.
      * lia.
      * intros [|k] delay; cbn [lookup list_lookup].
        -- intros [= <-]. by rewrite Nat.add_0_r.
        -- intros Hk. destruct (Hd k delay Hk) as [Hr ->].
           replace (attempt + S k)%nat with (attempt + 1 + k)%nat by lia. done.
      * rewrite Ho. f_equal. f_equal. lia.
      * intros Hlt. replace (attempt + S (requests next) - 1)%nat
          with (attempt + 1 + requests next - 1)%nat by lia.
        apply Hstop. lia.
    + split; cbn [requests slept outcome length].
      * lia.
      * done.
      * intros k delay. by rewrite lookup_nil.
      * by replace (attempt + 1 - 1)%nat with attempt by lia.
      * intros _. by replace (attempt + 1 - 1)%nat with attempt by lia.
Qed.


End FetchOneFacts.

(** ** signaling.ts: readMessages *)

Section ReadMessagesFacts.
Import Signaling.

(** Every file that passes the filter has a message id. *)
Lemma unseen_has_id (processed : gset string) (folderData : list DriveFileMetadata) :
  forall useFiles,
    unseen processed folderData = Ok useFiles ->
    Forall (fun file => isOk (messageIdByFilename (name file)) = true) useFiles.
Proof.
  induction folderData as [|file rest IH]; simpl; intros useFiles.
  - by intros [= <-].
  - destruct (messageIdByFilename (name file)) as [m|e] eqn:Em; simpl; [|done].
    destruct (unseen processed rest) as [us|e]; simpl; [|done].
    case_bool_decide; intros [= <-]; [by apply IH|].
    constructor; [by rewrite Em|by apply IH].
Qed.

(** The [forEach] at the end cannot throw on such files; it adds their
    message ids. *)
Lemma markProcessed_ids (useFiles : list DriveFileMetadata) : forall processed,
  Forall (fun file => isOk (messageIdByFilename (name file)) = true) useFiles ->
  markProcessed useFiles processed = (messageIdsOf useFiles ∪ processed, None).
Proof.
  induction useFiles as [|file rest IH]; intros processed Hall.
  - simpl. f_equal. unfold messageIdsOf. simpl. by rewrite (left_id_L ∅ (∪)).
  - inversion Hall as [|? ? Hfile Hrest]; subst. simpl.
    destruct (messageIdByFilename (name file)) as [m|e] eqn:Em; [|done].
    rewrite IH by done. f_equal. unfold messageIdsOf. simpl. rewrite Em. simpl.
    rewrite (assoc_L (∪)). f_equal. apply (comm_L (∪)).
Qed.

Lemma promiseAll_Ok {A B} (f : A -> result B) (ar : list A) (bs : list B) :
  promiseAll f ar = Ok bs ->
  length bs = length ar /\ Forall (fun a => isOk (f a) = true) ar.
Proof.
  revert bs. induction ar as [|a ar IH]; simpl; intros bs.
  - by intros [= <-].
  - destruct (f a) as [b|e] eqn:Ea; simpl; [|done].
    destruct (promiseAll f ar) as [bs'|e]; simpl; [|done].
    intros [= <-]. destruct (IH bs' eq_refl) as [Hl Hall].
    split; [simpl; lia|]. constructor; [by rewrite Ea|done].
Qed.

Lemma promiseAll_Throw {A B} (f : A -> result B) (ar : list A) :
  Exists (fun a => isOk (f a) = false) ar ->
  exists e, promiseAll f ar = Throw e.
Proof.
  induction 1 as [a ar Ha|a ar _ [e IH]]; simpl.
  - destruct (f a); [done|]. by eexists.
  - destruct (f a); simpl; [|by eexists]. rewrite IH. by eexists.
Qed.

(** C10. [readMessages] leaves [processedMessageIds] as it was whenever
    it throws, and it throws when the download of an unseen message
    throws; when it returns, every unseen message was downloaded and the
    set has grown by exactly their ids.  So a call after a failed one
    starts from the same set and treats the same messages as unseen. *)
Theorem readMessages_marks_after_downloads (net : Network) (processed : gset string) :
  let folderData := rev (default [] (payload (listResponse net))) in
  (forall e, (readMessages net processed).1 = Throw e ->
             (readMessages net processed).2 = processed)
  /\ (forall useFiles,
        ok (listResponse net) = true ->
        unseen processed folderData = Ok useFiles ->
        Exists (fun file => isOk (readJsonFileContent net (id file)) = false) useFiles ->
        exists e, readMessages net processed = (Throw e, processed))
  /\ (forall messages, (readMessages net processed).1 = Ok messages ->
        exists useFiles,
          unseen processed folderData = Ok useFiles
          /\ Forall (fun file => isOk (readJsonFileContent net (id file)) = true) useFiles
          /\ length messages = length useFiles
          /\ (readMessages net processed).2 = messageIdsOf useFiles ∪ processed)
  /\ (forall e net', (readMessages net processed).1 = Throw e ->
        readMessages net' (readMessages net processed).2 = readMessages net' processed).
Proof.
  intros folderData.
  assert (Hthrow : forall e, (readMessages net processed).1 = Throw e ->
                             (readMessages net processed).2 = processed).
  { intros e. unfold readMessages. destruct (negb (ok _)); [done|]. fold folderData.
    destruct (unseen processed folderData) as [useFiles|e0] eqn:Eu; [|done].
    destruct (promiseAll _ useFiles) as [contents|e1]; [|done].
    rewrite (markProcessed_ids useFiles processed) by (by eapply unseen_has_id).
    done. }
  split; [exact Hthrow|]. split; [|split].
  - intros useFiles Hok Hu Hex. unfold readMessages. rewrite Hok. simpl negb. cbv iota.
    fold folderData. rewrite Hu.
    destruct (promiseAll_Throw
                (fun file => bind (readJsonFileContent net (id file)) (fun content =>
                   Ok (mkMessage
                         (default EmptyString (head (split "_"%char (name file))))
                         content))) useFiles) as [e ->]; [|by exists e].
    eapply Exists_impl; [exact Hex|]. intros file. simpl.
    by destruct (readJsonFileContent net (id file)).
  - intros messages. unfold readMessages. destruct (negb (ok _)); [done|].
    fold folderData.
    destruct (unseen processed folderData) as [useFiles|e0] eqn:Eu; [|done].
    destruct (promiseAll _ useFiles) as [contents|e1] eqn:Ep; [|done].
    rewrite (markProcessed_ids useFiles processed) by (by eapply unseen_has_id).
    simpl. intros [= <-]. exists useFiles. split; [done|].
    apply promiseAll_Ok in Ep as [Hlen Hall]. split; [|done].
    eapply Forall_impl; [exact Hall|]. intros file. simpl.
    by destruct (readJsonFileContent net (id file)).
  - intros e net' He. by rewrite (Hthrow e He).
Qed.

End ReadMessagesFacts.

(** ** signaling.ts: the poll loop *)

Section PollLoopFacts.
Import Signaling.

Lemma onMessage_backoff (message : Message) (s : SignalingState) :
  backoffStepId (onMessage message s).1 = backoffStepId s
  /\ closed (onMessage message s).1 = closed s.
Proof.
  unfold onMessage. destruct (String.eqb _ _); [done|].
  destruct (peerBySenderId s !! senderId message);
    destruct (getField "i" (data message)) as [[v|]|e]; simpl; try done;
    by destruct (truthy v).
Qed.

Lemma forEachMessage_backoff (messages : list Message) : forall s,
  backoffStepId (forEachMessage messages s).1 = backoffStepId s
  /\ closed (forEachMessage messages s).1 = closed s.
Proof.
  induction messages as [|message rest IH]; intros s; simpl; [done|].
  pose proof (onMessage_backoff message s) as [Hb Hc].
  destruct (onMessage message s) as [s' [e|]]; simpl in *; [done|].
  destruct (IH s') as [Hb' Hc']. split; congruence.
Qed.

(** A poll never touches the step counter, whatever it reads. *)
Lemma processNewMessages_backoff (net : Network) (s : SignalingState) :
  backoffStepId (processNewMessages net s) = backoffStepId s
  /\ closed (processNewMessages net s) = closed s.
Proof.
  unfold processNewMessages, _processNewMessages.
  destruct (readMessages net (processedMessageIds s)) as [[messages|e] processed'];
    [|done].
  set (s1 := if (0 <? length messages)%nat then _ else _).
  destruct (forEachMessage_backoff messages s1) as [Hb Hc].
  rewrite Hb, Hc. unfold s1. by destruct (0 <? length messages)%nat.
Qed.

Lemma loopRound_step (net : Network) (s : SignalingState) :
  (loopRound net s).1 = BACKOFF_STEPS !! backoffStepId s
  /\ backoffStepId (loopRound net s).2
     = Nat.min (backoffStepId s + 1) MAX_BACKOFF_STEP_ID
  /\ closed (loopRound net s).2 = closed s.
Proof.
  unfold loopRound. simpl.
  destruct (processNewMessages_backoff net s) as [-> ->].
  split; [done|]. split; [|done].
  destruct (Nat.ltb_spec MAX_BACKOFF_STEP_ID (backoffStepId s + 1)); lia.
Qed.

Lemma run_rounds (polls : list Network) : forall s,
  closed s = false ->
  (backoffStepId s <= MAX_BACKOFF_STEP_ID)%nat ->
  (run (map Round polls) s).1
  = map (fun k => BACKOFF_STEPS !! Nat.min (backoffStepId s + k) MAX_BACKOFF_STEP_ID)
        (seq 0 (length polls))
  /\ backoffStepId (run (map Round polls) s).2
     = Nat.min (backoffStepId s + length polls) MAX_BACKOFF_STEP_ID.
Proof.
  induction polls as [|net rest IH]; intros s Hclosed Hle.
  - simpl. split; [done|]. lia.
  - cbn [map run length seq]. rewrite Hclosed.
    destruct (loopRound_step net s) as (Ht & Hb & Hc).
    destruct (loopRound net s) as [time s'] eqn:El. simpl in Ht, Hb, Hc.
    destruct (IH s' ltac:(congruence) ltac:(lia)) as [IH1 IH2].
    destruct (run (map Round rest) s') as [times s'']. simpl in IH1, IH2. simpl.
    split.
    + rewrite Ht, IH1. f_equal.
      * f_equal. lia.
      * rewrite <- seq_shift, map_map. apply map_ext. intros k. rewrite Hb.
        f_equal. lia.
    + rewrite IH2, Hb. lia.
Qed.

(** C4, as far as the code goes.  A round of the loop waits
    [BACKOFF_STEPS[backoffStepId]] and then raises the counter by one,
    up to 14, whether its poll found messages or not: [n] rounds in a
    row from counter [b] wait the entries [b], [b + 1], ... of the
    sequence, the last entry (120000 ms) from the 14th on.  The counter
    goes back to 0 in [resetReadLoop] only. *)
Theorem backoff_grows_until_reset (s : SignalingState) (polls : list Network) :
  closed s = false ->
  (backoffStepId s <= MAX_BACKOFF_STEP_ID)%nat ->
  (run (map Round polls) s).1
  = map (fun k => BACKOFF_STEPS !! Nat.min (backoffStepId s + k) MAX_BACKOFF_STEP_ID)
        (seq 0 (length polls))
  /\ backoffStepId (run (map Round polls) s).2
     = Nat.min (backoffStepId s + length polls) MAX_BACKOFF_STEP_ID
  /\ (forall net, backoffStepId (processNewMessages net s) = backoffStepId s)
  /\ (forall net, backoffStepId (resetReadLoop net s) = 0%nat)
  /\ BACKOFF_STEPS = [50; 50; 100; 100; 200; 400; 600; 1000; 2000; 4000; 8000;
                      15000; 30000; 60000; 120000]
  /\ BACKOFF_STEPS !! MAX_BACKOFF_STEP_ID = Some 120000.
Proof.
  intros Hclosed Hle.
  destruct (run_rounds polls s Hclosed Hle) as [H1 H2].
  split; [done|]. split; [done|]. split; [|done].
  intros net. apply processNewMessages_backoff.
Qed.

End PollLoopFacts.

(** ** signaling.ts: cleanup and listeners *)

Section LifecycleFacts.
Import Signaling.

Lemma cleanup_is_a_constant (folder : list DriveFileMetadata)
    (signalingFolderId : string) (maxAgeMs : Z) :
  cleanupOldSignalingMessages folder signalingFolderId maxAgeMs = (Ok 2, folder).
Proof. reflexivity. Qed.

(** C5 on the code.  A [signaling/] folder holds one file, created in
    2020; the cleanup with the default age returns 2 and the file is
    still there. *)
Theorem cleanup_keeps_old_file :
  cleanupOldSignalingMessages [Scenario.signalFile] "signaling" DEFAULT_MAX_AGE_MS
  = (Ok 2, [Scenario.signalFile]).
Proof. reflexivity. Qed.

Lemma addEventListener_elem_of (l : Listener) (ls : list Listener) :
  l ∈ addEventListener l ls.
Proof.
  unfold addEventListener. destruct (existsb (sameListener l) ls) eqn:E.
  - apply existsb_exists in E as (l' & Hin & Heq).
    apply andb_true_iff in Heq as [H1%String.eqb_eq H2%String.eqb_eq].
    destruct l, l'; simpl in *; subst. by apply list_elem_of_In.
  - set_solver.
Qed.

(** The listener on [document] outlives every [close()]. *)
Lemma visibilitychange_survives_close (b : Browser) (sessionId messageId now : string) :
  let '(s, env) := construct (Some b) sessionId messageId now in
  exists b', (close env s).2 = Some b'
    /\ ("visibilitychange", sessionId) ∈ documentListeners b'.
Proof.
  simpl. eexists. split; [reflexivity|]. simpl. apply addEventListener_elem_of.
Qed.

(** C6 on the code.  A state is constructed in a browser that has no
    listeners and is closed: the [online] listener is gone from
    [window], the [visibilitychange] listener is still on [document]. *)
Theorem close_leaves_document_listener :
  let '(s, env) := construct (Some Scenario.browser) "peerA" "msgA1" "1714557600000" in
  (close env s).2
  = Some (mkBrowser [] [("visibilitychange", "peerA")]).
Proof. reflexivity. Qed.

End LifecycleFacts.

(** ** index.ts: the life of the signaling state *)

Section OrchestratorFacts.
Import Index.

(** C8.  [start()] creates a [SignalingState] exactly when [live] is on
    (the option is absent or [true], not [false]) and [pull] is
    configured.  In that case it also
    subscribes to [resync$], so that an emission calls [reSync()], and
    then runs the original start; [cancel()] unsubscribes, closes the
    state and runs the original cancel, in this order.  Otherwise both
    are the original ones. *)
Theorem signaling_iff_live_and_pull (options : SyncOptionsGoogleDrive)
    (env : option Signaling.Browser) (sessionId messageId now : string) :
  let r0 := replicateGoogleDrive options in
  let r1 := (callStart env sessionId messageId now r0).1 in
  let env1 := (callStart env sessionId messageId now r0).2 in
  let r2 := (callCancel env1 r1).1 in
  (is_Some (signalingState r1)
   <-> live options <> Some false /\ is_Some (pull options))
  /\ (live options <> Some false -> is_Some (pull options) ->
      signalingState r1
        = Some (Signaling.construct env sessionId messageId now).1
      /\ log r1 = [NewSignalingState; Subscribe 0; CallStartBefore]
      /\ log (onResync r1) = log r1 ++ [ReSync]
      /\ log r2 = log r1 ++ [Unsubscribe 0; CloseSignalingState; CallCancelBefore]
      /\ subscriptions r2 = []
      /\ log (onResync r2) = log r2
      /\ exists s, signalingState r2 = Some s
           /\ Signaling.closed s = true /\ Signaling.resyncCompleted s = true)
  /\ (~ (live options <> Some false /\ is_Some (pull options)) ->
      log r1 = [CallStartBefore]
      /\ log r2 = [CallStartBefore; CallCancelBefore]
      /\ signalingState r2 = None).
Proof.
  intros r0 r1 env1 r2. subst r0 r1 env1 r2.
  unfold replicateGoogleDrive, liveOrDefault.
  assert (Hon : live options <> Some false
                <-> match live options with Some b => b | None => true end = true).
  { destruct (live options) as [[|]|]; split; congruence. }
  destruct (match live options with Some b => b | None => true end) eqn:El; simpl.
  - case_bool_decide as Hp; simpl.
    + split; [split; [intros _; split; [by apply Hon|done]|by eexists]|].
      split; [|tauto].
      intros _ _. repeat (split; [done|]). by eexists.
    + split.
      { split; [by intros [? ?]|tauto]. }
      split; [tauto|]. done.
  - assert (Hoff : ~ live options <> Some false) by (rewrite Hon; congruence).
    split.
    { split; [by intros [? ?]|by intros [? _]]. }
    split; [done|]. done.
Qed.

End OrchestratorFacts.

(** ** upstream.ts: conflicts of a batch *)

Section UpstreamFacts.
Import Upstream.

Variable DocType : Type.
Variable primary : DocType -> string.
Variable differs : option DocType -> DocType -> bool.

(** C1, as far as the tests go.  On a drained WAL [handleUpstreamBatch]
    returns its conflicts, and a row without [assumedMasterState] is
    among them exactly when it is in the batch and a file with its
    primary key exists under [docs/]. *)
Theorem insert_conflicts_iff_file_exists (docs : gmap string DocType)
    (rows : list (RxReplicationWriteToMasterRow DocType)) :
  exists conflicts wal,
    handleUpstreamBatch DocType primary differs docs None rows = Ok (conflicts, wal)
    /\ forall row, assumedMasterState DocType row = None ->
         (row ∈ conflicts
          <-> row ∈ rows /\ is_Some (docs !! primary (newDocumentState DocType row))).
Proof.
  unfold handleUpstreamBatch. simpl. eexists _, _. split; [reflexivity|].
  intros row Hnone.
  rewrite list_elem_of_In, filter_In, <- list_elem_of_In.
  unfold isConflict. rewrite Hnone. by rewrite bool_decide_eq_true.
Qed.

End UpstreamFacts.

(** ** The properties on concrete runs *)

Section Runs.
Import Scenario.

(** The second batch of the test: the three rows for documents that
    exist come back as conflicts although none of them has an
    [assumedMasterState]; the four others are staged, and [docs/] holds
    7 files once they are applied. *)
Lemma insert_rows_for_existing_files_conflict :
  Upstream.handleUpstreamBatch Human passportId humanDiffers
    docsAfterFirstBatch None (rows2 ++ nonConflict)
  = Ok (rows2, Some nonConflict)
  /\ Forall (fun row => Upstream.assumedMasterState Human row = None) rows2
  /\ size (Upstream.processWalFile Human passportId
             docsAfterFirstBatch (Some nonConflict)).1 = 7%nat.
Proof.
  split; [vm_compute; reflexivity|]. split; [|vm_compute; reflexivity].
  repeat constructor.
Qed.

Lemma insert_conflicts_iff_file_exists_witness :
  Upstream.assumedMasterState Human (toWriteRow ("doc-0", 2) None) = None
  /\ toWriteRow ("doc-0", 2) None ∈ rows2 ++ nonConflict
  /\ is_Some (docsAfterFirstBatch !! "doc-0")
  /\ exists conflicts wal,
       Upstream.handleUpstreamBatch Human passportId humanDiffers
         docsAfterFirstBatch None (rows2 ++ nonConflict) = Ok (conflicts, wal)
       /\ toWriteRow ("doc-0", 2) None ∈ conflicts.
Proof.
  assert (Hin : toWriteRow ("doc-0", 2) None ∈ rows2 ++ nonConflict)
    by apply list_elem_of_here.
  assert (Hfile : is_Some (docsAfterFirstBatch !! "doc-0"))
    by (vm_compute; eexists; reflexivity).
  split; [reflexivity|]. split; [exact Hin|]. split; [exact Hfile|].
  destruct (insert_conflicts_iff_file_exists Human passportId humanDiffers
              docsAfterFirstBatch (rows2 ++ nonConflict))
    as (conflicts & wal & Heq & Hiff).
  exists conflicts, wal. split; [exact Heq|].
  apply (Hiff (toWriteRow ("doc-0", 2) None) eq_refl). split; [exact Hin|exact Hfile].
Defined.

Lemma listing_answers_checkpoint1 :
  ListingOrder.answers (Downstream.changesQuery init (Some checkpoint1) 3) listing.
Proof.
  unfold listing. intros file Hin.
  repeat (apply elem_of_cons in Hin as [->|Hin]);
    [eexists; (split; [reflexivity|split; [discriminate|]]);
     intros since [= <-]; reflexivity..|].
  by apply elem_of_nil in Hin.
Defined.

Lemma fetchChanges_checkpoint_monotonic_witness :
  ok (listOk (Downstream.changesQuery init (Some checkpoint1) 3) 0%nat) = true
  /\ ListingOrder.answers (Downstream.changesQuery init (Some checkpoint1) 3)
       (payload (listOk (Downstream.changesQuery init (Some checkpoint1) 3) 0%nat))
  /\ exists c2 files,
       Downstream.fetchChangesFiles listOk init (Some checkpoint1) 3
       = Ok (Some c2, files)
       /\ timeLe (Checkpoint.modifiedTime checkpoint1) (Checkpoint.modifiedTime c2).
Proof.
  split; [reflexivity|]. split; [exact listing_answers_checkpoint1|].
  destruct (fetchChanges_checkpoint_monotonic listOk init checkpoint1 3 eq_refl
              listing_answers_checkpoint1) as [(c2 & files & Heq & Hle & _) _].
  exists c2, files. split; [exact Heq|exact Hle].
Defined.

Lemma fetchChangesFiles_checkpoint_rule_witness :
  0 <= 3
  /\ Downstream.fetchChangesFiles listOk init (Some checkpoint1) 3
     = Ok (Some (Checkpoint.mk t2 ["doc-c.json"; "doc-d.json"; "doc-a.json"]),
           [file "id-b" "doc-b.json" t1; file "id-c" "doc-c.json" t2;
            file "id-d" "doc-d.json" t2]).
Proof.
  split; [lia|].
  apply (fetchChangesFiles_checkpoint_rule listOk init (Some checkpoint1) 3
           (file "id-b" "doc-b.json" t1) (file "id-d" "doc-d.json" t2) t2);
    [reflexivity|lia|reflexivity|reflexivity|reflexivity|discriminate].
Defined.

(** A round whose poll reads a new message: the counter goes from 3 to
    4 and the following round waits 200 ms, the entry after the 100 ms
    this round waited; the first entry of the sequence is 50 ms. *)
Lemma nonempty_poll_keeps_counting :
  (Signaling.readMessages beaconNetwork (Signaling.processedMessageIds peerA3)).1
  = Ok [Signaling.mkMessage "peerB" (JObj [("i", JStr "exist")])]
  /\ Signaling.backoffStepId peerA3 = 3%nat
  /\ (Signaling.loopRound beaconNetwork peerA3).1 = Some 100
  /\ Signaling.backoffStepId (Signaling.loopRound beaconNetwork peerA3).2 = 4%nat
  /\ (Signaling.loopRound emptyNetwork (Signaling.loopRound beaconNetwork peerA3).2).1
     = Some 200
  /\ Signaling.BACKOFF_STEPS !! 0%nat = Some 50.
Proof. vm_compute. repeat split; reflexivity. Qed.

Lemma backoff_grows_until_reset_witness :
  Signaling.closed peerA = false
  /\ (Signaling.backoffStepId peerA <= Signaling.MAX_BACKOFF_STEP_ID)%nat
  /\ (Signaling.run
        (map Signaling.Round [beaconNetwork; emptyNetwork; emptyNetwork]) peerA).1
     = [Some 50; Some 50; Some 100]
  /\ Signaling.backoffStepId
       (Signaling.run
          (map Signaling.Round [beaconNetwork; emptyNetwork; emptyNetwork]) peerA).2
     = 3%nat.
Proof.
  assert (Hle : (Signaling.backoffStepId peerA <= Signaling.MAX_BACKOFF_STEP_ID)%nat)
    by (vm_compute; lia).
  split; [reflexivity|]. split; [exact Hle|].
  destruct (backoff_grows_until_reset peerA
              [beaconNetwork; emptyNetwork; emptyNetwork] eq_refl Hle)
    as (Hdelays & Hstep & _).
  split; [exact Hdelays|exact Hstep].
Defined.



Lemma signaling_iff_live_and_pull_witness :
  Index.live liveOptions <> Some false
  /\ is_Some (Index.pull liveOptions)
  /\ Index.log
       (Index.callCancel
          (Index.callStart (Some browser) "peerA" "msgA1" "1714557600000"
             (Index.replicateGoogleDrive liveOptions)).2
          (Index.callStart (Some browser) "peerA" "msgA1" "1714557600000"
             (Index.replicateGoogleDrive liveOptions)).1).1
     = [Index.NewSignalingState; Index.Subscribe 0; Index.CallStartBefore;
        Index.Unsubscribe 0; Index.CloseSignalingState; Index.CallCancelBefore]
  /\ ~ (Index.live onceOptions <> Some false /\ is_Some (Index.pull onceOptions))
  /\ Index.log
       (Index.callStart (Some browser) "peerA" "msgA1" "1714557600000"
          (Index.replicateGoogleDrive onceOptions)).1
     = [Index.CallStartBefore].
Proof.
  assert (Hlive : Index.live liveOptions <> Some false) by discriminate.
  assert (Hpull : is_Some (Index.pull liveOptions)) by (eexists; reflexivity).
  assert (Honce : ~ (Index.live onceOptions <> Some false
                     /\ is_Some (Index.pull onceOptions)))
    by (intros [H _]; apply H; reflexivity).
  split; [exact Hlive|]. split; [exact Hpull|].
  destruct (signaling_iff_live_and_pull liveOptions (Some browser)
              "peerA" "msgA1" "1714557600000") as (_ & Hon & _).
  destruct (Hon Hlive Hpull) as (_ & Hstart & _ & Hcancel & _).
  split; [rewrite Hcancel, Hstart; reflexivity|].
  split; [exact Honce|].
  destruct (signaling_iff_live_and_pull onceOptions (Some browser)
              "peerA" "msgA1" "1714557600000") as (_ & _ & Hoff).
  exact (proj1 (Hoff Honce)).
Defined.



Lemma readMessages_marks_after_downloads_witness :
  ok (Signaling.listResponse failingNetwork) = true
  /\ Signaling.unseen ∅ [signalFile] = Ok [signalFile]
  /\ Exists (fun file =>
               isOk (Signaling.readJsonFileContent failingNetwork (id file)) = false)
            [signalFile]
  /\ exists e, Signaling.readMessages failingNetwork ∅ = (Throw e, ∅).
Proof.
  assert (Hex : Exists (fun file =>
               isOk (Signaling.readJsonFileContent failingNetwork (id file)) = false)
            [signalFile]) by (constructor; reflexivity).
  assert (Hun : Signaling.unseen ∅ [signalFile] = Ok [signalFile])
    by (vm_compute; reflexivity).
  split; [reflexivity|]. split; [exact Hun|]. split; [exact Hex|].
  destruct (readMessages_marks_after_downloads failingNetwork ∅) as (_ & Hthrow & _).
  exact (Hthrow [signalFile] eq_refl Hun Hex).
Defined.

End Runs.

(** * Further properties *)

(** ** downstream.ts: pages *)

Section PageFacts.
Import Downstream ListingOrder.

Lemma StronglySorted_sublist {A} (R : relation A) (l1 l2 : list A) :
  l1 `sublist_of` l2 -> StronglySorted R l2 -> StronglySorted R l1.
Proof.
  induction 1 as [|x l1 l2 Hsub IH|x l1 l2 Hsub IH]; intros Hs.
  - constructor.
  - apply StronglySorted_inv in Hs as [Hs Hall]. constructor; [by apply IH|].
    apply Forall_forall. intros y Hy. rewrite Forall_forall in Hall.
    apply Hall. by eapply elem_of_sublist.
  - apply StronglySorted_inv in Hs as [Hs _]. by apply IH.
Qed.

(** What a fulfilled call returned, read off the code: the kept files
    and, when there is one, the checkpoint built from the last. *)
Lemma fetchChangesFiles_Ok
    (fetch : ListQuery -> nat -> Response (list DriveFileMetadata))
    (init : DriveStructure) (checkpoint : option GoogleDriveCheckpointType)
    (batchSize : Z) (newCheckpoint : option GoogleDriveCheckpointType)
    (files : list DriveFileMetadata) :
  fetchChangesFiles fetch init checkpoint batchSize = Ok (newCheckpoint, files) ->
  let res := fetch (changesQuery init checkpoint batchSize) 0%nat in
  ok res = true
  /\ files = slice0 match checkpoint with
                    | Some c => List.filter (notYetDelivered c) (payload res)
                    | None => payload res
                    end batchSize
  /\ (files = [] -> newCheckpoint = checkpoint)
  /\ (forall l, last files = Some l ->
        exists t first docIds,
          modifiedTime l = Some t /\ t <> EmptyString
          /\ head files = Some first
          /\ newCheckpoint = Some (Checkpoint.mk t docIds)
          /\ (forall file, file ∈ files -> modifiedTime file = Some t ->
                name file ∈ docIds)
          /\ (forall c, checkpoint = Some c ->
                modifiedTime first = Some (Checkpoint.modifiedTime c) ->
                forall n, n ∈ Checkpoint.docIdsWithSameModifiedTime c -> n ∈ docIds)).
Proof.
  intros H. cbv zeta. unfold fetchChangesFiles in H.
  set (res := fetch (changesQuery init checkpoint batchSize) 0%nat) in *.
  destruct (ok res) eqn:Hok; simpl in H; [|discriminate].
  set (kept := slice0 _ _) in *. unfold lastOfArray in H.
  destruct (last kept) as [l|] eqn:El.
  - destruct (modifiedTime l) as [t|] eqn:Et; simpl in H; [|discriminate].
    destruct (String.eqb t "") eqn:Ee; simpl in H; [discriminate|].
    injection H as <- <-.
    split; [done|]. split; [done|]. split.
    { intros Hnil. rewrite Hnil in El. discriminate. }
    intros l' Hl'. assert (l' = l) as -> by congruence. clear Hl'.
    apply String.eqb_neq in Ee.
    destruct kept as [|first kept'] eqn:Ek; [discriminate|].
    eexists t, first, _. split; [done|]. split; [done|]. split; [done|].
    split; [reflexivity|]. split.
    + intros file Hin Hfile.
      assert (Hn : name file ∈ map name
                (List.filter (fun f => strictEqStr (modifiedTime f) t) (first :: kept'))).
      { apply list_elem_of_fmap. exists file. split; [done|].
        apply list_elem_of_In, filter_In. split; [by apply list_elem_of_In|].
        by apply strictEqStr_eq. }
      destruct checkpoint as [c|]; [|exact Hn].
      destruct (strictEqStr _ _); [|exact Hn].
      apply elem_of_app. by left.
    + intros c -> Hfirst n Hn. simpl.
      rewrite (proj2 (strictEqStr_eq _ _) Hfirst). apply elem_of_app. by right.
  - injection H as <- <-. apply last_None in El.
    split; [done|]. split; [done|]. split; [done|].
    intros l. rewrite El. discriminate.
Qed.

Lemma fetchChangesFiles_kept
    (fetch : ListQuery -> nat -> Response (list DriveFileMetadata))
    (init : DriveStructure) (checkpoint : option GoogleDriveCheckpointType)
    (batchSize : Z) (newCheckpoint : option GoogleDriveCheckpointType)
    (files : list DriveFileMetadata) :
  fetchChangesFiles fetch init checkpoint batchSize = Ok (newCheckpoint, files) ->
  files `sublist_of` payload (fetch (changesQuery init checkpoint batchSize) 0%nat)
  /\ (forall file, file ∈ files -> ~ delivered checkpoint file)
  /\ (0 <= batchSize -> Z.of_nat (length files) <= batchSize).
Proof.
  intros H. split; [by eapply fetchChangesFiles_sublist|].
  destruct (fetchChangesFiles_Ok _ _ _ _ _ _ H) as (_ & Hfiles & _). split.
  - intros file Hin. rewrite Hfiles in Hin. apply slice0_elem_of in Hin.
    destruct checkpoint as [c|]; [|simpl; tauto].
    apply list_elem_of_In, filter_In in Hin as [_ Hn].
    by apply notYetDelivered_spec.
  - intros Hb. rewrite Hfiles, slice0_take, length_take by done. lia.
Qed.

(** A fulfilled call returns a subsequence of the listing that holds no
    delivered file and, for a batch size that is not negative, at most
    [batchSize] files. *)
Theorem fetchChangesFiles_page
    (fetch : ListQuery -> nat -> Response (list DriveFileMetadata))
    (init : DriveStructure) (checkpoint : option GoogleDriveCheckpointType)
    (batchSize : Z) (newCheckpoint : option GoogleDriveCheckpointType)
    (files : list DriveFileMetadata) :
  fetchChangesFiles fetch init checkpoint batchSize = Ok (newCheckpoint, files) ->
  files `sublist_of` payload (fetch (changesQuery init checkpoint batchSize) 0%nat)
  /\ (forall file, file ∈ files -> ~ delivered checkpoint file)
  /\ (0 <= batchSize -> Z.of_nat (length files) <= batchSize).
Proof. apply fetchChangesFiles_kept. Qed.

(** The page is full whenever enough undelivered files were listed: the
    number of returned files is the smaller of [batchSize] and the
    number of listed files that are not delivered.  So a listing of
    [batchSize + 6] files of which at most 6 are delivered gives exactly
    [batchSize] files. *)
Theorem fetchChangesFiles_overfetch
    (fetch : ListQuery -> nat -> Response (list DriveFileMetadata))
    (init : DriveStructure) (checkpoint : option GoogleDriveCheckpointType)
    (batchSize : Z) (newCheckpoint : option GoogleDriveCheckpointType)
    (files : list DriveFileMetadata) :
  let listing := payload (fetch (changesQuery init checkpoint batchSize) 0%nat) in
  let seen := length (filter (delivered checkpoint) listing) in
  0 <= batchSize ->
  fetchChangesFiles fetch init checkpoint batchSize = Ok (newCheckpoint, files) ->
  Z.of_nat (length files)
  = Z.min batchSize (Z.of_nat (length listing) - Z.of_nat seen)
  /\ (Z.of_nat (length listing) = pageSize (changesQuery init checkpoint batchSize) ->
      Z.of_nat seen <= OVERFETCH_AMOUNT ->
      Z.of_nat (length files) = batchSize).
Proof.
  intros listing seen Hb H.
  destruct (fetchChangesFiles_Ok _ _ _ _ _ _ H) as (_ & Hfiles & _).
  fold listing in Hfiles. rewrite kept_by_code in Hfiles by done.
  assert (Hcount : (length (filter (fun file => ~ delivered checkpoint file) listing)
                    + seen = length listing)%nat).
  { unfold seen. clear. induction listing as [|x l IH]; [done|].
    rewrite !filter_cons.
    destruct (decide (delivered checkpoint x)) as [Hd|Hd].
    - rewrite decide_False by tauto. simpl. lia.
    - rewrite decide_True by done. simpl. lia. }
  assert (Hlen : Z.of_nat (length files)
                 = Z.min batchSize (Z.of_nat (length listing) - Z.of_nat seen)).
  { rewrite Hfiles. unfold keptFiles. rewrite length_take. lia. }
  split; [exact Hlen|].
  unfold changesQuery, OVERFETCH_AMOUNT. simpl. lia.
Qed.

Lemma not_after_last (files : list DriveFileMetadata) (l file : DriveFileMetadata)
    (t : string) :
  sortedByTime files -> last files = Some l -> modifiedTime l = Some t ->
  file ∈ files ->
  exists a, modifiedTime file = Some a /\ timeLe a t.
Proof.
  intros Hs Hl Ht Hin. apply last_Some in Hl as [pre ->].
  apply elem_of_app in Hin as [Hin|Hin].
  - destruct (StronglySorted_app_1_elem_of _ _ _ file l Hs Hin) as (a & b & Ha & Hb & Hle);
      [by apply list_elem_of_singleton|].
    exists a. split; [done|]. congruence.
  - apply list_elem_of_singleton in Hin as ->. exists t. split; [done|apply timeLe_refl].
Qed.

(** Two calls in a row, the second with the checkpoint of the first:
    when the first listing is ordered by time and the second honours
    the query, no file of the second page has the name and the
    [modifiedTime] of a file of the first page. *)
Theorem consecutive_pages_share_no_file
    (fetch1 fetch2 : ListQuery -> nat -> Response (list DriveFileMetadata))
    (init : DriveStructure) (checkpoint0 : option GoogleDriveCheckpointType)
    (batchSize1 batchSize2 : Z) (c1 : GoogleDriveCheckpointType)
    (checkpoint2 : option GoogleDriveCheckpointType)
    (files1 files2 : list DriveFileMetadata) :
  sortedByTime (payload (fetch1 (changesQuery init checkpoint0 batchSize1) 0%nat)) ->
  fetchChangesFiles fetch1 init checkpoint0 batchSize1 = Ok (Some c1, files1) ->
  honours c1 (payload (fetch2 (changesQuery init (Some c1) batchSize2) 0%nat)) ->
  fetchChangesFiles fetch2 init (Some c1) batchSize2 = Ok (checkpoint2, files2) ->
  forall f1 f2, f1 ∈ files1 -> f2 ∈ files2 ->
    ~ (name f1 = name f2 /\ modifiedTime f1 = modifiedTime f2).
Proof.
  intros Hsorted H1 Hhon H2 f1 f2 Hf1 Hf2 [Hname Htime].
  destruct (fetchChangesFiles_kept _ _ _ _ _ _ H2) as (Hsub2 & Hnew & _).
  pose proof (fetchChangesFiles_sublist _ _ _ _ _ _ H1) as Hsub1.
  destruct (fetchChangesFiles_Ok _ _ _ _ _ _ H1) as (_ & _ & _ & Hlast).
  destruct (last files1) as [l|] eqn:El;
    [|apply last_None in El; rewrite El in Hf1; by apply elem_of_nil in Hf1].
  destruct (Hlast l eq_refl) as (t & first & docIds & Ht & _ & _ & Hc1 & Hnames & _).
  injection Hc1 as ->.
  destruct (not_after_last files1 l f1 t) as (a & Ha & Hle); try done.
  { by eapply StronglySorted_sublist. }
  destruct (Hhon f2 (elem_of_sublist _ _ _ Hf2 Hsub2)) as (b & Hb & Hge).
  simpl in Hge. assert (a = b) as <- by congruence.
  assert (a = t) as -> by (by apply String.leb_antisym).
  apply (Hnew f2 Hf2). simpl. split; [done|].
  rewrite <- Hname. by apply Hnames.
Qed.

(** While the checkpoint's time does not move, what was delivered stays
    delivered: with a listing ordered by time that honours the query, a
    new checkpoint at the old [modifiedTime] marks every file the old
    one marked. *)
Theorem delivered_stays_delivered
    (fetch : ListQuery -> nat -> Response (list DriveFileMetadata))
    (init : DriveStructure) (c c2 : GoogleDriveCheckpointType) (batchSize : Z)
    (files : list DriveFileMetadata) :
  let listing := payload (fetch (changesQuery init (Some c) batchSize) 0%nat) in
  sortedByTime listing ->
  honours c listing ->
  fetchChangesFiles fetch init (Some c) batchSize = Ok (Some c2, files) ->
  Checkpoint.modifiedTime c2 = Checkpoint.modifiedTime c ->
  forall file, delivered (Some c) file -> delivered (Some c2) file.
Proof.
  intros listing Hsorted Hhon H Htime file [Hf Hn].
  pose proof (fetchChangesFiles_sublist _ _ _ _ _ _ H) as Hsub. fold listing in Hsub.
  destruct (fetchChangesFiles_Ok _ _ _ _ _ _ H) as (_ & _ & Hnil & Hlast).
  destruct (last files) as [l|] eqn:El.
  - destruct (Hlast l eq_refl) as (t & first & docIds & Ht & _ & Hfirst & Hc2 & _ & Hold).
    injection Hc2 as ->. simpl in *. subst t.
    assert (Hin : first ∈ files).
    { destruct files; [done|]. injection Hfirst as ->. apply list_elem_of_here. }
    destruct (not_after_last files l first (Checkpoint.modifiedTime c))
      as (a & Ha & Hle); try done.
    { by eapply StronglySorted_sublist. }
    destruct (Hhon first (elem_of_sublist _ _ _ Hin Hsub)) as (b & Hb & Hge).
    assert (a = b) as <- by congruence.
    assert (a = Checkpoint.modifiedTime c) as -> by (by apply String.leb_antisym).
    split; [done|]. by apply (Hold c eq_refl Ha).
  - apply last_None in El. specialize (Hnil El). injection Hnil as ->. by split.
Qed.

(** How the call fails: with the fetch error of the listing when the
    listing is not answered with a 2xx status, and through
    [ensureNotFalsy] when the last kept file has no [modifiedTime]; so a
    page with files never comes back without a checkpoint at the
    non-empty [modifiedTime] of its last file. *)
Theorem fetchChangesFiles_throws
    (fetch : ListQuery -> nat -> Response (list DriveFileMetadata))
    (init : DriveStructure) (checkpoint : option GoogleDriveCheckpointType)
    (batchSize : Z) :
  let res := fetch (changesQuery init checkpoint batchSize) 0%nat in
  let kept := keptFiles checkpoint (payload res) batchSize in
  0 <= batchSize ->
  (ok res = false ->
   fetchChangesFiles fetch init checkpoint batchSize
   = Throw (RxFetchError (status res)))
  /\ (ok res = true ->
      forall l, last kept = Some l ->
        modifiedTime l = None \/ modifiedTime l = Some EmptyString ->
        fetchChangesFiles fetch init checkpoint batchSize = Throw NotFalsyError)
  /\ (forall newCheckpoint files l,
        fetchChangesFiles fetch init checkpoint batchSize = Ok (newCheckpoint, files) ->
        last files = Some l ->
        exists t docIds,
          modifiedTime l = Some t /\ t <> EmptyString
          /\ newCheckpoint = Some (Checkpoint.mk t docIds)).
Proof.
  intros res kept Hb. split; [|split].
  - intros Hok. unfold fetchChangesFiles. fold res. by rewrite Hok.
  - intros Hok l El Hbad. unfold fetchChangesFiles. fold res. rewrite Hok. simpl.
    rewrite kept_by_code by done. fold kept. unfold lastOfArray. rewrite El.
    by destruct Hbad as [->| ->].
  - intros newCheckpoint files l Hret El.
    destruct (fetchChangesFiles_Ok _ _ _ _ _ _ Hret) as (_ & _ & _ & Hlast).
    destruct (Hlast l El) as (t & first & docIds & Ht & Hne & _ & Hc & _).
    by exists t, docIds.
Qed.

End PageFacts.

(** ** document-handling.ts: what the retries achieve *)

Section RetryFacts.
Import DocumentHandling.

Variable fetch : string -> nat -> Response Body.
Variable jitter : string -> nat -> Z.

(** A download settles on the first response whose status is not one of
    the retried ones, or on the fifth response: up to four refusals in a
    row are absorbed, and before request [i + 1] it has slept
    [250 * 2^i] ms plus the jitter. *)
Theorem fetchOne_absorbs_refusals (fileId : string) (k : nat) :
  (k <= 4)%nat ->
  (forall i, (i < k)%nat -> retryStatus (status (fetch fileId i)) = true) ->
  ((k < 4)%nat -> retryStatus (status (fetch fileId k)) = false) ->
  let d := fetchOne fetch jitter fileId 0 in
  outcome d = settleOn (fetch fileId k)
  /\ requests d = S k
  /\ slept d = map (fun i => 250 * 2 ^ Z.of_nat i + jitter fileId i) (seq 0 k).
Proof.
  intros Hk Hretry Hstop d.
  destruct (fetchOne_policy fetch jitter fileId 4 0 eq_refl) as [[H1 H5] Hs Hd Ho Hlast].
  fold d in H1, H5, Hs, Hd, Ho, Hlast. simpl in *.
  assert (Hr : requests d = S k).
  { destruct (Nat.lt_trichotomy (requests d - 1) k) as [Hlt|[Heq|Hgt]]; [|lia|].
    - rewrite Hretry in Hlast by done. by specialize (Hlast ltac:(lia)).
    - destruct (lookup_lt_is_Some_2 (slept d) k ltac:(lia)) as [delay Hdelay].
      destruct (Hd k delay Hdelay) as [Hrk _].
      rewrite Hstop in Hrk by lia. done. }
  split; [rewrite Ho, Hr; f_equal; f_equal; lia|]. split; [done|].
  apply list_eq. intros i. rewrite list_lookup_fmap.
  destruct (decide (i < k)%nat) as [Hi|Hi].
  - rewrite lookup_seq_lt by done. simpl.
    destruct (lookup_lt_is_Some_2 (slept d) i ltac:(lia)) as [delay Hdelay].
    rewrite Hdelay. by destruct (Hd i delay Hdelay) as [_ ->].
  - rewrite lookup_seq_ge by lia. simpl. apply lookup_ge_None. lia.
Qed.

Lemma sum_of_delays (l : list Z) :
  (length l <= 4)%nat ->
  (forall i delay, l !! i = Some delay ->
     250 * 2 ^ Z.of_nat i <= delay < 250 * 2 ^ Z.of_nat i + 200) ->
  250 * (2 ^ Z.of_nat (length l) - 1) <= foldr Z.add 0 l <= 4546.
Proof.
  intros Hlen Hall.
  destruct l as [|a [|b [|c [|d [|x l]]]]]; simpl in Hlen; try lia.
  - simpl. lia.
  - pose proof (Hall 0%nat a eq_refl). simpl in *. lia.
  - pose proof (Hall 0%nat a eq_refl). pose proof (Hall 1%nat b eq_refl).
    simpl in *. lia.
  - pose proof (Hall 0%nat a eq_refl). pose proof (Hall 1%nat b eq_refl).
    pose proof (Hall 2%nat c eq_refl). simpl in *. lia.
  - pose proof (Hall 0%nat a eq_refl). pose proof (Hall 1%nat b eq_refl).
    pose proof (Hall 2%nat c eq_refl). pose proof (Hall 3%nat d eq_refl).
    simpl in *. lia.
Qed.

(** A download sleeps at most 4546 ms in all (3750 ms of backoff and
    four jitters of at most 199 ms), and at least [250 * (2^n - 1)] ms
    when it retried [n] times. *)
Theorem fetchOne_total_sleep (fileId : string) :
  (forall f a, 0 <= jitter f a < 200) ->
  let d := fetchOne fetch jitter fileId 0 in
  250 * (2 ^ Z.of_nat (requests d - 1) - 1) <= foldr Z.add 0 (slept d) <= 4546.
Proof.
  intros Hj d.
  destruct (fetchOne_policy fetch jitter fileId 4 0 eq_refl) as [[H1 H5] Hs Hd _ _].
  fold d in H1, H5, Hs, Hd. simpl in *.
  replace (requests d - 1)%nat with (length (slept d)) by lia.
  apply sum_of_delays; [lia|].
  intros i delay Hi. destruct (Hd i delay Hi) as [_ ->].
  specialize (Hj fileId i). lia.
Qed.

End RetryFacts.

(** ** document-handling.ts: the results of fetchDocumentContents *)

Section ContentsFacts.
Import DocumentHandling PoolById.

Variable fetch : string -> nat -> Response Body.
Variable jitter : string -> nat -> Z.
Variable fileIds : list string.

Lemma resume_byId (w : nat) (p : Pool) :
  byIdInv fetch jitter fileIds p ->
  byIdInv fetch jitter fileIds (resume fetch jitter fileIds w p).
Proof.
  intros [Hby Hord]. unfold resume.
  destruct (workers p !! w) as [[i| |e]|]; try done.
  destruct (fileIds !! i) as [fileId|] eqn:Hi; [|done].
  destruct (bind (outcome (fetchOne fetch jitter fileId 0)) ensureNotFalsy)
    as [doc|e] eqn:Hd; [|done].
  unfold claim, setWorker. simpl.
  destruct (length fileIds <=? nextIndex p)%nat; simpl.
  all: split; simpl.
  all: try (intros f d; destruct (decide (f = fileId)) as [->|Hne];
            [rewrite lookup_insert_eq; intros [= <-];
             split; [by eapply list_elem_of_lookup_2|done]
            |rewrite lookup_insert_ne by done; apply Hby]).
  all: intros j f d Hf Hj; destruct (decide (f = fileId)) as [->|Hne];
    [rewrite lookup_insert_eq; by eexists|].
  all: rewrite lookup_insert_ne by done; apply (Hord j f d Hf).
  all: destruct (decide (j = i)) as [->|Hji]; [congruence|].
  all: by rewrite list_lookup_insert_ne in Hj.
Qed.

Lemma runPool_byId (fuel : nat) : forall (sched : nat -> nat) (k : nat) (p q : Pool),
  byIdInv fetch jitter fileIds p ->
  runPool fetch jitter fileIds fuel sched k p = Some (Ok q) ->
  byIdInv fetch jitter fileIds q.
Proof.
  induction fuel as [|fuel IH]; intros sched k p q Hinv; simpl.
  - destruct (settled p) as [r|] eqn:Es; [|done]. intros [= ->].
    by destruct (settled_fulfilled p q Es) as [-> _].
  - destruct (settled p) as [r|] eqn:Es.
    + intros [= ->]. by destruct (settled_fulfilled p q Es) as [-> _].
    + destruct (awaiting p !! _) as [w|]; [|done].
      apply IH. by apply resume_byId.
Qed.

Lemma spawn_byId (c : nat) :
  byIdInv fetch jitter fileIds
    (spawn fileIds c (mkPool 0 (replicate (length fileIds) None) ∅ [])).
Proof.
  rewrite spawn_app. split; simpl.
  - intros fileId doc. by rewrite lookup_empty.
  - intros i fileId doc _ Hi. apply lookup_replicate in Hi as [? _]. done.
Qed.


(** One download that fails, or whose content is empty or falsy, makes
    the whole call reject. *)
Theorem fetchDocumentContents_rejects (concurrency : Z) (sched : nat -> nat)
    (fileId : string) :
  1 <= concurrency ->
  fileId ∈ fileIds ->
  (forall doc, outcome (fetchOne fetch jitter fileId 0) = Ok (Some doc) ->
               truthy doc = false) ->
  exists e, fetchDocumentContents fetch jitter fileIds concurrency sched = Some (Throw e).
Proof.
  intros Hc (i & Hi)%list_elem_of_lookup_1 Hbad.
  destruct (fetchDocumentContents_in_order fetch jitter fileIds concurrency sched Hc)
    as (r & Hr & Hok & _).
  destruct r as [contents|e]; [|by exists e].
  destruct (Hok contents eq_refl) as [_ Hfilled].
  destruct (Hfilled i fileId Hi) as (doc & Hdoc & Ht & _).
  rewrite (Hbad doc Hdoc) in Ht. done.
Qed.

End ContentsFacts.

Section EmptyPageFacts.
Import DocumentHandling Downstream.

(** A page without files needs no download: [fetchChanges] returns the
    checkpoint of [fetchChangesFiles] and no document, whatever the
    downloads would have answered. *)
Theorem fetchChanges_empty_page
    (fetch : ListQuery -> nat -> Response (list DriveFileMetadata))
    (download : string -> nat -> Response Body) (jitter : string -> nat -> Z)
    (sched : nat -> nat) (init : DriveStructure)
    (checkpoint newCheckpoint : option GoogleDriveCheckpointType) (batchSize : Z) :
  fetchChangesFiles fetch init checkpoint batchSize = Ok (newCheckpoint, []) ->
  fetchChanges fetch download jitter sched init checkpoint batchSize
  = Some (Ok (checkpoint, [])).
Proof.
  intros H. unfold fetchChanges. rewrite H.
  rewrite (fetchChangesFiles_nothing_kept _ _ _ _ _ H). reflexivity.
Qed.

End EmptyPageFacts.

(** ** document-handling.ts: updateDocumentFiles *)

Section UpdateFacts.
Import DocumentUpdate.

Variable DocType : Type.
Variable primary : DocType -> string.
Variable patch : PlainObject.Value -> DocType -> Response (result json).
Variable fileIdByDocId : gmap string string.
Variable docs : list DocType.

Local Abbreviation next := (DocumentUpdate.next DocType primary fileIdByDocId).
Local Abbreviation resume := (DocumentUpdate.resume DocType primary patch fileIdByDocId).
Local Abbreviation spawn := (DocumentUpdate.spawn DocType primary fileIdByDocId).
Local Abbreviation run := (DocumentUpdate.run DocType primary patch fileIdByDocId).
Local Abbreviation updatable := (DocumentUpdate.updatable DocType primary patch fileIdByDocId).
Local Abbreviation Inv := (DocumentUpdate.Inv DocType primary patch fileIdByDocId docs).
Local Abbreviation remaining := (DocumentUpdate.remaining DocType).
Local Abbreviation State := (DocumentUpdate.State DocType).
Local Abbreviation Worker := (DocumentUpdate.Worker DocType).

Local Abbreviation stored := (DocumentUpdate.stored DocType primary).
Local Abbreviation culprit := (DocumentUpdate.culprit DocType primary patch fileIdByDocId docs).
Local Abbreviation SentInOrder := (DocumentUpdate.SentInOrder DocType primary fileIdByDocId docs).

Lemma upd_awaitingFrom_lookup (ws : list Worker) : forall k j w,
  awaitingFrom DocType k ws !! j = Some w ->
  exists doc fileId, (k <= w)%nat /\ ws !! (w - k)%nat = Some (Awaiting DocType doc fileId).
Proof.
  induction ws as [|wk ws IH]; intros k j w; simpl; [done|].
  assert (Hrec : awaitingFrom DocType (S k) ws !! j = Some w ->
    exists doc fileId, (k <= w)%nat
      /\ (wk :: ws) !! (w - k)%nat = Some (Awaiting DocType doc fileId)).
  { intros (doc & fileId & Hle & Hl)%IH. exists doc, fileId. split; [lia|].
    replace (w - k)%nat with (S (w - S k)) by lia. done. }
  destruct wk as [doc fileId| |e]; simpl; [|exact Hrec..].
  destruct j as [|j]; simpl.
  - intros [= <-]. exists doc, fileId. split; [lia|]. by rewrite Nat.sub_diag.
  - intros (doc' & fileId' & Hle & Hl)%IH. exists doc', fileId'. split; [lia|].
    replace (w - k)%nat with (S (w - S k)) by lia. done.
Qed.

Lemma upd_awaitingFrom_insert (ws : list Worker) : forall k w wk doc fileId,
  ws !! w = Some (Awaiting DocType doc fileId) ->
  (length (awaitingFrom DocType k (<[w := wk]> ws)) + 1
   = length (awaitingFrom DocType k ws)
     + (if isAwaiting DocType wk then 1 else 0))%nat.
Proof.
  induction ws as [|wk0 ws IH]; intros k w wk doc fileId; [done|].
  destruct w as [|w]; simpl.
  - intros [= ->]. simpl. destruct (isAwaiting DocType wk); simpl; lia.
  - intros Hl. specialize (IH (S k) w wk doc fileId Hl).
    destruct (isAwaiting DocType wk0); simpl; lia.
Qed.

Lemma upd_awaitingFrom_app (ws : list Worker) (wk : Worker) : forall k,
  length (awaitingFrom DocType k (ws ++ [wk]))
  = (length (awaitingFrom DocType k ws) + (if isAwaiting DocType wk then 1 else 0))%nat.
Proof.
  induction ws as [|wk0 ws IH]; intros k; simpl.
  - by destruct (isAwaiting DocType wk).
  - destruct (isAwaiting DocType wk0); simpl; rewrite IH; lia.
Qed.

Lemma upd_awaitingFrom_nonempty (ws : list Worker) : forall k,
  forallb (fun wk => negb (isAwaiting DocType wk)) ws = false ->
  (0 < length (awaitingFrom DocType k ws))%nat.
Proof.
  induction ws as [|wk ws IH]; intros k; simpl; [done|].
  destruct wk; simpl; [intros _; lia|apply IH|apply IH].
Qed.

Lemma upd_firstRejection_insert (ws : list Worker) : forall w e,
  (w < length ws)%nat ->
  is_Some (firstRejection DocType (<[w := Rejected DocType e]> ws)).
Proof.
  induction ws as [|wk ws IH]; intros w e; simpl; [lia|].
  destruct w as [|w]; simpl; [by eexists|].
  intros Hlt. destruct wk; simpl; try (by eexists); apply IH; lia.
Qed.

Lemma upd_firstRejection_app (ws : list Worker) (wk : Worker) :
  is_Some (firstRejection DocType ws) \/ (exists e, wk = Rejected DocType e) ->
  is_Some (firstRejection DocType (ws ++ [wk])).
Proof.
  induction ws as [|wk0 ws IH]; simpl.
  - intros [[? Hn]|[e ->]]; [done|by eexists].
  - destruct wk0; simpl; auto.
Qed.

Lemma upd_firstRejection_None (ws : list Worker) :
  (forall w e, ws !! w <> Some (Rejected DocType e)) ->
  firstRejection DocType ws = None.
Proof.
  induction ws as [|wk ws IH]; intros Hn; [done|].
  destruct wk as [doc fileId| |e]; simpl.
  - apply IH. intros w e. apply (Hn (S w) e).
  - apply IH. intros w e. apply (Hn (S w) e).
  - by specialize (Hn 0%nat e).
Qed.

Lemma upd_settled_rejected (s : State) :
  is_Some (firstRejection DocType (workers DocType s)) ->
  exists e, settled DocType s = Some (Some e).
Proof. intros [e He]. exists e. unfold settled. by rewrite He. Qed.

Lemma upd_run_settled (fuel : nat) (sched : nat -> nat) (k : nat) (s : State)
    (out : option error) :
  settled DocType s = Some out -> run fuel sched k s = Some (out, s).
Proof. intros H. destruct fuel; simpl; by rewrite H. Qed.

(** What [next] does, by the head of the queue. *)
Lemma next_cases (s : State) :
  (queue DocType s = [] /\ next s = (s, Returned DocType))
  \/ (exists doc rest fileId,
        queue DocType s = doc :: rest
        /\ PlainObject.get fileIdByDocId (primary doc) = Some fileId
     /\ PlainObject.truthy fileId = true
        /\ next s = (mkState DocType rest (results DocType s)
                       (sent DocType s ++ [(fileId, doc)]) (workers DocType s),
                     Awaiting DocType doc fileId))
  \/ (exists doc rest e,
        queue DocType s = doc :: rest
        /\ ~ updatable doc
        /\ next s = (mkState DocType rest (results DocType s)
                       (sent DocType s) (workers DocType s),
                     Rejected DocType e)).
Proof.
  unfold DocumentUpdate.next. destruct (queue DocType s) as [|doc rest] eqn:Eq.
  - left. by split.
  - right. unfold PlainObject.ensureNotFalsy.
    destruct (PlainObject.get fileIdByDocId (primary doc)) as [fileId|] eqn:El.
    + destruct (PlainObject.truthy fileId) eqn:Et.
      * left. exists doc, rest, fileId. by repeat split.
      * right. exists doc, rest, NotFalsyError. split; [done|]. split; [|done].
        intros (f & v & Hf & Hne & _). congruence.
    + right. exists doc, rest, NotFalsyError. split; [done|]. split; [|done].
      intros (f & v & Hf & _). congruence.
Qed.

Lemma next_workers (s : State) :
  workers DocType (next s).1 = workers DocType s.
Proof.
  unfold DocumentUpdate.next. destruct (queue DocType s); [done|].
  by destruct (PlainObject.ensureNotFalsy _).
Qed.

Lemma upd_in_docs (s : State) (fileId : PlainObject.Value) (doc : DocType) :
  map snd (sent DocType s) ++ queue DocType s = docs ->
  (fileId, doc) ∈ sent DocType s -> doc ∈ docs.
Proof.
  intros <- Hin. apply elem_of_app. left.
  apply list_elem_of_fmap. by exists (fileId, doc).
Qed.

Lemma stored_set_same (q : list DocType) (r : gmap string json)
    (snt : list (PlainObject.Value * DocType)) (ws : list Worker)
    (doc : DocType) (v : json) :
  stored (mkState DocType q (PlainObject.set (primary doc) v r) snt ws) doc.
Proof.
  unfold DocumentUpdate.stored, PlainObject.set. simpl. intros Hne.
  apply String.eqb_neq in Hne as ->. rewrite lookup_insert_eq. by eexists.
Qed.

Lemma stored_set (s : State) (doc doc0 : DocType) (v : json) :
  stored s doc ->
  stored (mkState DocType (queue DocType s)
            (PlainObject.set (primary doc0) v (results DocType s))
            (sent DocType s) (workers DocType s)) doc.
Proof.
  unfold DocumentUpdate.stored, PlainObject.set. simpl. intros H Hne.
  destruct (String.eqb (primary doc0) PlainObject.protoKey); [by apply H|].
  apply lookup_insert_is_Some'. right. by apply H.
Qed.

(** A worker that goes on to its next document after an answer: the
    invariant holds again, or the worker threw on a document without a
    file id. *)
Lemma upd_next_replace (s : State) (w : nat) :
  map snd (sent DocType s) ++ queue DocType s = docs ->
  (forall fileId doc, (fileId, doc) ∈ sent DocType s ->
     PlainObject.get fileIdByDocId (primary doc) = Some fileId
     /\ PlainObject.truthy fileId = true
     /\ ((exists w', w' <> w /\ workers DocType s !! w' = Some (Awaiting DocType doc fileId))
         \/ (updatable doc /\ stored s doc))) ->
  (forall w' doc fileId, workers DocType s !! w' = Some (Awaiting DocType doc fileId) ->
     (fileId, doc) ∈ sent DocType s) ->
  (forall w', w' <> w -> workers DocType s !! w' = Some (Returned DocType) ->
     queue DocType s = []) ->
  (forall w' e, w' <> w -> workers DocType s !! w' <> Some (Rejected DocType e)) ->
  (w < length (workers DocType s))%nat ->
  let s' := setWorker DocType w (next s).2 (next s).1 in
  (is_Some (firstRejection DocType (workers DocType s')) /\ culprit)
  \/ (Inv s'
      /\ (length (queue DocType s')
          + (if isAwaiting DocType (next s).2 then 1 else 0)
          = length (queue DocType s))%nat).
Proof.
  intros Htaken Hsent Hwait Hret Hrej Hw s'. subst s'.
  destruct (next_cases s) as [[Hq ->]|[(doc & rest & fileId & Hq & Hid & Hne & ->)
                                      |(doc & rest & e & Hq & Hbad & ->)]]; simpl.
  - right. split; [|simpl; lia]. split; simpl.
    + done.
    + intros f d Hin. destruct (Hsent f d Hin) as (H1 & H2 & [(w' & Hne & Hw')|H3]).
      * split; [done|]. split; [done|]. left. exists w'.
        by rewrite list_lookup_insert_ne.
      * split; [done|]. split; [done|]. by right.
    + intros w' d f. destruct (decide (w' = w)) as [->|Hne].
      * by rewrite list_lookup_insert_eq.
      * rewrite list_lookup_insert_ne by done. apply Hwait.
    + done.
    + intros w' e'. destruct (decide (w' = w)) as [->|Hne].
      * by rewrite list_lookup_insert_eq.
      * rewrite list_lookup_insert_ne by done. by apply Hrej.
  - right. split; [|rewrite Hq; simpl; lia]. split; simpl.
    + rewrite map_app, <- app_assoc. simpl. by rewrite <- Hq.
    + intros f d [Hin|Hin%list_elem_of_singleton]%elem_of_app.
      * destruct (Hsent f d Hin) as (H1 & H2 & [(w' & Hne' & Hw')|H3]).
        -- split; [done|]. split; [done|]. left. exists w'.
           by rewrite list_lookup_insert_ne.
        -- split; [done|]. split; [done|]. by right.
      * injection Hin as -> ->. split; [done|]. split; [done|]. left. exists w.
        by rewrite list_lookup_insert_eq.
    + intros w' d f. destruct (decide (w' = w)) as [->|Hne'].
      * rewrite list_lookup_insert_eq by done. intros [= -> ->].
        apply elem_of_app. right. by apply list_elem_of_singleton.
      * rewrite list_lookup_insert_ne by done. intros H'.
        apply elem_of_app. left. by eapply Hwait.
    + intros w'. destruct (decide (w' = w)) as [->|Hne'].
      * by rewrite list_lookup_insert_eq.
      * rewrite list_lookup_insert_ne by done. intros H'.
        rewrite (Hret w' Hne' H') in Hq. done.
    + intros w' e'. destruct (decide (w' = w)) as [->|Hne'].
      * by rewrite list_lookup_insert_eq.
      * rewrite list_lookup_insert_ne by done. by apply Hrej.
  - left. split; [by apply upd_firstRejection_insert|].
    exists doc. split; [|done]. rewrite <- Htaken, Hq.
    apply elem_of_app. right. apply list_elem_of_here.
Qed.

Lemma upd_resume_step (s : State) (w : nat) (doc0 : DocType)
    (fileId0 : PlainObject.Value) :
  Inv s ->
  workers DocType s !! w = Some (Awaiting DocType doc0 fileId0) ->
  (is_Some (firstRejection DocType (workers DocType (resume w s))) /\ culprit)
  \/ (Inv (resume w s)
      /\ (remaining (resume w s) + 1 = remaining s)%nat
      /\ length (workers DocType (resume w s)) = length (workers DocType s)).
Proof.
  intros [Htaken Hsent Hwait Hret Hrej] Hw.
  pose proof (lookup_lt_Some _ _ _ Hw) as Hwlt.
  pose proof (Hwait w doc0 fileId0 Hw) as Hin0.
  destruct (Hsent fileId0 doc0 Hin0) as (Hid0 & Hne0 & _).
  assert (Hdoc0 : doc0 ∈ docs) by (by eapply upd_in_docs).
  unfold DocumentUpdate.resume. rewrite Hw.
  destruct (ok (patch fileId0 doc0)) eqn:Hok; simpl.
  2:{ left. split; [by apply upd_firstRejection_insert|].
      exists doc0. split; [done|]. intros (f & v & Hf & _ & Hok' & _). congruence. }
  destruct (payload (patch fileId0 doc0)) as [v|e] eqn:Hp.
  2:{ left. split; [by apply upd_firstRejection_insert|].
      exists doc0. split; [done|]. intros (f & v & Hf & _ & _ & Hp'). congruence. }
  set (s1 := mkState DocType (queue DocType s)
               (PlainObject.set (primary doc0) v (results DocType s))
               (sent DocType s) (workers DocType s)).
  assert (Hsent1 : forall fileId doc, (fileId, doc) ∈ sent DocType s1 ->
     PlainObject.get fileIdByDocId (primary doc) = Some fileId
     /\ PlainObject.truthy fileId = true
     /\ ((exists w', w' <> w
            /\ workers DocType s1 !! w' = Some (Awaiting DocType doc fileId))
         \/ (updatable doc /\ stored s1 doc))).
  { intros f d Hin. simpl in *.
    destruct (Hsent f d Hin) as (H1 & H2 & [(w' & Hw')|[H3 H4]]).
    + split; [done|]. split; [done|].
      destruct (decide (w' = w)) as [->|Hne]; [|left; by exists w'].
      right. assert (d = doc0 /\ f = fileId0) as [-> ->] by (split; congruence).
      split; [by exists fileId0, v|]. by apply stored_set_same.
    + split; [done|]. split; [done|]. right. split; [done|].
      by apply stored_set. }
  destruct (upd_next_replace s1 w Htaken Hsent1 Hwait
              (fun w' _ => Hret w') (fun w' e _ => Hrej w' e) Hwlt)
    as [Hbad|[Hinv Hlen]].
  - left. destruct (next s1) as [s2 wk]. exact Hbad.
  - right. pose proof (next_workers s1) as Hws.
    destruct (next s1) as [s2 wk] eqn:En. simpl in *.
    split; [exact Hinv|]. split; [|by rewrite length_insert, Hws].
    unfold DocumentUpdate.remaining. simpl. rewrite Hws.
    pose proof (upd_awaitingFrom_insert (workers DocType s) 0 w wk doc0 fileId0 Hw).
    destruct (isAwaiting DocType wk); lia.
Qed.

Lemma next_ignores_workers (s : State) (ws : list Worker) :
  next (mkState DocType (queue DocType s) (results DocType s) (sent DocType s) ws)
  = (mkState DocType (queue DocType (next s).1) (results DocType (next s).1)
       (sent DocType (next s).1) ws, (next s).2).
Proof.
  destruct s as [q r snt w0]. unfold DocumentUpdate.next. simpl.
  destruct q as [|doc rest]; [done|]. by destruct (PlainObject.ensureNotFalsy _).
Qed.

(** The start of one more worker. *)
Lemma upd_spawn_one (s : State) :
  Inv s ->
  let s' := mkState DocType (queue DocType (next s).1) (results DocType (next s).1)
              (sent DocType (next s).1) (workers DocType (next s).1 ++ [(next s).2]) in
  (is_Some (firstRejection DocType (workers DocType s')) /\ culprit)
  \/ (Inv s' /\ remaining s' = remaining s).
Proof.
  intros [Htaken Hsent Hwait Hret Hrej] s'.
  set (ws := workers DocType s).
  set (sx := mkState DocType (queue DocType s) (results DocType s) (sent DocType s)
               (ws ++ [Returned DocType])).
  assert (Hs' : s' = setWorker DocType (length ws) (next sx).2 (next sx).1).
  { unfold s', sx. rewrite next_ignores_workers, next_workers. fold ws.
    unfold setWorker. simpl. f_equal.
    rewrite insert_app_r_alt, Nat.sub_diag by lia. done. }
  assert (Hold : forall w x, ws !! w = Some x -> w <> length ws).
  { intros w x Hx%lookup_lt_Some. lia. }
  assert (Hext : forall w wk, w <> length ws -> sx.(workers DocType) !! w = Some wk ->
                   ws !! w = Some wk).
  { intros w wk Hne. simpl. intros H'.
    apply lookup_app_Some in H' as [H'|[Hge H']]; [done|].
    apply list_lookup_singleton_Some in H' as [H' _]. lia. }
  rewrite Hs'. clear Hs' s'.
  destruct (upd_next_replace sx (length ws)) as [Hbad|[Hinv Hlen]].
  - done.
  - intros f d Hin. destruct (Hsent f d Hin) as (H1 & H2 & [(w' & Hw')|H3]).
    + split; [done|]. split; [done|]. left. exists w'.
      split; [by eapply Hold|]. by apply lookup_app_l_Some.
    + split; [done|]. split; [done|]. by right.
  - intros w' d f H'. simpl in H'.
    apply lookup_app_Some in H' as [H'|[_ H']]; [by eapply Hwait|].
    by apply list_lookup_singleton_Some in H' as [_ ?].
  - intros w' Hne H'. apply (Hret w'). by apply Hext.
  - intros w' e Hne H'. apply (Hrej w' e). by apply Hext.
  - simpl. rewrite length_app. simpl. lia.
  - by left.
  - right. split; [done|].
    unfold DocumentUpdate.remaining. unfold sx in *.
    rewrite next_ignores_workers in *. simpl in *.
    rewrite insert_app_r_alt, Nat.sub_diag by lia. simpl.
    rewrite upd_awaitingFrom_app. fold ws. lia.
Qed.

Lemma upd_spawn_unfold (n : nat) (s : State) :
  spawn (S n) s
  = spawn n (mkState DocType (queue DocType (next s).1) (results DocType (next s).1)
               (sent DocType (next s).1) (workers DocType (next s).1 ++ [(next s).2])).
Proof. simpl. by destruct (next s). Qed.

Lemma upd_spawn_length (n : nat) : forall s,
  length (workers DocType (spawn n s)) = (length (workers DocType s) + n)%nat.
Proof.
  induction n as [|n IH]; intros s; [simpl; lia|].
  rewrite upd_spawn_unfold, IH. simpl. rewrite length_app, next_workers. simpl. lia.
Qed.

Lemma upd_spawn_rejected (n : nat) : forall s,
  is_Some (firstRejection DocType (workers DocType s)) ->
  is_Some (firstRejection DocType (workers DocType (spawn n s))).
Proof.
  induction n as [|n IH]; intros s Hr; [done|].
  rewrite upd_spawn_unfold. apply IH. simpl.
  apply upd_firstRejection_app. left. by rewrite next_workers.
Qed.

Lemma upd_spawn_cases (n : nat) : forall s,
  Inv s ->
  (is_Some (firstRejection DocType (workers DocType (spawn n s))) /\ culprit)
  \/ (Inv (spawn n s) /\ remaining (spawn n s) = remaining s).
Proof.
  induction n as [|n IH]; intros s Hinv; [by right|].
  rewrite upd_spawn_unfold.
  destruct (upd_spawn_one s Hinv) as [[Hr Hc]|[Hinv' Hrem]].
  - left. split; [by apply upd_spawn_rejected|done].
  - destruct (IH _ Hinv') as [Hbad|[Hinv'' Hrem']]; [by left|].
    right. split; [done|]. congruence.
Qed.

Lemma upd_settled_cases (s : State) (out : option error) :
  Inv s -> settled DocType s = Some out ->
  out = None /\ forall w wk, workers DocType s !! w = Some wk -> wk = Returned DocType.
Proof.
  intros Hinv. unfold settled.
  rewrite (upd_firstRejection_None _ (inv_no_reject _ _ _ _ _ _ Hinv)).
  destruct (forallb _ _) eqn:Ea; [|done]. intros [= <-]. split; [done|].
  intros w wk Hl. rewrite forallb_forall in Ea.
  specialize (Ea wk (proj1 (list_elem_of_In _ _) (list_elem_of_lookup_2 _ _ _ Hl))).
  destruct wk as [doc fileId| |e]; [done|done|].
  by destruct (inv_no_reject _ _ _ _ _ _ Hinv w e).
Qed.

Lemma upd_settled_pending (s : State) :
  settled DocType s = None -> (0 < length (awaitingFrom DocType 0 (workers DocType s)))%nat.
Proof.
  unfold settled. destruct (firstRejection _ _); [done|].
  destruct (forallb _ _) eqn:E; [done|]. intros _. by apply upd_awaitingFrom_nonempty.
Qed.

(** Every schedule settles the update within the requests that remain;
    a fulfilment leaves every worker returned, a rejection has its
    culprit among [docs]. *)
Lemma upd_run_settles (fuel : nat) : forall (sched : nat -> nat) (k : nat) (s : State),
  Inv s -> (remaining s <= fuel)%nat ->
  exists out s',
    run fuel sched k s = Some (out, s')
    /\ (out = None ->
          Inv s'
          /\ (forall w wk, workers DocType s' !! w = Some wk -> wk = Returned DocType)
          /\ length (workers DocType s') = length (workers DocType s))
    /\ (forall e, out = Some e -> culprit).
Proof.
  induction fuel as [|fuel IH]; intros sched k s Hinv Hfuel.
  - destruct (settled DocType s) as [out|] eqn:Es.
    + destruct (upd_settled_cases s out Hinv Es) as [-> Hall].
      exists None, s. split; [by apply upd_run_settled|]. split; [done|]. done.
    + apply upd_settled_pending in Es. unfold DocumentUpdate.remaining in Hfuel. lia.
  - destruct (settled DocType s) as [out|] eqn:Es.
    + destruct (upd_settled_cases s out Hinv Es) as [-> Hall].
      exists None, s. split; [by apply upd_run_settled|]. split; [done|]. done.
    + pose proof (upd_settled_pending s Es) as Hpos.
      cbn [DocumentUpdate.run]. rewrite Es.
      set (aw := awaitingFrom DocType 0 (workers DocType s)) in *.
      destruct (lookup_lt_is_Some_2 aw (sched k mod length aw)%nat) as [w Hw];
        [apply Nat.mod_upper_bound; lia|].
      rewrite Hw.
      destruct (upd_awaitingFrom_lookup _ _ _ _ Hw) as (doc & fileId & _ & Hwi).
      rewrite Nat.sub_0_r in Hwi.
      destruct (upd_resume_step s w doc fileId Hinv Hwi) as [[Hr Hc]|(Hinv' & Hrem & Hlen)].
      * destruct (upd_settled_rejected _ Hr) as [e He].
        exists (Some e), (resume w s). split; [by apply upd_run_settled|].
        split; [done|]. by intros.
      * destruct (IH sched (S k) _ Hinv' ltac:(lia)) as (out & s' & Hrun & Hok & Hbad).
        exists out, s'. split; [done|]. split; [|done].
        intros Hout. destruct (Hok Hout) as (? & ? & ?).
        split; [done|]. split; [done|]. congruence.
Qed.

Lemma sio_same (s s' : State) :
  queue DocType s' = queue DocType s -> sent DocType s' = sent DocType s ->
  SentInOrder s -> SentInOrder s'.
Proof. unfold DocumentUpdate.SentInOrder. by intros -> ->. Qed.

Lemma sio_next (s : State) : SentInOrder s -> SentInOrder (next s).1.
Proof.
  intros [(taken & Htaken & Hsub) Hids].
  destruct (next_cases s) as [[Hq ->]|[(doc & rest & fileId & Hq & Hid & Hne & ->)
                                      |(doc & rest & e & Hq & Hbad & ->)]]; simpl.
  - split; [by exists taken|done].
  - split; simpl.
    + exists (taken ++ [doc]). split; [by rewrite <- app_assoc, <- Htaken, Hq|].
      rewrite map_app. simpl. by apply sublist_app.
    + intros f d [Hin|Hin%list_elem_of_singleton]%elem_of_app; [by apply Hids|].
      by injection Hin as -> ->.
  - split; simpl; [|done].
    exists (taken ++ [doc]). split; [by rewrite <- app_assoc, <- Htaken, Hq|].
    by apply sublist_inserts_r.
Qed.

Lemma sio_resume (w : nat) (s : State) : SentInOrder s -> SentInOrder (resume w s).
Proof.
  intros Hs. unfold DocumentUpdate.resume.
  destruct (workers DocType s !! w) as [[doc fileId| |e]|]; try done.
  destruct (negb (ok (patch fileId doc))); [by eapply sio_same|].
  destruct (payload (patch fileId doc)) as [v|e]; [|by eapply sio_same].
  set (s1 := mkState DocType _ _ _ _).
  assert (H1 : SentInOrder s1) by (by eapply sio_same).
  apply sio_next in H1. destruct (next s1) as [s2 wk]. by eapply sio_same.
Qed.

Lemma sio_spawn (n : nat) : forall s, SentInOrder s -> SentInOrder (spawn n s).
Proof.
  induction n as [|n IH]; intros s Hs; [done|].
  rewrite upd_spawn_unfold. apply IH. apply sio_next in Hs. by eapply sio_same.
Qed.

Lemma sio_run (fuel : nat) : forall sched k s out s',
  SentInOrder s -> run fuel sched k s = Some (out, s') -> SentInOrder s'.
Proof.
  induction fuel as [|fuel IH]; intros sched k s out s' Hs; simpl.
  - destruct (settled DocType s); [|done]. by intros [= _ <-].
  - destruct (settled DocType s); [by intros [= _ <-]|].
    destruct (_ !! _) as [w|]; [|done]. apply IH. by apply sio_resume.
Qed.

Lemma get_own (key : string) (fileId : PlainObject.Value) :
  PlainObject.get fileIdByDocId key = Some fileId ->
  PlainObject.truthy fileId = true ->
  key ∉ PlainObject.objectPrototype ->
  exists f, fileId = PlainObject.Own f /\ fileIdByDocId !! key = Some f
            /\ f <> EmptyString.
Proof.
  unfold PlainObject.get. destruct (fileIdByDocId !! key) as [f|].
  - intros [= <-] Ht _. exists f. split; [done|]. split; [done|].
    simpl in Ht. intros ->. done.
  - case_bool_decide; [done|done].
Qed.


(** Whatever the concurrency, the schedule and the outcome: the PATCH
    requests that went out are for documents of [docs], in the order of
    [docs] and one per position at most, each to the truthy value
    [fileIdByDocId[docId]] gave.  That value is the registered,
    non-empty file id when the document id is no member of
    [Object.prototype]; for a member without an own entry the request
    goes out to the inherited value. *)
Theorem updateDocumentFiles_sends_in_order (concurrency : Z) (sched : nat -> nat)
    (out : option error) (s : State) :
  updateDocumentFiles DocType primary patch fileIdByDocId docs concurrency sched
  = Some (out, s) ->
  map snd (sent DocType s) `sublist_of` docs
  /\ forall fileId doc, (fileId, doc) ∈ sent DocType s ->
       PlainObject.get fileIdByDocId (primary doc) = Some fileId
       /\ PlainObject.truthy fileId = true
       /\ (primary doc ∉ PlainObject.objectPrototype ->
           exists f, fileId = PlainObject.Own f
                     /\ fileIdByDocId !! primary doc = Some f /\ f <> EmptyString)
       /\ (fileIdByDocId !! primary doc = None ->
           fileId = PlainObject.Inherited (primary doc)
           /\ primary doc ∈ PlainObject.objectPrototype).
Proof.
  unfold updateDocumentFiles. intros Hrun.
  assert (H0 : SentInOrder (mkState DocType docs ∅ [] [])).
  { split; simpl.
    - exists []. split; [done|]. constructor.
    - intros f d Hin. by apply elem_of_nil in Hin. }
  destruct (sio_run _ _ _ _ _ _ (sio_spawn _ _ H0) Hrun) as [(taken & Htaken & Hsub) Hids].
  split; [rewrite <- Htaken; by apply sublist_inserts_r|].
  intros fileId doc Hin. destruct (Hids fileId doc Hin) as [Hget Ht].
  split; [done|]. split; [done|]. split.
  - by apply get_own.
  - intros Hnone. unfold PlainObject.get in Hget. rewrite Hnone in Hget.
    case_bool_decide as Hkey; [|done]. by injection Hget as <-.
Qed.

End UpdateFacts.

(** ** signaling.ts: file names *)

Section FileNameFacts.
Import Signaling FileNames.

Lemma string_app_nil (b : string) : (EmptyString ++ b = b)%string.
Proof. reflexivity. Qed.

Lemma string_app_cons (x : Ascii.ascii) (a b : string) :
  (String x a ++ b = String x (a ++ b))%string.
Proof. reflexivity. Qed.

Lemma string_app_assoc (a b c : string) :
  ((a ++ b) ++ c = a ++ (b ++ c))%string.
Proof.
  induction a as [|x a IH]; [done|]. rewrite !string_app_cons. by f_equal.
Qed.

Lemma hasChar_app (c : Ascii.ascii) (a b : string) :
  hasChar c (a ++ b)%string = hasChar c a || hasChar c b.
Proof.
  induction a as [|x a IH]; [done|]. rewrite string_app_cons. simpl.
  by rewrite IH, orb_assoc.
Qed.

Lemma split_nonempty (c : Ascii.ascii) (s : string) : split c s <> [].
Proof.
  induction s as [|x s IH]; simpl; [done|].
  destruct (Ascii.eqb x c); [done|]. by destruct (split c s).
Qed.

(** Up to the first separator. *)
Lemma split_app_sep (c : Ascii.ascii) (a b : string) :
  hasChar c a = false ->
  split c (a ++ String c b)%string = a :: split c b.
Proof.
  induction a as [|x a IH]; rewrite ?string_app_nil, ?string_app_cons; simpl.
  - intros _. by rewrite Ascii.eqb_refl.
  - intros [Hx Ha]%orb_false_elim. rewrite Hx, IH by done. done.
Qed.

Lemma split_plain (c : Ascii.ascii) (a : string) :
  hasChar c a = false -> split c a = [a].
Proof.
  induction a as [|x a IH]; simpl; [done|].
  intros [Hx Ha]%orb_false_elim. by rewrite Hx, IH.
Qed.

Lemma split_two (c : Ascii.ascii) (a b : string) :
  (2 <= length (split c (a ++ String c b)%string))%nat.
Proof.
  induction a as [|x a IH]; rewrite ?string_app_nil, ?string_app_cons; simpl.
  - rewrite Ascii.eqb_refl. simpl. pose proof (split_nonempty c b).
    destruct (split c b); [done|simpl; lia].
  - destruct (Ascii.eqb x c); [simpl; lia|].
    destruct (split c (a ++ String c b)%string) as [|h t]; simpl in *; lia.
Qed.

(** After the last separator. *)
Lemma last_split_sep (c : Ascii.ascii) (a b : string) :
  last (split c (a ++ String c b)%string) = last (split c b).
Proof.
  induction a as [|x a IH]; rewrite ?string_app_nil, ?string_app_cons; simpl.
  - rewrite Ascii.eqb_refl. pose proof (split_nonempty c b).
    by destruct (split c b).
  - pose proof (split_two c a b) as H2.
    destruct (Ascii.eqb x c).
    + rewrite <- IH. destruct (split c (a ++ String c b)%string); [simpl in H2; lia|done].
    + rewrite <- IH.
      destruct (split c (a ++ String c b)%string) as [|h [|h' t]]; simpl in H2; try lia.
      done.
Qed.

(** A part of a split has neither the separator nor any character the
    whole string does not have. *)
Lemma split_parts (c d : Ascii.ascii) (s : string) :
  forall x, x ∈ split c s ->
    hasChar c x = false /\ (hasChar d s = false -> hasChar d x = false).
Proof.
  induction s as [|y s IH]; simpl; intros x Hx.
  - apply list_elem_of_singleton in Hx as ->. done.
  - destruct (Ascii.eqb y c) eqn:Ey.
    + apply elem_of_cons in Hx as [->|Hx]; [done|].
      destruct (IH x Hx) as [H1 H2]. split; [done|].
      intros [_ ?]%orb_false_elim. by apply H2.
    + pose proof (split_nonempty c s) as Hne.
      destruct (split c s) as [|h t] eqn:Es; [done|].
      apply elem_of_cons in Hx as [->|Hx].
      * destruct (IH h ltac:(apply list_elem_of_here)) as [H1 H2]. simpl.
        rewrite Ey, H1. split; [done|].
        intros [-> ?]%orb_false_elim. by apply H2.
      * destruct (IH x ltac:(by apply list_elem_of_further)) as [H1 H2].
        split; [done|]. intros [_ ?]%orb_false_elim. by apply H2.
Qed.

(** The message id of a file name is never empty and has no ['_'] and
    no ['.']. *)
Theorem messageIdByFilename_plain (name messageId : string) :
  messageIdByFilename name = Ok messageId ->
  messageId <> EmptyString /\ plainToken messageId.
Proof.
  unfold messageIdByFilename, lastOfArray.
  set (fileName := default EmptyString (head (split "." name))).
  destruct (last (split "_" fileName)) as [m|] eqn:El; simpl; [|done].
  destruct (String.eqb_spec m ""); [done|]. intros [= <-]. split; [done|].
  apply last_Some_elem_of in El.
  assert (Hdot : hasChar "." fileName = false).
  { unfold fileName. pose proof (split_nonempty "." name) as Hne.
    destruct (split "." name) as [|h t] eqn:Es; [done|]. simpl.
    by destruct (split_parts "." "." name h ltac:(rewrite Es; apply list_elem_of_here)). }
  destruct (split_parts "_" "." fileName m El) as [H1 H2]. split; [done|by apply H2].
Qed.

Lemma sendMessage_name (s : SignalingState) (messageId now : string)
    (data : json) :
  plainToken (sessionId s) -> plainToken now -> plainToken messageId ->
  messageId <> EmptyString ->
  exists fileName,
    uploaded (sendMessage messageId now data s) = uploaded s ++ [(fileName, data)]
    /\ messageIdByFilename fileName = Ok messageId
    /\ head (split "_" fileName) = Some (sessionId s)
    /\ messageId ∈ processedMessageIds (sendMessage messageId now data s).
Proof.
  intros [Hs1 Hs2] [Hn1 Hn2] [Hm1 Hm2] Hne. eexists. split; [reflexivity|].
  set (sid := sessionId s). fold sid in Hs1, Hs2.
  split; [|split].
  - unfold messageIdByFilename, lastOfArray.
    replace (sid ++ "_" ++ now ++ "_" ++ messageId ++ ".json")%string
      with ((sid ++ "_" ++ now ++ "_" ++ messageId) ++ String "." "json")%string
      by (by rewrite !string_app_assoc).
    rewrite split_app_sep.
    2:{ rewrite !hasChar_app. simpl. by rewrite Hs2, Hn2, Hm2. }
    simpl.
    replace (sid ++ "_" ++ now ++ "_" ++ messageId)%string
      with ((sid ++ "_" ++ now) ++ String "_" messageId)%string
      by (by rewrite !string_app_assoc).
    rewrite last_split_sep, split_plain by done. simpl.
    by apply String.eqb_neq in Hne as ->.
  - change (sid ++ "_" ++ now ++ "_" ++ messageId ++ ".json")%string
      with (sid ++ String "_" (now ++ "_" ++ messageId ++ ".json"))%string.
    by rewrite split_app_sep.
  - simpl. apply elem_of_union. left. by apply elem_of_singleton.
Qed.

(** The name of a file whose timestamp has a decimal point: the part
    before the first ['.'] ends with the digits before the point. *)
Lemma sendMessage_name_decimal (s : SignalingState)
    (messageId millis fraction : string) (data : json) :
  plainToken (sessionId s) -> plainToken millis -> millis <> EmptyString ->
  exists fileName,
    uploaded (sendMessage messageId (millis ++ "." ++ fraction) data s)
    = uploaded s ++ [(fileName, data)]
    /\ messageIdByFilename fileName = Ok millis
    /\ head (split "_" fileName) = Some (sessionId s).
Proof.
  intros [Hs1 Hs2] [Hn1 Hn2] Hne. eexists. split; [reflexivity|].
  set (sid := sessionId s). fold sid in Hs1, Hs2.
  split.
  - unfold messageIdByFilename, lastOfArray.
    replace (sid ++ "_" ++ (millis ++ "." ++ fraction) ++ "_" ++ messageId ++ ".json")%string
      with ((sid ++ "_" ++ millis)
            ++ String "." (fraction ++ "_" ++ messageId ++ ".json"))%string
      by (by rewrite !string_app_assoc).
    rewrite split_app_sep.
    2:{ rewrite !hasChar_app. simpl. by rewrite Hs2, Hn2. }
    simpl.
    change (sid ++ "_" ++ millis)%string with (sid ++ String "_" millis)%string.
    rewrite last_split_sep, split_plain by done. simpl.
    by apply String.eqb_neq in Hne as ->.
  - change (sid ++ "_" ++ (millis ++ "." ++ fraction) ++ "_" ++ messageId ++ ".json")%string
      with (sid ++ String "_" ((millis ++ "." ++ fraction) ++ "_" ++ messageId ++ ".json"))%string.
    by rewrite split_app_sep.
Qed.

(** What is read back from the name of an uploaded file.  [sendMessage]
    puts the message id into [processedMessageIds] and names the file
    [<sessionId>_<now>_<messageId>.json]; the sender read from that name
    is the session id.  When the timestamp has a decimal point, as in
    [1714557600000.01], [messageIdByFilename] gives the digits before
    the point, not the message id; it gives the message id when the
    timestamp has no ['.'] and no ['_']. *)
Theorem sendMessage_name_read_back (s : SignalingState) (messageId now : string)
    (data : json) :
  plainToken (sessionId s) ->
  exists fileName,
    uploaded (sendMessage messageId now data s) = uploaded s ++ [(fileName, data)]
    /\ head (split "_" fileName) = Some (sessionId s)
    /\ messageId ∈ processedMessageIds (sendMessage messageId now data s)
    /\ (forall millis fraction,
          now = (millis ++ "." ++ fraction)%string ->
          plainToken millis -> millis <> EmptyString ->
          messageIdByFilename fileName = Ok millis)
    /\ (plainToken now -> plainToken messageId -> messageId <> EmptyString ->
        messageIdByFilename fileName = Ok messageId).
Proof.
  intros Hs. eexists. split; [reflexivity|]. split; [|split; [|split]].
  - destruct Hs as [Hs1 Hs2].
    change (sessionId s ++ "_" ++ now ++ "_" ++ messageId ++ ".json")%string
      with (sessionId s ++ String "_" (now ++ "_" ++ messageId ++ ".json"))%string.
    by rewrite split_app_sep.
  - simpl. apply elem_of_union. left. by apply elem_of_singleton.
  - intros millis fraction -> Hm Hne.
    destruct (sendMessage_name_decimal s messageId millis fraction data Hs Hm Hne)
      as (fileName & Hup & Hid & _).
    apply app_inj_tail in Hup as [_ [= <-]]. exact Hid.
  - intros Hn Hm Hne.
    destruct (sendMessage_name s messageId now data Hs Hn Hm Hne)
      as (fileName & Hup & Hid & _).
    apply app_inj_tail in Hup as [_ [= <-]]. exact Hid.
Qed.

End FileNameFacts.

(** ** signaling.ts: what a poll reads *)

Section PollFacts.
Import Signaling FileNames.

Lemma unseen_all_seen (processed : gset string) (folderData : list DriveFileMetadata) :
  (forall file, file ∈ folderData ->
     exists m, messageIdByFilename (name file) = Ok m /\ m ∈ processed) ->
  unseen processed folderData = Ok [].
Proof.
  induction folderData as [|file rest IH]; intros Hall; simpl; [done|].
  destruct (Hall file ltac:(apply list_elem_of_here)) as (m & -> & Hm). simpl.
  rewrite IH by (intros f Hf; apply Hall; by apply list_elem_of_further). simpl.
  by rewrite bool_decide_eq_true_2.
Qed.

Lemma unseen_cases (processed : gset string) (folderData : list DriveFileMetadata) :
  forall useFiles, unseen processed folderData = Ok useFiles ->
    useFiles `sublist_of` folderData
    /\ (forall file, file ∈ folderData ->
          exists m, messageIdByFilename (name file) = Ok m
                    /\ (m ∈ processed \/ file ∈ useFiles))
    /\ (forall file, file ∈ useFiles ->
          exists m, messageIdByFilename (name file) = Ok m /\ m ∉ processed).
Proof.
  induction folderData as [|file rest IH]; simpl; intros useFiles.
  - intros [= <-]. split; [constructor|]. split; intros f Hf; by apply elem_of_nil in Hf.
  - destruct (messageIdByFilename (name file)) as [m|e] eqn:Em; simpl; [|done].
    destruct (unseen processed rest) as [us|e]; simpl; [|done].
    destruct (IH us eq_refl) as (Hsub & Hall & Hnew).
    case_bool_decide as Hm; intros [= <-].
    + split; [by constructor|]. split; [|done].
      intros f [->|Hf]%elem_of_cons; [exists m; by split; [|left]|by apply Hall].
    + split; [by constructor|]. split.
      * intros f [->|Hf]%elem_of_cons.
        -- exists m. split; [done|]. right. apply list_elem_of_here.
        -- destruct (Hall f Hf) as (m' & ? & [?|?]); exists m'; split; auto.
           right. by apply list_elem_of_further.
      * intros f [->|Hf]%elem_of_cons; [by exists m|by apply Hnew].
Qed.

(** A listing that only holds messages that are already processed
    reads nothing and changes nothing. *)
Lemma readMessages_all_seen (net : Network) (processed : gset string) :
  ok (listResponse net) = true ->
  (forall file, file ∈ default [] (payload (listResponse net)) ->
     exists m, messageIdByFilename (name file) = Ok m /\ m ∈ processed) ->
  readMessages net processed = (Ok [], processed).
Proof.
  intros Hok Hall. unfold readMessages. rewrite Hok. simpl negb. cbv iota.
  rewrite unseen_all_seen; [done|].
  intros file Hin. apply Hall. apply list_elem_of_In, in_rev, list_elem_of_In in Hin. done.
Qed.

Lemma messageIdsOf_elem_of (useFiles : list DriveFileMetadata) (file : DriveFileMetadata)
    (m : string) :
  file ∈ useFiles -> messageIdByFilename (name file) = Ok m -> m ∈ messageIdsOf useFiles.
Proof.
  intros Hin Hm. unfold messageIdsOf. apply elem_of_list_to_set.
  apply list_elem_of_omap. exists file. split; [done|]. by rewrite Hm.
Qed.

(** A poll that returned, read off the code. *)
Lemma readMessages_Ok (net : Network) (processed processed' : gset string)
    (messages : list Message) :
  readMessages net processed = (Ok messages, processed') ->
  ok (listResponse net) = true
  /\ exists useFiles,
       unseen processed (rev (default [] (payload (listResponse net)))) = Ok useFiles
       /\ promiseAll
            (fun file =>
               bind (readJsonFileContent net (id file)) (fun content =>
                 Ok (mkMessage
                       (default EmptyString (head (split "_"%char (name file))))
                       content)))
            useFiles = Ok messages
       /\ processed' = messageIdsOf useFiles ∪ processed.
Proof.
  unfold readMessages. destruct (ok (listResponse net)); simpl; [|done].
  destruct (unseen processed _) as [useFiles|e] eqn:Eu; [|done].
  destruct (promiseAll _ useFiles) as [contents|e] eqn:Ep; [|done].
  rewrite (markProcessed_ids useFiles processed) by (by eapply unseen_has_id).
  intros [= <- <-]. split; [done|]. by exists useFiles.
Qed.

(** Polling is idempotent: after a poll that returned, the same listing
    gives no message and leaves [processedMessageIds] as it is. *)
Theorem readMessages_twice (net : Network) (processed processed' : gset string)
    (messages : list Message) :
  readMessages net processed = (Ok messages, processed') ->
  readMessages net processed' = (Ok [], processed').
Proof.
  intros Hread.
  destruct (readMessages_Ok _ _ _ _ Hread) as (Hok & useFiles & Hun & _ & ->).
  apply readMessages_all_seen; [done|].
  intros file Hin. destruct (unseen_cases _ _ _ Hun) as (_ & Hall & _).
  destruct (Hall file) as (m & Hm & [Hp|Hu]).
  { apply list_elem_of_In, in_rev. rewrite rev_involutive. by apply list_elem_of_In. }
  - exists m. split; [done|]. apply elem_of_union. by right.
  - exists m. split; [done|]. apply elem_of_union. left.
    by eapply messageIdsOf_elem_of.
Qed.

End PollFacts.

(** ** signaling.ts: the messages of a poll and the state *)

Section StateFacts.
Import Signaling FileNames SignalingInvariants.

Lemma promiseAll_Forall2 {A B} (f : A -> result B) (ar : list A) (bs : list B) :
  promiseAll f ar = Ok bs -> Forall2 (fun a b => f a = Ok b) ar bs.
Proof.
  revert bs. induction ar as [|a ar IH]; simpl; intros bs.
  - intros [= <-]. constructor.
  - destruct (f a) as [b|e] eqn:Ea; simpl; [|done].
    destruct (promiseAll f ar) as [bs'|e]; simpl; [|done].
    intros [= <-]. constructor; [done|by apply IH].
Qed.

Lemma unseen_filter (processed : gset string) (folderData : list DriveFileMetadata) :
  forall useFiles, unseen processed folderData = Ok useFiles ->
    useFiles = List.filter (Polls.isUnseen processed) folderData.
Proof.
  induction folderData as [|file rest IH]; simpl; intros useFiles.
  - by intros [= <-].
  - unfold Polls.isUnseen at 1.
    destruct (messageIdByFilename (name file)) as [m|e]; simpl; [|done].
    destruct (unseen processed rest) as [us|e]; simpl; [|done].
    rewrite <- (IH us eq_refl).
    case_bool_decide as Hm; intros [= <-].
    + by rewrite bool_decide_eq_false_2 by tauto.
    + by rewrite bool_decide_eq_true_2.
Qed.

(** A poll that returns gives one message per unseen file of the
    listing, oldest first (the listing is newest first): the sender is
    the part of the file name before the first ['_'], the data is the
    downloaded content; every listed file has a message id, and the
    processed ids afterwards are the ones from before and the ones of
    the unseen files. *)
Theorem readMessages_oldest_first (net : Network) (processed processed' : gset string)
    (messages : list Message) :
  readMessages net processed = (Ok messages, processed') ->
  let listing := default [] (payload (listResponse net)) in
  let useFiles := Polls.unseenFiles processed listing in
  Forall2 (fun file message =>
             senderId message
             = default EmptyString (head (split "_" (name file)))
             /\ readJsonFileContent net (id file) = Ok (data message))
          useFiles messages
  /\ (forall file, file ∈ listing ->
        exists m, messageIdByFilename (name file) = Ok m)
  /\ (forall m, m ∈ processed'
        <-> m ∈ processed
            \/ exists file, file ∈ useFiles /\ messageIdByFilename (name file) = Ok m).
Proof.
  intros Hread listing useFiles.
  destruct (readMessages_Ok _ _ _ _ Hread) as (_ & us & Hun & Hall & ->).
  destruct (unseen_cases _ _ _ Hun) as (_ & Hids & _).
  apply unseen_filter in Hun. fold listing in Hun, Hids.
  change (List.filter (Polls.isUnseen processed) (rev listing)) with useFiles in Hun.
  subst us. split; [|split].
  - apply promiseAll_Forall2 in Hall.
    eapply Forall2_impl; [exact Hall|]. intros file message. simpl.
    destruct (readJsonFileContent net (id file)); simpl; [|done].
    by intros [= <-].
  - intros file Hin. destruct (Hids file) as (m & Hm & _); [|by exists m].
    apply list_elem_of_In, in_rev. rewrite rev_involutive. by apply list_elem_of_In.
  - intros m. rewrite elem_of_union. unfold messageIdsOf.
    rewrite elem_of_list_to_set, list_elem_of_omap. split.
    + intros [(file & Hin & Hm)|Hm]; [right|by left].
      exists file. split; [done|].
      by destruct (messageIdByFilename (name file)); simplify_eq.
    + intros [Hm|(file & Hin & Hm)]; [by right|left].
      exists file. split; [done|]. by rewrite Hm.
Qed.

Lemma setProcessed_same (s : SignalingState) :
  setProcessed (processedMessageIds s) s = s.
Proof. by destruct s. Qed.

(** The guard [senderId === this.sessionId]. *)
Lemma onMessage_self (message : Message) (s : SignalingState) :
  senderId message = sessionId s -> onMessage message s = (s, None).
Proof. intros H. unfold onMessage. by rewrite H, String.eqb_refl. Qed.

(** A peer reads its own message back.  The file [sendMessage] uploads
    carries a timestamp with a decimal point, so its message id reads as
    the digits before the point, which [sendMessage] did not mark: a
    poll that lists the file downloads it, marks those digits and emits
    [resync$]; the sender is the own session id, so no peer is created. *)
Theorem own_message_is_read_back (s : SignalingState)
    (messageId millis fraction : string) (data content : json)
    (net : Network) (file : DriveFileMetadata) :
  let s1 := sendMessage messageId (millis ++ "." ++ fraction) data s in
  plainToken (sessionId s) -> plainToken millis -> millis <> EmptyString ->
  millis ∉ processedMessageIds s1 ->
  ok (listResponse net) = true ->
  payload (listResponse net) = Some [file] ->
  (exists uploadedData, last (uploaded s1) = Some (name file, uploadedData)) ->
  readJsonFileContent net (id file) = Ok content ->
  let s2 := (_processNewMessages net s1).1 in
  _processNewMessages net s1
  = (resyncNext (setProcessed ({[millis]} ∪ processedMessageIds s1) s1), None)
  /\ millis ∈ processedMessageIds s2
  /\ peerBySenderId s2 = peerBySenderId s
  /\ (resyncCompleted s = false -> resyncEmitted s2 = S (resyncEmitted s)).
Proof.
  intros s1 Hs Hn Hne Hnew Hok Hlist [uploadedData Hfile] Hread.
  destruct (sendMessage_name_decimal s messageId millis fraction data Hs Hn Hne)
    as (fileName & Hup & Hid & Hsender).
  fold s1 in Hup. rewrite Hup, last_snoc in Hfile. injection Hfile as Hname _.
  rewrite Hname in Hid, Hsender.
  assert (Hrun : _processNewMessages net s1
    = (resyncNext (setProcessed ({[millis]} ∪ processedMessageIds s1) s1), None)).
  { unfold _processNewMessages, readMessages. rewrite Hok, Hlist.
    change (rev (default [] (Some [file]))) with [file].
    cbn [negb unseen]. rewrite Hid.
    cbn [bind]. rewrite bool_decide_eq_false_2 by done.
    cbn [promiseAll]. rewrite Hread, Hsender.
    cbn [bind promiseAll markProcessed]. rewrite Hid.
    cbn [markProcessed length]. change (0 <? 1)%nat with true. cbv iota.
    cbn [forEachMessage]. by rewrite onMessage_self. }
  intros s2. subst s2. rewrite Hrun. split; [done|]. cbn [fst]. split; [|split].
  - simpl. apply elem_of_union. left. by apply elem_of_singleton.
  - reflexivity.
  - intros Hc. simpl. by rewrite Hc.
Qed.

End StateFacts.

(** ** signaling.ts: what the state keeps *)

Section KeepsFacts.
Import Signaling SignalingInvariants.

Lemma keeps_refl (s : SignalingState) : Keeps s s.
Proof. by split. Qed.

Lemma keeps_trans (a b c : SignalingState) : Keeps a b -> Keeps b c -> Keeps a c.
Proof.
  intros [H1 H2 H3 H4 H5] [G1 G2 G3 G4 G5]. split.
  - congruence.
  - intros Ha. rewrite <- H1. apply G2. rewrite H1. by apply H2.
  - by etrans.
  - intros Ha. destruct (H4 Ha) as [Hb Hn]. destruct (G4 Hb) as [Hc Hm].
    split; [done|congruence].
  - auto.
Qed.

Lemma keeps_resyncNext (s : SignalingState) : Keeps s (resyncNext s).
Proof.
  split; simpl; try done. intros Hc. by rewrite Hc.
Qed.

Lemma keeps_setPeers (ps : gmap string Peer) (s : SignalingState) :
  (peerBySenderId s !! sessionId s = None -> ps !! sessionId s = None) ->
  Keeps s (setPeers ps s).
Proof. intros Hps. by split. Qed.

Lemma keeps_onMessage (message : Message) (s : SignalingState) :
  Keeps s (onMessage message s).1.
Proof.
  unfold onMessage. destruct (String.eqb_spec (senderId message) (sessionId s)) as [|Hne];
    [apply keeps_refl|].
  set (s1 := match peerBySenderId s !! senderId message with
             | Some _ => s
             | None => _
             end).
  assert (H1 : Keeps s s1).
  { unfold s1. destruct (peerBySenderId s !! senderId message); [apply keeps_refl|].
    eapply keeps_trans; [|apply keeps_setPeers].
    - eapply keeps_trans; [|apply keeps_resyncNext].
      apply keeps_setPeers. intros Hn. by rewrite lookup_fmap, Hn.
    - simpl. intros Hn. by rewrite lookup_insert_ne. }
  destruct (getField "i" (data message)) as [i|e]; simpl; [|done].
  destruct (negb _); simpl; [|done].
  eapply keeps_trans; [exact H1|]. apply keeps_setPeers.
  intros Hn. rewrite lookup_alter_ne; [done|].
  rewrite (keeps_session _ _ H1). done.
Qed.

Lemma keeps_forEachMessage (messages : list Message) : forall s,
  Keeps s (forEachMessage messages s).1.
Proof.
  induction messages as [|message rest IH]; intros s; simpl; [apply keeps_refl|].
  pose proof (keeps_onMessage message s) as H1.
  destruct (onMessage message s) as [s' [e|]]; simpl in *; [done|].
  eapply keeps_trans; [exact H1|apply IH].
Qed.

Lemma markProcessed_grows (useFiles : list DriveFileMetadata) : forall processed,
  processed ⊆ (markProcessed useFiles processed).1.
Proof.
  induction useFiles as [|file rest IH]; intros processed; simpl; [done|].
  destruct (messageIdByFilename (name file)); simpl; [|done].
  etrans; [|apply IH]. apply union_subseteq_r.
Qed.

Lemma readMessages_grows (net : Network) (processed : gset string) :
  processed ⊆ (readMessages net processed).2.
Proof.
  unfold readMessages. destruct (negb (ok _)); [done|].
  destruct (unseen processed _) as [useFiles|e]; [|done].
  destruct (promiseAll _ useFiles) as [contents|e]; [|done].
  pose proof (markProcessed_grows useFiles processed) as Hg.
  by destruct (markProcessed useFiles processed) as [p [e|]].
Qed.

Lemma keeps_processNewMessages (net : Network) (s : SignalingState) :
  Keeps s (processNewMessages net s).
Proof.
  unfold processNewMessages, _processNewMessages.
  pose proof (readMessages_grows net (processedMessageIds s)) as Hg.
  destruct (readMessages net (processedMessageIds s)) as [[messages|e] processed'];
    simpl in *.
  - eapply keeps_trans; [|apply keeps_forEachMessage].
    eapply (keeps_trans _ (setProcessed processed' s)); [by split|].
    destruct (0 <? length messages)%nat; [apply keeps_resyncNext|apply keeps_refl].
  - by split.
Qed.

Lemma keeps_run (events : list Event) : forall s, Keeps s (run events s).2.
Proof.
  induction events as [|[net|net] rest IH]; intros s; simpl; [apply keeps_refl| |].
  - destruct (closed s); [apply IH|].
    unfold loopRound.
    set (s1 := setBackoffStepId _ (processNewMessages net s)).
    assert (H1 : Keeps s s1).
    { eapply keeps_trans; [apply keeps_processNewMessages|]. by split. }
    specialize (IH s1). destruct (run rest s1) as [times s2]. simpl in *.
    by eapply keeps_trans.
  - eapply keeps_trans; [|apply IH].
    eapply keeps_trans; [apply keeps_processNewMessages|]. by split.
Qed.

(** A state never has a peer under its own session id, whatever it
    reads and however often the loop runs or is reset, and its session
    id never changes. *)
Theorem never_its_own_peer (env : option Browser) (sessionId0 messageId now : string)
    (events : list Event) :
  let s := (run events (construct env sessionId0 messageId now).1).2 in
  sessionId s = sessionId0 /\ peerBySenderId s !! sessionId0 = None.
Proof.
  intros s. destruct (keeps_run events (construct env sessionId0 messageId now).1)
    as [H1 H2 _ _ _].
  split; [exact H1|]. by apply H2.
Qed.

(** A message id that is processed stays processed. *)
Theorem processed_ids_only_grow (events : list Event) (s : SignalingState) :
  processedMessageIds s ⊆ processedMessageIds (run events s).2.
Proof. apply keeps_run. Qed.

Lemma run_closed (events : list Event) : forall s,
  closed s = true -> (run events s).1 = [].
Proof.
  induction events as [|[net|net] rest IH]; intros s Hc; simpl; [done| |].
  - rewrite Hc. by apply IH.
  - apply IH. apply (keeps_closed s); [|done].
    eapply keeps_trans; [apply keeps_processNewMessages|]. by split.
Qed.

(** After [close()] the loop waits no more and [resync$] emits no
    more, whatever happens to the state afterwards. *)
Theorem nothing_after_close (env : option Browser) (s : SignalingState)
    (events : list Event) :
  let s' := (close env s).1 in
  (run events s').1 = []
  /\ resyncEmitted (run events s').2 = resyncEmitted s
  /\ closed (run events s').2 = true
  /\ forall sender peer, peerBySenderId s' !! sender = Some peer -> destroyed peer = true.
Proof.
  intros s'. split; [by apply run_closed|].
  destruct (keeps_run events s') as [_ _ _ H4 H5].
  split; [by destruct (H4 eq_refl)|]. split; [by apply H5|].
  intros sender peer. unfold s'. simpl. rewrite lookup_fmap.
  destruct (peerBySenderId s !! sender); [|done]. by intros [= <-].
Qed.

End KeepsFacts.

(** ** signaling.ts: the backoff with resets inside a round *)

Section LoopFacts.
Import Signaling PollLoop.

Lemma inTable_lookup (n : nat) :
  (n <= MAX_BACKOFF_STEP_ID)%nat -> inTable (BACKOFF_STEPS !! n).
Proof.
  unfold MAX_BACKOFF_STEP_ID, inTable. simpl. intros Hn.
  do 15 (destruct n as [|n];
         [eexists; split; [reflexivity|split; [|lia]];
          apply list_elem_of_In; simpl; tauto|]).
  lia.
Qed.

Lemma bump_bounded (s : SignalingState) :
  (backoffStepId (bump s) <= MAX_BACKOFF_STEP_ID)%nat.
Proof.
  unfold bump. cbn [backoffStepId setBackoffStepId].
  destruct (MAX_BACKOFF_STEP_ID <? backoffStepId s + 1)%nat eqn:E; [done|].
  apply Nat.ltb_ge in E. exact E.
Qed.

Lemma step_bounded (e : Step) (l : Loop) : Bounded l -> Bounded (step e l).
Proof.
  destruct l as [st ph ws]. intros [Hc Hp Hw]. simpl in Hc, Hp, Hw.
  pose proof (fun net => proj1 (processNewMessages_backoff net st)) as Hpoll.
  destruct e as [|net| |net|]; destruct ph as [|time|time cut|];
    cbn [step phase state waits]; try (by split);
    try (split; cbn [phase state waits]; [by rewrite Hpoll|done|done]).
  - destruct (closed st); split; cbn [phase state waits]; try done.
    by apply inTable_lookup.
  - split; cbn [phase state waits]; [apply bump_bounded|done|].
    apply Forall_app. split; [done|]. by constructor.
  - split; cbn [phase state waits backoffStepId setBackoffStepId]; [lia|done|done].
  - split; cbn [phase state waits backoffStepId setBackoffStepId]; [lia|done|done].
  - split; cbn [phase state waits backoffStepId setBackoffStepId]; [lia|done|done].
  - split; cbn [phase state waits backoffStepId setBackoffStepId]; [lia|done|done].
Qed.

Lemma exec_bounded (steps : list Step) : forall l, Bounded l -> Bounded (exec steps l).
Proof.
  induction steps as [|e rest IH]; intros l Hl; [done|].
  simpl. by apply IH, step_bounded.
Qed.

Lemma step_just_reset (e : Step) (l : Loop) :
  isLoopTop e = false -> JustReset l -> JustReset (step e l).
Proof.
  destruct l as [st ph ws]. unfold JustReset. cbn [state phase].
  pose proof (fun net => proj1 (processNewMessages_backoff net st)) as Hpoll.
  intros He Hl. destruct e as [|net| |net|]; [done| | | |].
  - destruct ph as [|time|time cut|]; cbn [step phase state waits]; try done.
    destruct Hl as [H0|[_ ?]]; [|done]. left. by rewrite Hpoll.
  - destruct ph as [|time|time cut|]; cbn [step phase state waits]; try done.
    destruct Hl as [H0|[_ ?]]; [|done]. right. split; [|done].
    unfold bump. cbn [backoffStepId setBackoffStepId]. by rewrite H0.
  - cbn [step phase state waits]. rewrite Hpoll. exact Hl.
  - left. reflexivity.
Qed.

Lemma exec_just_reset (steps : list Step) : forall l,
  forallb (fun e => negb (isLoopTop e)) steps = true ->
  JustReset l -> JustReset (exec steps l).
Proof.
  induction steps as [|e rest IH]; intros l Hs Hl; [done|].
  simpl in *. apply andb_true_iff in Hs as [He Hs].
  apply IH; [done|]. apply step_just_reset; [|done]. by destruct (isLoopTop e).
Qed.

(** The delay the loop asks for is always an entry of the table, from
    50 ms to 120000 ms, and the step counter never leaves the table,
    wherever the polls and the resets fall between the awaits of the
    loop.  After a reset the next delay the loop reads is 50 ms; a wait
    that is pending when the reset lands is cut short, and the counter
    moves on from 0 when that wait ends. *)
Theorem backoff_stays_in_table (steps : list Step) (s : SignalingState) :
  (backoffStepId s <= MAX_BACKOFF_STEP_ID)%nat ->
  let l := exec steps (start s) in
  Forall (fun w => inTable w.1) (waits l)
  /\ (backoffStepId (state l) <= MAX_BACKOFF_STEP_ID)%nat
  /\ (forall later,
        forallb (fun e => negb (isLoopTop e)) later = true ->
        let l' := exec (ResetLands :: later) l in
        phase l' = AtTop -> closed (state l') = false ->
        phase (step LoopTop l') = Polling (Some 50))
  /\ (forall time cut,
        phase l = Waiting time cut ->
        waits (exec [ResetLands; LoopWakes] l) = waits l ++ [(time, true)]
        /\ backoffStepId (state (exec [ResetLands; LoopWakes] l)) = 1%nat).
Proof.
  intros Hle l.
  assert (Hl : Bounded l).
  { apply exec_bounded. split; simpl; [done|done|constructor]. }
  destruct Hl as [Hc Hp Hw].
  split; [done|]. split; [done|]. split.
  - intros later Hlater l' Hphase Hclosed.
    assert (Hj : JustReset l').
    { unfold l'. cbn [exec]. apply exec_just_reset; [done|]. by left. }
    unfold step. rewrite Hphase, Hclosed.
    destruct Hj as [->|[-> _]]; reflexivity.
  - intros time cut Hphase. cbn [exec step]. rewrite Hphase. simpl. done.
Qed.

End LoopFacts.

(** ** signaling.ts: the mesh, the listeners *)

Section MeshFacts.
Import Signaling.

Lemma ltb_antisym (a b : string) :
  a <> b -> String.ltb a b = negb (String.ltb b a).
Proof.
  intros Hne. unfold String.ltb. rewrite (String.compare_antisym b a).
  destruct (String.compare a b) eqn:E; simpl; try done.
  apply String.compare_eq_iff in E. done.
Qed.

(** Two states that read each other's first message create one peer
    each, and exactly one of the two is the initiator. *)
Theorem one_initiator (sA sB : SignalingState) (dataA dataB : json) :
  sessionId sA <> sessionId sB ->
  peerBySenderId sA !! sessionId sB = None ->
  peerBySenderId sB !! sessionId sA = None ->
  exists peerB peerA,
    peerBySenderId (onMessage (mkMessage (sessionId sB) dataB) sA).1 !! sessionId sB
    = Some peerB
    /\ peerBySenderId (onMessage (mkMessage (sessionId sA) dataA) sB).1 !! sessionId sA
       = Some peerA
    /\ initiator peerB = negb (initiator peerA).
Proof.
  intros Hne HA HB.
  assert (Hgen : forall s other d, sessionId s <> other ->
            peerBySenderId s !! other = None ->
            exists peer, peerBySenderId (onMessage (mkMessage other d) s).1 !! other
                         = Some peer
                         /\ initiator peer = String.ltb (sessionId s) other).
  { intros s other d Hso Hnone. unfold onMessage. simpl.
    destruct (String.eqb_spec other (sessionId s)) as [|_]; [congruence|].
    rewrite Hnone.
    destruct (getField "i" d) as [i|e]; simpl.
    - destruct (negb _); simpl.
      + rewrite lookup_alter_eq, lookup_insert_eq. simpl. by eexists.
      + rewrite lookup_insert_eq. by eexists.
    - rewrite lookup_insert_eq. by eexists. }
  destruct (Hgen sA (sessionId sB) dataB Hne HA) as (peerB & HpB & HiB).
  destruct (Hgen sB (sessionId sA) dataA ltac:(congruence) HB) as (peerA & HpA & HiA).
  exists peerB, peerA. split; [done|]. split; [done|].
  rewrite HiB, HiA. by apply ltb_antisym.
Qed.

Lemma removeEventListener_absent (l : Listener) (ls : list Listener) :
  existsb (sameListener l) ls = false -> removeEventListener l ls = ls.
Proof.
  unfold removeEventListener. induction ls as [|x ls IH]; simpl; [done|].
  intros [Hx Hls]%orb_false_elim. rewrite Hx. simpl. by rewrite IH.
Qed.

Lemma removeEventListener_added (l : Listener) (ls : list Listener) :
  existsb (sameListener l) ls = false ->
  removeEventListener l (addEventListener l ls) = ls.
Proof.
  intros Hn. unfold addEventListener. rewrite Hn. unfold removeEventListener.
  rewrite List.filter_app. simpl.
  assert (Hself : sameListener l l = true).
  { unfold sameListener. by rewrite !String.eqb_refl. }
  rewrite Hself. simpl. rewrite app_nil_r. by apply removeEventListener_absent.
Qed.

(** On [window], [close()] undoes the constructor: when the state's
    listeners were not registered there before, the listeners of
    [window] after the constructor and [close()] are the ones from
    before. *)
Theorem window_listeners_restored (b : Browser) (sessionId0 messageId now : string) :
  existsb (sameListener ("online", sessionId0)) (windowListeners b) = false ->
  existsb (sameListener ("visibilitychange", sessionId0)) (windowListeners b) = false ->
  let '(s, env) := construct (Some b) sessionId0 messageId now in
  exists b', (close env s).2 = Some b' /\ windowListeners b' = windowListeners b.
Proof.
  intros Honline Hvis. simpl. eexists. split; [reflexivity|]. simpl.
  rewrite removeEventListener_added by done.
  by apply removeEventListener_absent.
Qed.

End MeshFacts.

(** ** The further properties on concrete runs *)

Section MoreRuns.
Import Scenario MoreScenario.

Lemma listing_sorted : ListingOrder.sortedByTime listing.
Proof.
  unfold ListingOrder.sortedByTime, listing.
  repeat (constructor; [|repeat (constructor; [eexists _, _; repeat split; reflexivity|]);
                         constructor]).
  constructor.
Defined.

Lemma fetchChangesFiles_page_witness :
  Downstream.fetchChangesFiles listOk init (Some checkpoint1) 3
  = Ok (Some checkpoint2,
        [file "id-b" "doc-b.json" t1; file "id-c" "doc-c.json" t2;
         file "id-d" "doc-d.json" t2])
  /\ [file "id-b" "doc-b.json" t1; file "id-c" "doc-c.json" t2;
      file "id-d" "doc-d.json" t2] `sublist_of` listing.
Proof.
  assert (H : Downstream.fetchChangesFiles listOk init (Some checkpoint1) 3
              = Ok (Some checkpoint2,
                    [file "id-b" "doc-b.json" t1; file "id-c" "doc-c.json" t2;
                     file "id-d" "doc-d.json" t2])) by reflexivity.
  split; [exact H|].
  exact (proj1 (fetchChangesFiles_page listOk init (Some checkpoint1) 3 _ _ H)).
Defined.

Lemma fetchChangesFiles_overfetch_witness :
  0 <= 3
  /\ Downstream.fetchChangesFiles listOk init (Some checkpoint1) 3
     = Ok (Some checkpoint2,
           [file "id-b" "doc-b.json" t1; file "id-c" "doc-c.json" t2;
            file "id-d" "doc-d.json" t2])
  /\ 3 = Z.min 3 (5 - 1).
Proof.
  assert (H : Downstream.fetchChangesFiles listOk init (Some checkpoint1) 3
              = Ok (Some checkpoint2,
                    [file "id-b" "doc-b.json" t1; file "id-c" "doc-c.json" t2;
                     file "id-d" "doc-d.json" t2])) by reflexivity.
  split; [lia|]. split; [exact H|].
  exact (proj1 (fetchChangesFiles_overfetch listOk init (Some checkpoint1) 3 _ _
                  ltac:(lia) H)).
Defined.

Lemma second_listing_honours : ListingOrder.honours checkpoint2 (payload (listSecond
  (Downstream.changesQuery init (Some checkpoint2) 3) 0%nat)).
Proof.
  intros f Hin. simpl in Hin.
  repeat (apply elem_of_cons in Hin as [->|Hin]);
    [eexists; (split; [reflexivity|reflexivity])..|].
  by apply elem_of_nil in Hin.
Defined.

Lemma consecutive_pages_share_no_file_witness :
  Downstream.fetchChangesFiles listOk init (Some checkpoint1) 3
  = Ok (Some checkpoint2,
        [file "id-b" "doc-b.json" t1; file "id-c" "doc-c.json" t2;
         file "id-d" "doc-d.json" t2])
  /\ Downstream.fetchChangesFiles listSecond init (Some checkpoint2) 3
     = Ok (Some (Checkpoint.mk t3 ["doc-e.json"]), [file "id-e" "doc-e.json" t3])
  /\ ~ (name (file "id-c" "doc-c.json" t2) = name (file "id-e" "doc-e.json" t3)
        /\ modifiedTime (file "id-c" "doc-c.json" t2)
           = modifiedTime (file "id-e" "doc-e.json" t3)).
Proof.
  assert (H1 : Downstream.fetchChangesFiles listOk init (Some checkpoint1) 3
              = Ok (Some checkpoint2,
                    [file "id-b" "doc-b.json" t1; file "id-c" "doc-c.json" t2;
                     file "id-d" "doc-d.json" t2])) by reflexivity.
  assert (H2 : Downstream.fetchChangesFiles listSecond init (Some checkpoint2) 3
              = Ok (Some (Checkpoint.mk t3 ["doc-e.json"]),
                    [file "id-e" "doc-e.json" t3])) by reflexivity.
  split; [exact H1|]. split; [exact H2|].
  apply (consecutive_pages_share_no_file listOk listSecond init (Some checkpoint1)
           3 3 checkpoint2 _ _ _ listing_sorted H1 second_listing_honours H2).
  - apply list_elem_of_further, list_elem_of_here.
  - apply list_elem_of_here.
Defined.

Lemma listing_honours (f : DriveFileMetadata) :
  f ∈ listing ->
  exists t, modifiedTime f = Some t /\ timeLe (Checkpoint.modifiedTime checkpoint1) t.
Proof.
  unfold listing. intros Hin.
  repeat (apply elem_of_cons in Hin as [->|Hin]);
    [eexists; (split; [reflexivity|reflexivity])..|].
  by apply elem_of_nil in Hin.
Defined.

Lemma delivered_stays_delivered_witness :
  Downstream.fetchChangesFiles listOk init (Some checkpoint1) 1
  = Ok (Some (Checkpoint.mk t1 ["doc-b.json"; "doc-a.json"]),
        [file "id-b" "doc-b.json" t1])
  /\ Downstream.delivered (Some (Checkpoint.mk t1 ["doc-b.json"; "doc-a.json"]))
       (file "id-a" "doc-a.json" t1).
Proof.
  assert (H : Downstream.fetchChangesFiles listOk init (Some checkpoint1) 1
              = Ok (Some (Checkpoint.mk t1 ["doc-b.json"; "doc-a.json"]),
                    [file "id-b" "doc-b.json" t1])) by reflexivity.
  split; [exact H|].
  apply (delivered_stays_delivered listOk init checkpoint1 _ 1 _
           listing_sorted listing_honours H eq_refl).
  split; [reflexivity|apply list_elem_of_here].
Defined.

Lemma fetchChangesFiles_throws_witness :
  0 <= 3
  /\ ok (listBusyOnce (Downstream.changesQuery init None 3) 0%nat) = false
  /\ Downstream.fetchChangesFiles listBusyOnce init None 3 = Throw (RxFetchError 429)
  /\ ok (listUntimed (Downstream.changesQuery init None 3) 0%nat) = true
  /\ Downstream.fetchChangesFiles listUntimed init None 3 = Throw NotFalsyError.
Proof.
  split; [lia|]. split; [reflexivity|].
  split.
  - exact (proj1 (fetchChangesFiles_throws listBusyOnce init None 3 ltac:(lia))
             eq_refl).
  - split; [reflexivity|].
    apply (proj1 (proj2 (fetchChangesFiles_throws listUntimed init None 3 ltac:(lia)))
             eq_refl (mkFile "id-g" "doc-g.json" None None)).
    + reflexivity.
    + left. reflexivity.
Defined.

End MoreRuns.

Section MoreRuns2.
Import Scenario MoreScenario.
Import DocumentHandling.

Lemma fetchOne_absorbs_refusals_witness :
  (2 <= 4)%nat
  /\ outcome (fetchOne downloadBusyTwice jitter0 "id-a" 0)
     = Ok (Some (JObj [("passportId", JStr "id-a")]))
  /\ requests (fetchOne downloadBusyTwice jitter0 "id-a" 0) = 3%nat
  /\ slept (fetchOne downloadBusyTwice jitter0 "id-a" 0) = [267; 517].
Proof.
  split; [lia|].
  apply (fetchOne_absorbs_refusals downloadBusyTwice jitter0 "id-a" 2 ltac:(lia)).
  - intros [|[|i]] Hi; [reflexivity|reflexivity|lia].
  - intros _. reflexivity.
Defined.

Lemma fetchOne_total_sleep_witness :
  (forall f a, 0 <= jitter0 f a < 200)
  /\ 250 * (2 ^ 2 - 1) <= foldr Z.add 0 (slept (fetchOne downloadBusyTwice jitter0 "id-a" 0))
     <= 4546.
Proof.
  assert (H : forall f a, 0 <= jitter0 f a < 200) by (intros f a; unfold jitter0; lia).
  split; [exact H|].
  exact (fetchOne_total_sleep downloadBusyTwice jitter0 "id-a" H).
Defined.


Lemma fetchDocumentContents_rejects_witness :
  1 <= 2
  /\ "id-b" ∈ ["id-a"; "id-b"; "id-c"]
  /\ exists e, fetchDocumentContents downloadEmpty jitter0 ["id-a"; "id-b"; "id-c"] 2
                 roundRobin = Some (Throw e).
Proof.
  split; [lia|]. split; [apply list_elem_of_further, list_elem_of_here|].
  apply (fetchDocumentContents_rejects downloadEmpty jitter0 ["id-a"; "id-b"; "id-c"] 2
           roundRobin "id-b" ltac:(lia)).
  - apply list_elem_of_further, list_elem_of_here.
  - intros doc H. vm_compute in H. discriminate.
Defined.

Lemma fetchChanges_empty_page_witness :
  Downstream.fetchChangesFiles listEmpty init (Some checkpoint1) 3
  = Ok (Some checkpoint1, [])
  /\ Downstream.fetchChanges listEmpty downloadNotImplemented jitter0 roundRobin init
       (Some checkpoint1) 3
     = Some (Ok (Some checkpoint1, [])).
Proof.
  assert (H : Downstream.fetchChangesFiles listEmpty init (Some checkpoint1) 3
              = Ok (Some checkpoint1, [])) by reflexivity.
  split; [exact H|].
  exact (fetchChanges_empty_page listEmpty downloadNotImplemented jitter0 roundRobin
           init (Some checkpoint1) (Some checkpoint1) 3 H).
Defined.

Lemma updatedDocs_updatable (doc : Human) :
  doc ∈ updatedDocs ->
  DocumentUpdate.updatable Human passportId patchOk fileIdByDocId doc.
Proof.
  unfold updatedDocs. intros Hin.
  repeat (apply elem_of_cons in Hin as [->|Hin]);
    [eexists _, _; repeat split; vm_compute; reflexivity..|].
  by apply elem_of_nil in Hin.
Defined.


Lemma updateDocumentFiles_sends_in_order_witness :
  exists out s,
    DocumentUpdate.updateDocumentFiles Human passportId patchOk fileIdByDocId
      inheritedDocs 1 roundRobin = Some (out, s)
    /\ DocumentUpdate.sent Human s
       = [(PlainObject.Own "file-0", ("doc-0", 42));
          (PlainObject.Inherited "constructor", ("constructor", 42))]
    /\ map snd (DocumentUpdate.sent Human s) `sublist_of` inheritedDocs
    /\ PlainObject.get fileIdByDocId "constructor"
       = Some (PlainObject.Inherited "constructor").
Proof.
  destruct (DocumentUpdate.updateDocumentFiles Human passportId patchOk fileIdByDocId
              inheritedDocs 1 roundRobin) as [[out s]|] eqn:E;
    [|vm_compute in E; discriminate].
  exists out, s. split; [reflexivity|].
  destruct (updateDocumentFiles_sends_in_order Human passportId patchOk fileIdByDocId
              inheritedDocs 1 roundRobin out s E) as [Hsub Hids].
  assert (Hsent : DocumentUpdate.sent Human s
       = [(PlainObject.Own "file-0", ("doc-0", 42));
          (PlainObject.Inherited "constructor", ("constructor", 42))])
    by (vm_compute in E; injection E as _ <-; reflexivity).
  split; [exact Hsent|]. split; [exact Hsub|].
  apply (Hids (PlainObject.Inherited "constructor") ("constructor", 42)).
  rewrite Hsent. apply list_elem_of_further, list_elem_of_here.
Defined.

End MoreRuns2.

Section MoreRuns3.
Import Scenario MoreScenario.
Import FileNames Signaling.

Lemma messageIdByFilename_plain_witness :
  messageIdByFilename "peerB_1714557600000_msgB1.json" = Ok "msgB1"
  /\ "msgB1" <> EmptyString /\ plainToken "msgB1".
Proof.
  split; [reflexivity|].
  exact (messageIdByFilename_plain "peerB_1714557600000_msgB1.json" "msgB1" eq_refl).
Defined.

Lemma sendMessage_name_read_back_witness :
  plainToken (sessionId peerA)
  /\ plainToken "1714557600001" /\ "1714557600001" <> EmptyString
  /\ exists fileName,
       uploaded (sendMessage "msgA2" "1714557600001.01" JNull peerA)
       = uploaded peerA ++ [(fileName, JNull)]
       /\ head (split "_" fileName) = Some (sessionId peerA)
       /\ "msgA2" ∈ processedMessageIds (sendMessage "msgA2" "1714557600001.01" JNull peerA)
       /\ messageIdByFilename fileName = Ok "1714557600001".
Proof.
  assert (H1 : plainToken (sessionId peerA)) by (split; reflexivity).
  assert (H2 : plainToken "1714557600001") by (split; reflexivity).
  assert (H3 : "1714557600001" <> EmptyString) by discriminate.
  repeat (split; [assumption|]).
  destruct (sendMessage_name_read_back peerA "msgA2" "1714557600001.01" JNull H1)
    as (fileName & Hup & Hsender & Hin & Hdecimal & _).
  exists fileName. repeat (split; [assumption|]).
  exact (Hdecimal "1714557600001" "01" eq_refl H2 H3).
Defined.

Lemma readMessages_twice_witness :
  exists messages processed',
    readMessages beaconNetwork ∅ = (Ok messages, processed')
    /\ readMessages beaconNetwork processed' = (Ok [], processed').
Proof.
  destruct (readMessages beaconNetwork ∅) as [[messages|e] processed'] eqn:E;
    [|vm_compute in E; discriminate].
  exists messages, processed'. split; [reflexivity|].
  exact (readMessages_twice beaconNetwork ∅ processed' messages E).
Defined.

Lemma readMessages_oldest_first_witness :
  exists messages processed',
    readMessages beaconNetwork ∅ = (Ok messages, processed')
    /\ Polls.unseenFiles ∅ (default [] (payload (listResponse beaconNetwork)))
       = [signalFile]
    /\ Forall2 (fun file message =>
                  senderId message
                  = default EmptyString (head (split "_" (name file)))
                  /\ readJsonFileContent beaconNetwork (id file) = Ok (data message))
               [signalFile] messages.
Proof.
  destruct (readMessages beaconNetwork ∅) as [[messages|e] processed'] eqn:E;
    [|vm_compute in E; discriminate].
  exists messages, processed'. split; [reflexivity|]. split; [reflexivity|].
  exact (proj1 (readMessages_oldest_first beaconNetwork ∅ processed' messages E)).
Defined.

Lemma own_message_is_read_back_witness :
  plainToken (sessionId peerA)
  /\ plainToken "1714557600001" /\ "1714557600001" <> EmptyString
  /\ ("1714557600001"
        ∉ processedMessageIds (sendMessage "msgA2" "1714557600001.01" JNull peerA))
  /\ ok (listResponse ownNetwork) = true
  /\ payload (listResponse ownNetwork) = Some [ownFile]
  /\ readJsonFileContent ownNetwork (id ownFile) = Ok JNull
  /\ resyncEmitted
       (_processNewMessages ownNetwork
          (sendMessage "msgA2" "1714557600001.01" JNull peerA)).1
     = S (resyncEmitted peerA)
  /\ peerBySenderId
       (_processNewMessages ownNetwork
          (sendMessage "msgA2" "1714557600001.01" JNull peerA)).1
     = peerBySenderId peerA.
Proof.
  assert (H1 : plainToken (sessionId peerA)) by (split; reflexivity).
  assert (H2 : plainToken "1714557600001") by (split; reflexivity).
  assert (H3 : "1714557600001" <> EmptyString) by discriminate.
  assert (H4 : "1714557600001"
               ∉ processedMessageIds (sendMessage "msgA2" "1714557600001.01" JNull peerA))
    by (vm_compute; discriminate).
  repeat (split; [assumption|]).
  split; [reflexivity|]. split; [reflexivity|]. split; [reflexivity|].
  destruct (own_message_is_read_back peerA "msgA2" "1714557600001" "01" JNull JNull
              ownNetwork ownFile H1 H2 H3 H4 eq_refl eq_refl
              ltac:(exists JNull; reflexivity) eq_refl)
    as (_ & _ & Hpeers & Hemit).
  split; [exact (Hemit eq_refl)|exact Hpeers].
Defined.

Lemma backoff_stays_in_table_witness :
  (backoffStepId peerA <= MAX_BACKOFF_STEP_ID)%nat
  /\ PollLoop.waits (PollLoop.exec resetInsideRound (PollLoop.start peerA))
     = [(Some 50, false); (Some 50, false); (Some 100, true); (Some 50, false);
        (Some 100, false); (Some 100, false); (Some 200, false)]
  /\ Forall (fun w => PollLoop.inTable w.1)
       (PollLoop.waits (PollLoop.exec resetInsideRound (PollLoop.start peerA)))
  /\ (backoffStepId
        (PollLoop.state (PollLoop.exec resetInsideRound (PollLoop.start peerA)))
      <= MAX_BACKOFF_STEP_ID)%nat.
Proof.
  assert (H : (backoffStepId peerA <= MAX_BACKOFF_STEP_ID)%nat)
    by (vm_compute; lia).
  split; [exact H|]. split; [reflexivity|].
  destruct (backoff_stays_in_table resetInsideRound peerA H) as (Ha & Hb & _).
  split; [exact Ha|exact Hb].
Defined.

Lemma one_initiator_witness :
  sessionId peerA <> sessionId peerB
  /\ peerBySenderId peerA !! sessionId peerB = None
  /\ peerBySenderId peerB !! sessionId peerA = None
  /\ exists pB pA,
       peerBySenderId (onMessage (mkMessage (sessionId peerB) JNull) peerA).1
         !! sessionId peerB = Some pB
       /\ peerBySenderId (onMessage (mkMessage (sessionId peerA) JNull) peerB).1
            !! sessionId peerA = Some pA
       /\ initiator pB = negb (initiator pA).
Proof.
  assert (H1 : sessionId peerA <> sessionId peerB) by discriminate.
  assert (H2 : peerBySenderId peerA !! sessionId peerB = None) by reflexivity.
  assert (H3 : peerBySenderId peerB !! sessionId peerA = None) by reflexivity.
  repeat (split; [assumption|]).
  exact (one_initiator peerA peerB JNull JNull H1 H2 H3).
Defined.

Lemma window_listeners_restored_witness :
  existsb (sameListener ("online", "peerA")) (windowListeners browser) = false
  /\ existsb (sameListener ("visibilitychange", "peerA")) (windowListeners browser) = false
  /\ let '(s, env) := construct (Some browser) "peerA" "msgA1" "1714557600000" in
     exists b', (close env s).2 = Some b' /\ windowListeners b' = windowListeners browser.
Proof.
  split; [reflexivity|]. split; [reflexivity|].
  exact (window_listeners_restored browser "peerA" "msgA1" "1714557600000"
           eq_refl eq_refl).
Defined.

End MoreRuns3.
